(** * The offline report queue of [src/stores/offlineStore.ts]

    A shallow embedding of the zustand store [useOfflineStore]: the
    in-memory projection [pendingReports], the durable localforage
    database, the Supabase gateway and the five store actions
    [setOnlineStatus], [addPendingReport], [loadPendingReports],
    [syncPendingReports] and [clearSyncedReports].

    The actions are written once, as programs over the effects the source
    performs (zustand [get]/[set], localforage calls, Supabase calls,
    [Date.now], [Math.random], [setTimeout], [console.error]).  Two
    semantics are given to these programs: [run] executes an action to
    completion, and [sys_step] interleaves several in-flight actions at
    the points where the source awaits. *)

From Stdlib Require Import ZArith String List PrimFloat Sorting.Sorted.
From stdpp Require Import gmap strings list fin_maps pretty relations.

Open Scope Z_scope.

(** ** Data model *)

(** A browser [File]: the code reads [file.name] and hands the whole
    object to the upload call. *)
Record File := { file_name : string; file_bytes : string }.

(** [interface OfflineReport].  [created_at] is written by
    [new Date().toISOString()] and only ever read back through
    [new Date(created_at).getTime()]; an ISO-8601 string denotes the
    millisecond count it was printed from, so the field holds that count. *)
Record OfflineReport := {
  id : string;
  latitude : float;
  longitude : float;
  description : string;
  severity : string;
  hazard_type : string;
  location_description : string;
  reporter_name : string;
  reporter_contact : option string;
  urgency_level : string;
  media_files : option (list File);
  created_at : Z;
  synced : bool }.

(** [Omit<OfflineReport, 'id' | 'created_at' | 'synced'>], the argument of
    [addPendingReport]. *)
Record ReportData := {
  d_latitude : float;
  d_longitude : float;
  d_description : string;
  d_severity : string;
  d_hazard_type : string;
  d_location_description : string;
  d_reporter_name : string;
  d_reporter_contact : option string;
  d_urgency_level : string;
  d_media_files : option (list File) }.

(** The row handed to [supabase.from('reports').insert]. *)
Record ReportRow := {
  row_latitude : float;
  row_longitude : float;
  row_description : string;
  row_severity : string;
  row_hazard_type : string;
  row_location_description : string;
  row_reporter_name : string;
  row_reporter_contact : option string;
  row_urgency_level : string;
  row_media_url : list string;
  row_user_id : option string }.

(** The zustand state (the data fields of [interface OfflineState]). *)
Record OfflineState := {
  isOnline : bool;
  pendingReports : list OfflineReport;
  syncInProgress : bool }.

(** [{ ...reportData, id, created_at, synced: false }] *)
Definition new_report (reportData : ReportData) (rid : string) (created : Z)
  : OfflineReport :=
  {| id := rid;
     latitude := d_latitude reportData;
     longitude := d_longitude reportData;
     description := d_description reportData;
     severity := d_severity reportData;
     hazard_type := d_hazard_type reportData;
     location_description := d_location_description reportData;
     reporter_name := d_reporter_name reportData;
     reporter_contact := d_reporter_contact reportData;
     urgency_level := d_urgency_level reportData;
     media_files := d_media_files reportData;
     created_at := created;
     synced := false |}.

(** [{ ...report, synced: b }] *)
Definition with_synced (b : bool) (report : OfflineReport) : OfflineReport :=
  {| id := id report;
     latitude := latitude report;
     longitude := longitude report;
     description := description report;
     severity := severity report;
     hazard_type := hazard_type report;
     location_description := location_description report;
     reporter_name := reporter_name report;
     reporter_contact := reporter_contact report;
     urgency_level := urgency_level report;
     media_files := media_files report;
     created_at := created_at report;
     synced := b |}.

(** The fields an enqueue was called with, read back from a record. *)
Definition payload (report : OfflineReport) : ReportData :=
  {| d_latitude := latitude report;
     d_longitude := longitude report;
     d_description := description report;
     d_severity := severity report;
     d_hazard_type := hazard_type report;
     d_location_description := location_description report;
     d_reporter_name := reporter_name report;
     d_reporter_contact := reporter_contact report;
     d_urgency_level := urgency_level report;
     d_media_files := media_files report |}.

(** The object literal passed to [insert]. *)
Definition insert_row (report : OfflineReport) (mediaUrls : list string)
    (user_id : option string) : ReportRow :=
  {| row_latitude := latitude report;
     row_longitude := longitude report;
     row_description := description report;
     row_severity := severity report;
     row_hazard_type := hazard_type report;
     row_location_description := location_description report;
     row_reporter_name := reporter_name report;
     row_reporter_contact := reporter_contact report;
     row_urgency_level := urgency_level report;
     row_media_url := mediaUrls;
     row_user_id := user_id |}.

(** ** Effects *)

(** The three localforage calls the store makes. *)
Inductive lf_call :=
| LfSetItem (key : string)
| LfIterate
| LfRemoveItem (key : string).

(** Values the code can find in a [catch] clause. *)
Inductive error :=
| StorageError (c : lf_call)
| UploadError (msg : string)
| InsertError (msg : string)
| AuthError (msg : string).

(** Outcome of an awaited Supabase call: the promise resolves to
    [{ data, error: null }], resolves to [{ data: null, error }], or
    rejects. *)
Inductive response (A : Type) :=
| Fulfilled (data : A)
| WithError (err : string)
| Rejected (err : string).
Arguments Fulfilled {A} data.
Arguments WithError {A} err.
Arguments Rejected {A} err.

Definition fulfilled {A} (r : response A) : bool :=
  match r with Fulfilled _ => true | _ => false end.

(** The only callback the store ever hands to [setTimeout]:
    [() => get().syncPendingReports()]. *)
Inductive task := TaskSyncPendingReports.

(** Interactions with the outside, in the order they happen; [ok] tells
    whether the call was answered without an error. *)
Inductive event :=
| EvStorage (c : lf_call) (ok : bool)
| EvUpload (fileName : string) (file : File) (ok : bool)
| EvGetUser
| EvInsert (row : ReportRow) (ok : bool)
| EvConsoleError (msg : string) (e : error).

(** One effect of the source, indexed by the type of its answer. *)
Inductive op : Type -> Type :=
| GetState : op OfflineState
| SetState (f : OfflineState -> OfflineState) : op unit
| DateNow : op Z
| MathRandom36 : op string
| SetTimeout (t : task) (ms : Z) : op unit
| ConsoleError (msg : string) (e : error) : op unit
| AwaitTick : op unit
| StorageSetItem (key : string) (value : OfflineReport) : op (option error)
| StorageIterate : op (error + list (string * OfflineReport))
| StorageRemoveItem (key : string) : op (option error)
| GatewayUpload (fileName : string) (file : File) : op (response unit)
| GatewayPublicUrl (fileName : string) : op string
| GatewayGetUser : op (response (option string))
| GatewayInsert (row : ReportRow) : op (response unit).

(** The effects behind an [await]: the action is suspended there. *)
Definition awaited {X} (o : op X) : bool :=
  match o with
  | AwaitTick | StorageSetItem _ _ | StorageIterate | StorageRemoveItem _
  | GatewayUpload _ _ | GatewayGetUser | GatewayInsert _ => true
  | _ => false
  end.

(** Programs: a tree of effects ending in a value or a thrown error. *)
Inductive prog (A : Type) : Type :=
| Ret (a : A)
| Throw (e : error)
| Op {X : Type} (o : op X) (k : X -> prog A).
Arguments Ret {A} a.
Arguments Throw {A} e.
Arguments Op {A X} o k.

Fixpoint bind {A B} (p : prog A) (f : A -> prog B) : prog B :=
  match p with
  | Ret a => f a
  | Throw e => Throw e
  | Op o k => Op o (fun x => bind (k x) f)
  end.

(** [try { p } catch (error) { h error }] *)
Fixpoint try_catch {A} (p : prog A) (h : error -> prog A) : prog A :=
  match p with
  | Ret a => Ret a
  | Throw e => h e
  | Op o k => Op o (fun x => try_catch (k x) h)
  end.

(** [try { p } finally { fin }] *)
Fixpoint try_finally {A} (p : prog A) (fin : prog unit) : prog A :=
  match p with
  | Ret a => bind fin (fun _ => Ret a)
  | Throw e => bind fin (fun _ => Throw e)
  | Op o k => Op o (fun x => try_finally (k x) fin)
  end.

Definition finished {A} (p : prog A) : bool :=
  match p with Op _ _ => false | _ => true end.

Declare Scope prog_scope.
Delimit Scope prog_scope with prog.
Bind Scope prog_scope with prog.
Notation "x <- p ; q" := (bind p (fun x => q))
  (at level 20, p at level 100, q at level 200, only parsing) : prog_scope.
Notation "'do' p ; q" := (bind p (fun _ => q))
  (at level 20, p at level 100, q at level 200, only parsing) : prog_scope.

Definition perform_op {X} (o : op X) : prog X := Op o Ret.

(** [for (const x of l) { locals = body x locals }]: a loop over an array
    threading the local variables the body updates. *)
Fixpoint for_of {A S} (l : list A) (locals : S) (body : A -> S -> prog S)
  : prog S :=
  match l with
  | [] => Ret locals
  | x :: rest => (s <- body x locals; for_of rest s body)%prog
  end.

(** ** Sorting *)

(** [(a, b) => new Date(b.created_at).getTime() - new Date(a.created_at).getTime()] *)
Definition newest_first_cmp (a b : OfflineReport) : Z :=
  created_at b - created_at a.

(** [Array.prototype.sort(compareFn)]: a stable sort; [x] is placed before
    the first element it does not compare greater than. *)
Fixpoint sort_insert {A} (compareFn : A -> A -> Z) (x : A) (l : list A)
  : list A :=
  match l with
  | [] => [x]
  | y :: rest =>
      if compareFn x y <=? 0 then x :: y :: rest
      else y :: sort_insert compareFn x rest
  end.

Definition array_sort {A} (compareFn : A -> A -> Z) (l : list A) : list A :=
  foldr (sort_insert compareFn) [] l.

(** ** The store's code

    *** localforage, as the store calls it *)

Definition localforage_setItem (key : string) (value : OfflineReport)
  : prog unit :=
  (r <- perform_op (StorageSetItem key value);
   match r with Some e => Throw e | None => Ret tt end)%prog.

(** [localforage.iterate(callback)]: the callback sees every stored
    value with its key; here it updates the local variables [locals]. *)
Definition localforage_iterate {S}
    (callback : OfflineReport -> string -> S -> S) (locals : S) : prog S :=
  (r <- perform_op StorageIterate;
   match r with
   | inl e => Throw e
   | inr entries =>
       Ret (foldl (fun s kv => callback kv.2 kv.1 s) locals entries)
   end)%prog.

Definition localforage_removeItem (key : string) : prog unit :=
  (r <- perform_op (StorageRemoveItem key);
   match r with Some e => Throw e | None => Ret tt end)%prog.

(** *** The store actions *)

Definition set_isOnline (b : bool) (s : OfflineState) : OfflineState :=
  {| isOnline := b;
     pendingReports := pendingReports s;
     syncInProgress := syncInProgress s |}.
Definition set_pendingReports (l : list OfflineReport) (s : OfflineState)
  : OfflineState :=
  {| isOnline := isOnline s;
     pendingReports := l;
     syncInProgress := syncInProgress s |}.
Definition set_syncInProgress (b : bool) (s : OfflineState) : OfflineState :=
  {| isOnline := isOnline s;
     pendingReports := pendingReports s;
     syncInProgress := b |}.

(** [setOnlineStatus] *)
Definition setOnlineStatus (status : bool) : prog unit :=
  (do perform_op (SetState (set_isOnline status));
   if status then perform_op (SetTimeout TaskSyncPendingReports 1000)
   else Ret tt)%prog.

(** [`offline_${Date.now()}_${Math.random().toString(36).substr(2, 9)}`] *)
Definition offline_id (now : Z) (suffix : string) : string :=
  "offline_" +:+ pretty now +:+ "_" +:+ suffix.

(** [addPendingReport] *)
Definition addPendingReport (reportData : ReportData) : prog unit :=
  (now <- perform_op DateNow;
   suffix <- perform_op MathRandom36;
   created <- perform_op DateNow;
   let report := new_report reportData (offline_id now suffix) created in
   do localforage_setItem (id report) report;
   do perform_op (SetState (fun state =>
        set_pendingReports (pendingReports state ++ [report]) state));
   state <- perform_op GetState;
   if isOnline state then perform_op (SetTimeout TaskSyncPendingReports 500)
   else Ret tt)%prog.

(** [loadPendingReports] *)
Definition loadPendingReports : prog unit :=
  try_catch
    (reports <- localforage_iterate
       (fun value _ reports =>
          if negb (synced value) then reports ++ [value] else reports) [];
     perform_op (SetState
       (set_pendingReports (array_sort newest_first_cmp reports))))%prog
    (fun error => perform_op
       (ConsoleError "Error loading pending reports:" error)).

(** One turn of the inner [for (const file of report.media_files)]. *)
Definition upload_file (file : File) (mediaUrls : list string)
  : prog (list string) :=
  (now <- perform_op DateNow;
   let fileName := pretty now +:+ "_" +:+ file_name file in
   r <- perform_op (GatewayUpload fileName file);
   match r with
   | Rejected err => Throw (UploadError err)
   | WithError err => Throw (UploadError err)
   | Fulfilled _ =>
       publicUrl <- perform_op (GatewayPublicUrl fileName);
       Ret (mediaUrls ++ [publicUrl])
   end)%prog.

(** The body of the inner [try] of [syncPendingReports]. *)
Definition sync_attempt (report : OfflineReport) : prog unit :=
  (mediaUrls <-
     match media_files report with
     | Some files =>
         if (0 <? length files)%nat then for_of files [] upload_file
         else Ret []
     | None => Ret []
     end;
   user <- perform_op GatewayGetUser;
   user_id <-
     match user with
     | Rejected err => Throw (AuthError err)
     | WithError _ => Ret None
     | Fulfilled u => Ret u
     end;
   r <- perform_op (GatewayInsert (insert_row report mediaUrls user_id));
   do match r with
      | Rejected err => Throw (InsertError err)
      | WithError err => Throw (InsertError err)
      | Fulfilled _ => Ret tt
      end;
   let syncedReport := with_synced true report in
   localforage_setItem (id report) syncedReport)%prog.

(** One turn of [for (const report of pendingReports)]. *)
Definition sync_report (report : OfflineReport) : prog unit :=
  if synced report then Ret tt
  else
    try_catch (sync_attempt report)
      (fun error => perform_op
         (ConsoleError ("Failed to sync report " +:+ id report +:+ ":") error)).

(** [await get().loadPendingReports()] from another action. *)
Definition await_loadPendingReports : prog unit :=
  (do loadPendingReports; perform_op AwaitTick)%prog.

(** [syncPendingReports] *)
Definition syncPendingReports : prog unit :=
  (state <- perform_op GetState;
   if negb (isOnline state) || syncInProgress state
      || (length (pendingReports state) =? 0)%nat
   then Ret tt
   else
     do perform_op (SetState (set_syncInProgress true));
     try_finally
       (try_catch
          (do for_of (pendingReports state) tt (fun report _ => sync_report report);
           await_loadPendingReports)
          (fun error => perform_op (ConsoleError "Error during sync:" error)))
       (perform_op (SetState (set_syncInProgress false))))%prog.

(** [clearSyncedReports] *)
Definition clearSyncedReports : prog unit :=
  try_catch
    (keysToRemove <- localforage_iterate
       (fun value key keysToRemove =>
          if synced value then keysToRemove ++ [key] else keysToRemove) [];
     do for_of keysToRemove tt (fun key _ => localforage_removeItem key);
     await_loadPendingReports)%prog
    (fun error => perform_op
       (ConsoleError "Error clearing synced reports:" error)).

(** A call of one of the store's actions, by the UI, by a window
    [online]/[offline] listener or by a timer. *)
Inductive call :=
| CallSetOnlineStatus (status : bool)
| CallAddPendingReport (reportData : ReportData)
| CallLoadPendingReports
| CallSyncPendingReports
| CallClearSyncedReports.

Definition is_sync_call (c : call) : bool :=
  match c with CallSyncPendingReports => true | _ => false end.

Definition action (c : call) : prog unit :=
  match c with
  | CallSetOnlineStatus status => setOnlineStatus status
  | CallAddPendingReport reportData => addPendingReport reportData
  | CallLoadPendingReports => loadPendingReports
  | CallSyncPendingReports => syncPendingReports
  | CallClearSyncedReports => clearSyncedReports
  end.

(** ** The platform *)

(** Everything the store cannot decide by itself, as a deterministic
    machine over a state [E] of the outside world: the clock, the random
    source, whether a localforage call fails, and the answers of the
    Supabase client.  [math_random36] stands for
    [Math.random().toString(36).substr(2, 9)]; [public_url] is the
    synchronous [getPublicUrl], which only formats its argument. *)
Record Platform (E : Type) := {
  date_now : E -> E * Z;
  math_random36 : E -> E * string;
  lf_fault : E -> lf_call -> E * bool;
  sb_upload : E -> string -> File -> E * response unit;
  public_url : string -> string;
  sb_getUser : E -> E * response (option string);
  sb_insert : E -> ReportRow -> E * response unit }.
Arguments date_now {E} _ _.
Arguments math_random36 {E} _ _.
Arguments lf_fault {E} _ _ _.
Arguments sb_upload {E} _ _ _ _.
Arguments public_url {E} _ _.
Arguments sb_getUser {E} _ _.
Arguments sb_insert {E} _ _ _.

(** The whole world an action runs in: the zustand state, the localforage
    database (keyed by report id), the timers armed by [setTimeout], the
    log of interactions so far and the state of the platform. *)
Record World (E : Type) := {
  store : OfflineState;
  db : gmap string OfflineReport;
  timers : list (Z * task);
  trace : list event;
  ext : E }.
Arguments store {E} _.
Arguments db {E} _.
Arguments timers {E} _.
Arguments trace {E} _.
Arguments ext {E} _.
Arguments Build_World {E} _ _ _ _ _.

(** Result of running an action to completion. *)
Inductive outcome (A : Type) :=
| Returned (a : A)
| Thrown (e : error).
Arguments Returned {A} a.
Arguments Thrown {A} e.

Section Model.
Context {E : Type} (P : Platform E).

Definition set_store (s : OfflineState) (w : World E) : World E :=
  Build_World s (db w) (timers w) (trace w) (ext w).
Definition set_db (m : gmap string OfflineReport) (w : World E) : World E :=
  Build_World (store w) m (timers w) (trace w) (ext w).
Definition set_timers (t : list (Z * task)) (w : World E) : World E :=
  Build_World (store w) (db w) t (trace w) (ext w).
Definition set_ext (e : E) (w : World E) : World E :=
  Build_World (store w) (db w) (timers w) (trace w) e.
Definition log (ev : event) (w : World E) : World E :=
  Build_World (store w) (db w) (timers w) (trace w ++ [ev]) (ext w).

(** A localforage call first learns from the platform whether it
    fails; a failed call changes nothing in the database. *)
Definition storage_call (c : lf_call) (w : World E) : World E * bool :=
  let '(e, failed) := lf_fault P (ext w) c in
  (log (EvStorage c (negb failed)) (set_ext e w), failed).

(** What one effect does to the world, and what it answers. *)
Definition perform {X} (o : op X) (w : World E) : World E * X :=
  match o in op X return World E * X with
  | GetState => (w, store w)
  | SetState f => (set_store (f (store w)) w, tt)
  | DateNow =>
      let '(e, t) := date_now P (ext w) in (set_ext e w, t)
  | MathRandom36 =>
      let '(e, s) := math_random36 P (ext w) in (set_ext e w, s)
  | SetTimeout t ms => (set_timers (timers w ++ [(ms, t)]) w, tt)
  | ConsoleError msg e => (log (EvConsoleError msg e) w, tt)
  | AwaitTick => (w, tt)
  | StorageSetItem key value =>
      let '(w1, failed) := storage_call (LfSetItem key) w in
      if failed then (w1, Some (StorageError (LfSetItem key)))
      else (set_db (<[key := value]> (db w1)) w1, None)
  | StorageIterate =>
      let '(w1, failed) := storage_call LfIterate w in
      if failed then (w1, inl (StorageError LfIterate))
      else (w1, inr (map_to_list (db w1)))
  | StorageRemoveItem key =>
      let '(w1, failed) := storage_call (LfRemoveItem key) w in
      if failed then (w1, Some (StorageError (LfRemoveItem key)))
      else (set_db (delete key (db w1)) w1, None)
  | GatewayUpload fileName file =>
      let '(e, r) := sb_upload P (ext w) fileName file in
      (log (EvUpload fileName file (fulfilled r)) (set_ext e w), r)
  | GatewayPublicUrl fileName => (w, public_url P fileName)
  | GatewayGetUser =>
      let '(e, r) := sb_getUser P (ext w) in
      (log EvGetUser (set_ext e w), r)
  | GatewayInsert row =>
      let '(e, r) := sb_insert P (ext w) row in
      (log (EvInsert row (fulfilled r)) (set_ext e w), r)
  end.

(** Run an action to completion, with nothing else happening meanwhile. *)
Fixpoint run {A} (p : prog A) (w : World E) : World E * outcome A :=
  match p with
  | Ret a => (w, Returned a)
  | Throw e => (w, Thrown e)
  | Op o k => let '(w1, x) := perform o w in run (k x) w1
  end.

(** Run the synchronous stretch of an action: up to its next [await],
    or to its end. *)
Fixpoint sync_run {A} (p : prog A) (w : World E) : World E * prog A :=
  match p with
  | Op o k =>
      if awaited o then (w, p)
      else let '(w1, x) := perform o w in sync_run (k x) w1
  | _ => (w, p)
  end.

(** Resume a suspended action: the awaited effect happens, then the
    action runs on to its next [await]. *)
Definition resume {A} (p : prog A) (w : World E) : World E * prog A :=
  match p with
  | Op o k => let '(w1, x) := perform o w in sync_run (k x) w1
  | _ => (w, p)
  end.

End Model.

(** ** Interleaved execution *)

(** The running system: the world and the actions suspended at an
    [await]. *)
Record System (E : Type) := {
  world : World E;
  inflight : list (call * prog unit) }.
Arguments world {E} _.
Arguments inflight {E} _.
Arguments Build_System {E} _ _.

Section Interleaving.
Context {E : Type} (P : Platform E).

(** An action that reached an [await] waits in [inflight]; one that
    returned or threw is gone. *)
Definition park (c : call) (p : prog unit) (l : list (call * prog unit))
  : list (call * prog unit) :=
  if finished p then l else l ++ [(c, p)].

(** Calling an action runs it synchronously up to its first [await]. *)
Definition invoke (c : call) (sys : System E) : System E :=
  let '(w, p) := sync_run P (action c) (world sys) in
  Build_System w (park c p (inflight sys)).

(** The [i]-th armed timer fires. *)
Definition fire (i : nat) (sys : System E) : option (System E) :=
  match timers (world sys) !! i with
  | Some (_, TaskSyncPendingReports) =>
      Some (invoke CallSyncPendingReports
              (Build_System (set_timers (delete i (timers (world sys))) (world sys))
                            (inflight sys)))
  | None => None
  end.

(** The [i]-th suspended action gets its answer and runs on. *)
Definition resume_at (i : nat) (sys : System E) : option (System E) :=
  match inflight sys !! i with
  | Some (c, p) =>
      let '(w, p') := resume P p (world sys) in
      Some (Build_System w (park c p' (delete i (inflight sys))))
  | None => None
  end.

Inductive sys_step : System E -> System E -> Prop :=
| step_invoke c sys : sys_step sys (invoke c sys)
| step_fire i sys sys' : fire i sys = Some sys' -> sys_step sys sys'
| step_resume i sys sys' : resume_at i sys = Some sys' -> sys_step sys sys'.

End Interleaving.

(** Number of [syncPendingReports] bodies in flight.  A call stopped by
    the guard returns before any [await] and is never in flight. *)
Definition count_drains (l : list (call * prog unit)) : nat :=
  length (filter (fun cp : call * prog unit => is_sync_call cp.1 = true) l).

Definition draining {E} (sys : System E) : nat :=
  count_drains (inflight sys).

(** The store as [create] builds it: [isOnline: navigator.onLine],
    [pendingReports: []], [syncInProgress: false], over whatever the
    database holds from earlier sessions. *)
Definition initial_world {E} (online : bool)
    (stored : gmap string OfflineReport) (e : E) : World E :=
  Build_World
    {| isOnline := online; pendingReports := []; syncInProgress := false |}
    stored [] [] e.

(** A process restart: the zustand state is built anew and the armed
    timers are gone; the database is what the old process left. *)
Definition restart {E} (online : bool) (w : World E) : World E :=
  initial_world online (db w) (ext w).

Definition initial_system {E} (online : bool)
    (stored : gmap string OfflineReport) (e : E) : System E :=
  Build_System (initial_world online stored e) [].

(** ** A concrete platform and concrete reports

    A small platform to run the store on: the clock advances by one
    millisecond per reading, the random suffix is fixed, localforage
    fails exactly when [storage_down], the file named [corrupt.jpg] is
    refused by the upload, and a report whose description is [rejected]
    is refused by the insert. *)
Definition demo_platform (storage_down : bool) : Platform Z :=
  {| date_now := fun t => (t + 1, t);
     math_random36 := fun t => (t, "k3j9x2m1q");
     lf_fault := fun t _ => (t, storage_down);
     sb_upload := fun t _ file =>
       (t, if String.eqb (file_name file) "corrupt.jpg"
           then WithError "upload refused" else Fulfilled tt);
     public_url := fun fileName => "https://cdn.example/reports-media/" +:+ fileName;
     sb_getUser := fun t => (t, Fulfilled (Some "user-1"));
     sb_insert := fun t row =>
       (t, if String.eqb (row_description row) "rejected"
           then WithError "insert refused" else Fulfilled tt) |}.

Definition demo_data (text : string) (files : option (list File)) : ReportData :=
  {| d_latitude := 13.5%float;
     d_longitude := 80.25%float;
     d_description := text;
     d_severity := "high";
     d_hazard_type := "High Waves";
     d_location_description := "Marina Beach";
     d_reporter_name := "Asha";
     d_reporter_contact := None;
     d_urgency_level := "medium";
     d_media_files := files |}.

Definition photo (name : string) : File :=
  {| file_name := name; file_bytes := "..." |}.

Definition demo_report (rid text : string) (files : option (list File))
    (created : Z) (is_synced : bool) : OfflineReport :=
  with_synced is_synced (new_report (demo_data text files) rid created).

(** A database holding the given records under their ids. *)
Definition db_of (l : list OfflineReport) : gmap string OfflineReport :=
  list_to_map (map (fun r => (id r, r)) l).

(** A world with the given projection and database, nothing logged yet. *)
Definition demo_world (online busy : bool) (projection stored : list OfflineReport)
    (clock : Z) : World Z :=
  Build_World
    {| isOnline := online; pendingReports := projection; syncInProgress := busy |}
    (db_of stored) [] [] clock.

(** ** Specification vocabulary *)

(** [a] may stand before [b] in an array sorted with [compareFn]. *)
Definition before {A} (compareFn : A -> A -> Z) (a b : A) : Prop :=
  compareFn a b <= 0.

(** Newest first: every record is at least as recent as all that follow. *)
Definition newest_first (l : list OfflineReport) : Prop :=
  StronglySorted (fun a b => created_at b <= created_at a) l.

(** The unsynced values among the entries of a database, in the order
    [iterate] visits them. *)
Definition pending_values (m : gmap string OfflineReport) : list OfflineReport :=
  filter (fun r => synced r = false) (map_to_list m).*2.

(** The keys of the synced values, in the order [iterate] visits them. *)
Definition synced_keys (m : gmap string OfflineReport) : list string :=
  (filter (fun kv : string * OfflineReport => synced kv.2 = true) (map_to_list m)).*1.

(** Every failed localforage call in [evs] is followed at once by the
    [console.error] that reports it. *)
Fixpoint failures_logged (evs : list event) : Prop :=
  match evs with
  | [] => True
  | EvStorage c false :: rest =>
      (exists msg rest', rest = EvConsoleError msg (StorageError c) :: rest')
      /\ failures_logged rest
  | _ :: rest => failures_logged rest
  end.

(** The records of a database that are still to be synchronised. *)
Definition stored_pending (m : gmap string OfflineReport) (r : OfflineReport)
  : Prop :=
  exists key, m !! key = Some r /\ synced r = false.

(** The files the drain uploads for a report:
    [report.media_files] when it is there and not empty. *)
Definition attachments (report : OfflineReport) : list File :=
  default [] (media_files report).

(** Successful uploads of [files] under the names [names], in order. *)
Definition uploaded (names : list string) (files : list File) : list event :=
  zip_with (fun fileName file => EvUpload fileName file true) names files.

(** The database after the drain marked the records [marked], in order. *)
Definition mark_synced_all (marked : list OfflineReport)
    (m : gmap string OfflineReport) : gmap string OfflineReport :=
  foldl (fun m report => <[id report := with_synced true report]> m) m marked.

(** The effect [o] leaves the in-progress flag as it is. *)
Definition keeps_flag {X} (o : op X) : Prop :=
  match o with
  | SetState f => forall s, syncInProgress (f s) = syncInProgress s
  | _ => True
  end.

(** A program that never writes the in-progress flag. *)
Inductive quiet {A} : prog A -> Prop :=
| quiet_ret a : quiet (Ret a)
| quiet_throw e : quiet (Throw e)
| quiet_op {X} (o : op X) k :
    keeps_flag o -> (forall x, quiet (k x)) -> quiet (Op o k).

(** A drain past its guard: it leaves the in-progress flag alone until
    its last effect, which takes the flag down. *)
Inductive closing {A} : prog A -> Prop :=
| closing_last k :
    (forall x, finished (k x) = true) ->
    closing (Op (SetState (set_syncInProgress false)) k)
| closing_op {X} (o : op X) k :
    keeps_flag o -> (forall x, closing (k x)) -> closing (Op o k).

(** What holds of the running system at every moment: the suspended
    actions other than drains never write the in-progress flag, the
    suspended drains will take it down at their end, and the flag is up
    exactly when one drain is in flight. *)
Definition sys_inv {E} (sys : System E) : Prop :=
  (forall c p, (c, p) ∈ inflight sys ->
     if is_sync_call c then closing p else quiet p) /\
  draining sys
  = if syncInProgress (store (world sys)) then 1%nat else 0%nat.

(** Two records agree on every field but [synced]. *)
Definition same_fields (a b : OfflineReport) : Prop :=
  with_synced false a = with_synced false b.

(** The state the store keeps itself in: records are stored under their
    own id, and the projection neither contradicts itself nor the
    database on any field other than [synced]. *)
Record consistent {E} (w : World E) : Prop := {
  keys_are_ids :
    forall key r, db w !! key = Some r -> id r = key;
  projection_pairwise :
    forall x y, x ∈ pendingReports (store w) -> y ∈ pendingReports (store w) ->
                id x = id y -> same_fields x y;
  projection_stored :
    forall x s, x ∈ pendingReports (store w) -> db w !! id x = Some s ->
                same_fields s x }.

(** [key] is used neither in the database nor in the projection. *)
Definition fresh_id {E} (w : World E) (key : string) : Prop :=
  db w !! key = None /\
  forall x, x ∈ pendingReports (store w) -> id x <> key.

(** The stored record [r] is still stored under [key] in [m'], with every
    field but [synced] as it was and its flag not lowered. *)
Definition record_kept (m' : gmap string OfflineReport) (key : string)
    (r : OfflineReport) : Prop :=
  exists r', m' !! key = Some r' /\ same_fields r' r /\
             (synced r = true -> synced r' = true).

Definition is_gateway_event (ev : event) : bool :=
  match ev with
  | EvUpload _ _ _ | EvGetUser | EvInsert _ _ => true
  | _ => false
  end.

Definition is_insert_event (ev : event) : bool :=
  match ev with EvInsert _ _ => true | _ => false end.

Definition is_remove_event (ev : event) : bool :=
  match ev with EvStorage (LfRemoveItem _) _ => true | _ => false end.

Section Logic.
Context {E : Type} (P : Platform E).

(** [wp p Q w]: running [p] to completion from [w] ends in a world and
    an outcome that satisfy [Q]. *)
Definition wp {A} (p : prog A) (Q : World E -> outcome A -> Prop)
    (w : World E) : Prop :=
  Q (run P p w).1 (run P p w).2.

(** The record [addPendingReport reportData] builds when called in [w]:
    its id comes from the first clock reading and the random suffix, its
    [created_at] from the second clock reading. *)
Definition enqueued_report (reportData : ReportData) (w : World E)
  : OfflineReport :=
  let '(e1, now) := date_now P (ext w) in
  let '(e2, suffix) := math_random36 P e1 in
  let '(_, created) := date_now P e2 in
  new_report reportData (offline_id now suffix) created.

(** Whether the [setItem] of that enqueue fails. *)
Definition enqueue_write_fails (reportData : ReportData) (w : World E) : bool :=
  let '(e1, now) := date_now P (ext w) in
  let '(e2, suffix) := math_random36 P e1 in
  let '(e3, _) := date_now P e2 in
  (lf_fault P e3 (LfSetItem (offline_id now suffix))).2.

(** localforage answers every call. *)
Definition reliable_storage : Prop :=
  forall e c, (lf_fault P e c).2 = false.

(** The gateway, judged by what it answers in every state it can be in. *)
Definition upload_accepts (file : File) : Prop :=
  forall e fileName, fulfilled (sb_upload P e fileName file).2 = true.
Definition upload_refuses (file : File) : Prop :=
  forall e fileName, fulfilled (sb_upload P e fileName file).2 = false.
Definition insert_accepts (report : OfflineReport) : Prop :=
  forall e mediaUrls user_id,
    fulfilled (sb_insert P e (insert_row report mediaUrls user_id)).2 = true.
Definition insert_refuses (report : OfflineReport) : Prop :=
  forall e mediaUrls user_id,
    fulfilled (sb_insert P e (insert_row report mediaUrls user_id)).2 = false.
Definition auth_answers : Prop :=
  forall e err, (sb_getUser P e).2 <> Rejected err.

(** The gateway takes everything of [report]: each attachment and the row. *)
Definition gateway_accepts (report : OfflineReport) : Prop :=
  (forall file, file ∈ attachments report -> upload_accepts file) /\
  insert_accepts report.

(** The gateway fails for [report]: on one of its attachments or on its row. *)
Definition gateway_refuses (report : OfflineReport) : Prop :=
  (exists file, file ∈ attachments report /\ upload_refuses file) \/
  insert_refuses report.

(** How one turn of the drain loop over an unsynced [report] can go, told
    by the events it adds and by the database [m'] it leaves from [m]. *)
Inductive attempt (report : OfflineReport) (m m' : gmap string OfflineReport)
  : list event -> Prop :=
| attempt_synced names user_id :
    length names = length (attachments report) ->
    (forall file, file ∈ attachments report ->
       exists e fileName, fulfilled (sb_upload P e fileName file).2 = true) ->
    (exists e, fulfilled (sb_insert P e
       (insert_row report (map (public_url P) names) user_id)).2 = true) ->
    m' = <[id report := with_synced true report]> m ->
    attempt report m m'
      (uploaded names (attachments report) ++
       [EvGetUser;
        EvInsert (insert_row report (map (public_url P) names) user_id) true;
        EvStorage (LfSetItem (id report)) true])
| attempt_store_failed names user_id msg :
    length names = length (attachments report) ->
    (forall file, file ∈ attachments report ->
       exists e fileName, fulfilled (sb_upload P e fileName file).2 = true) ->
    ~ reliable_storage ->
    m' = m ->
    attempt report m m'
      (uploaded names (attachments report) ++
       [EvGetUser;
        EvInsert (insert_row report (map (public_url P) names) user_id) true;
        EvStorage (LfSetItem (id report)) false;
        EvConsoleError msg (StorageError (LfSetItem (id report)))])
| attempt_insert_failed names user_id msg err :
    length names = length (attachments report) ->
    (forall file, file ∈ attachments report ->
       exists e fileName, fulfilled (sb_upload P e fileName file).2 = true) ->
    (exists e, fulfilled (sb_insert P e
       (insert_row report (map (public_url P) names) user_id)).2 = false) ->
    m' = m ->
    attempt report m m'
      (uploaded names (attachments report) ++
       [EvGetUser;
        EvInsert (insert_row report (map (public_url P) names) user_id) false;
        EvConsoleError msg (InsertError err)])
| attempt_auth_failed names msg err :
    length names = length (attachments report) ->
    (forall file, file ∈ attachments report ->
       exists e fileName, fulfilled (sb_upload P e fileName file).2 = true) ->
    (exists e, (sb_getUser P e).2 = Rejected err) ->
    m' = m ->
    attempt report m m'
      (uploaded names (attachments report) ++
       [EvGetUser; EvConsoleError msg (AuthError err)])
| attempt_upload_failed names sent file rest fileName msg err :
    attachments report = sent ++ file :: rest ->
    length names = length sent ->
    (exists e, fulfilled (sb_upload P e fileName file).2 = false) ->
    m' = m ->
    attempt report m m'
      (uploaded names sent ++
       [EvUpload fileName file false; EvConsoleError msg (UploadError err)]).

(** The action [p], called in [w], rejects with a storage error. *)
Definition propagates_storage_failure (p : prog unit) (w : World E) : Prop :=
  exists c, (run P p w).2 = Thrown (StorageError c).

(** What a [loadPendingReports] from [w] can leave behind: only the
    projection changes, and only when the iteration succeeded. *)
Definition loaded (w w' : World E) : Prop :=
  db w' = db w /\ timers w' = timers w /\
  isOnline (store w') = isOnline (store w) /\
  syncInProgress (store w') = syncInProgress (store w) /\
  ((lf_fault P (ext w) LfIterate).2 = false /\
   pendingReports (store w')
   = array_sort newest_first_cmp (pending_values (db w)) /\
   trace w' = trace w ++ [EvStorage LfIterate true]
   \/
   (lf_fault P (ext w) LfIterate).2 = true /\ store w' = store w /\
   trace w' = trace w ++
     [EvStorage LfIterate false;
      EvConsoleError "Error loading pending reports:" (StorageError LfIterate)]).

End Logic.

(** * The rest of the store's surroundings *)

(** ** Effects a program is confined to *)

(** Every effect of the program satisfies [K]. *)
Inductive always (K : forall X, op X -> Prop) {A} : prog A -> Prop :=
| always_ret a : always K (Ret a)
| always_throw e : always K (Throw e)
| always_op {X} (o : op X) k :
    K X o -> (forall x, always K (k x)) -> always K (Op o k).

(** The effect does not read the database. *)
Definition storage_blind (X : Type) (o : op X) : Prop :=
  match o with StorageIterate => False | _ => True end.

(** The effect leaves a projection of unsynced records one. *)
Definition keeps_unsynced (X : Type) (o : op X) : Prop :=
  match o with
  | SetState f =>
      forall s, Forall (fun r => synced r = false) (pendingReports s) ->
                Forall (fun r => synced r = false) (pendingReports (f s))
  | _ => True
  end.

(** Two worlds that differ at most in their database. *)
Definition same_but_db {E} (w1 w2 : World E) : Prop :=
  store w1 = store w2 /\ timers w1 = timers w2 /\
  trace w1 = trace w2 /\ ext w1 = ext w2.

(** ** What the pages show and do *)

(** What a component does besides calling the store: a [toast] with its
    title, description and variant, or a [navigate]. *)
Inductive ui_event :=
| Toast (title description : string) (variant : option string)
| Navigate (path : string).

(** [!s] for a string: only the empty string is falsy. *)
Definition string_falsy (s : string) : bool :=
  match s with EmptyString => true | _ => false end.

(** [!x] for a number: [0], [-0] and [NaN] are falsy. *)
Definition number_falsy (x : float) : bool :=
  PrimFloat.is_zero x || PrimFloat.is_nan x.

(** *** [QueuePage] *)

(** [disabled={!isOnline || syncInProgress || pendingReports.length === 0}]
    of the "Sync All Reports" button. *)
Definition sync_button_disabled (s : OfflineState) : bool :=
  negb (isOnline s) || syncInProgress s
  || (length (pendingReports s) =? 0)%nat.

(** [disabled={pendingReports.filter(r => r.synced).length === 0}] of the
    "Clean Queue" button. *)
Definition clean_button_disabled (s : OfflineState) : bool :=
  (length (filter (fun r => synced r = true) (pendingReports s)) =? 0)%nat.

(** The three counters of the page: "Total Queued", "Pending Sync" and
    "Synced". *)
Definition total_queued (s : OfflineState) : nat :=
  length (pendingReports s).
Definition pending_sync (s : OfflineState) : nat :=
  length (filter (fun r => negb (synced r) = true) (pendingReports s)).
Definition synced_shown (s : OfflineState) : nat :=
  length (filter (fun r => synced r = true) (pendingReports s)).

(** The double nearest to the integer [n], for [|n| < 2^54]: up to
    [2^53] every integer is a double; above, the doubles are the even
    integers, and an odd [n] lies halfway between two of them and goes
    to the one with the even mantissa, the multiple of 4. *)
Definition round_double (n : Z) : Z :=
  if Z.abs n <=? 2 ^ 53 then n
  else if Z.even n then n
  else if (n + 1) mod 4 =? 0 then n + 1 else n - 1.

(** [formatTimeAgo].  [now] is the time value of [new Date()] and
    [created] that of [new Date(dateString)]: an integer of at most
    8.64e15 in absolute value, or [None] for the [NaN] of an invalid
    date.  The subtraction is the one of the doubles.  [Math.floor] of
    each quotient is the integer quotient: a quotient that is not an
    integer stays further from the next integer than the rounding of
    the division reaches (it could reach it only for a remainder of
    59999 beyond 1.6e16, where the dividend, a double, is even).  With
    [NaN] every comparison is false and the last template prints it. *)
Definition formatTimeAgo (now : Z) (created : option Z) : string :=
  match created with
  | None => "NaNd ago"
  | Some created =>
      let diffMs := round_double (now - created) in
      let diffMins := diffMs / 60000 in
      let diffHours := diffMins / 60 in
      let diffDays := diffHours / 24 in
      if diffMins <? 1 then "Just now"
      else if diffMins <? 60 then pretty diffMins +:+ "m ago"
      else if diffHours <? 24 then pretty diffHours +:+ "h ago"
      else pretty diffDays +:+ "d ago"
  end.

(** *** [ReportForm] *)

(** The [formData] state of the form. *)
Record FormData := {
  form_hazard_type : string;
  form_severity : string;
  form_urgency_level : string;
  form_description : string;
  form_location_description : string;
  form_reporter_name : string;
  form_reporter_contact : string }.

(** [interface LocationState] *)
Record LocationState := {
  loc_latitude : option float;
  loc_longitude : option float;
  loc_address : string;
  loc_accuracy : option float;
  loc_loading : bool;
  loc_error : option string }.

(** What the components read of a Supabase [User]: [user.id],
    [user.user_metadata?.full_name] and [user.email]. *)
Record AuthUser := {
  user_id : string;
  user_full_name : option string;
  user_email : option string }.

(** The state hooks of [ReportForm]. *)
Record ReportFormState := {
  formData : FormData;
  location : LocationState;
  mediaFiles : list File;
  submitting : bool }.

(** The argument [handleSubmit] hands to [addPendingReport]. *)
Definition submitted_data (st : ReportFormState) (lat lon : float)
  : ReportData :=
  {| d_latitude := lat;
     d_longitude := lon;
     d_description := form_description (formData st);
     d_severity := form_severity (formData st);
     d_hazard_type := form_hazard_type (formData st);
     d_location_description := form_location_description (formData st);
     d_reporter_name := form_reporter_name (formData st);
     d_reporter_contact := Some (form_reporter_contact (formData st));
     d_urgency_level := form_urgency_level (formData st);
     d_media_files := Some (mediaFiles st) |}.

(** The form after a successful submission. *)
Definition reset_form (user : option AuthUser) : FormData :=
  {| form_hazard_type := "";
     form_severity := "";
     form_urgency_level := "medium";
     form_description := "";
     form_location_description := "";
     form_reporter_name := default "" (user ≫= user_full_name);
     form_reporter_contact := default "" (user ≫= user_email) |}.

Definition validation_toast : ui_event :=
  Toast "Validation Error" "Please fill in all required fields."
    (Some "destructive").

Definition location_toast : ui_event :=
  Toast "Location Required"
    "Please get your current location before submitting."
    (Some "destructive").

Definition submitted_toast (isOnline_rendered : bool) : ui_event :=
  Toast "Report Submitted"
    (if isOnline_rendered
     then "Your report has been submitted and will be reviewed."
     else "Your report has been saved offline and will sync when connection is restored.")
    None.

Definition submission_error_toast : ui_event :=
  Toast "Submission Error" "Failed to submit report. Please try again."
    (Some "destructive").

(** [removeFile]: [prev.filter((_, i) => i !== index)]. *)
Definition removeFile (index : Z) (prev : list File) : list File :=
  (filter (fun ix : nat * File => Z.of_nat ix.1 <> index)
     (zip (seq 0 (length prev)) prev)).*2.

Section MediaPicker.
(** [file.type] and [file.size] of a browser [File]. *)
Variable file_type : File -> string.
Variable file_size : File -> Z.

(** The test of [handleFileChange]: an image or a video of at most 10 MB. *)
Definition file_accepted (file : File) : bool :=
  (String.prefix "image/" (file_type file)
   || String.prefix "video/" (file_type file))
  && (file_size file <=? 10 * 1024 * 1024).

(** [handleFileChange]: the new [mediaFiles] and the toasts shown, from
    the picked [files] and the files [prev] already attached. *)
Definition handleFileChange (files prev : list File)
  : list File * list ui_event :=
  let validFiles := filter (fun file => file_accepted file = true) files in
  (take 5 (prev ++ validFiles),
   if (length validFiles =? length files)%nat then []
   else [Toast "File Upload Warning"
           "Some files were skipped. Only images and videos under 10MB are allowed."
           (Some "destructive")]).

End MediaPicker.

Section Pages.
Context {E : Type} (P : Platform E).

(** [handleSubmit] of [ReportForm], run to its end: the form state, the
    world and what the user is shown.  [isOnline_rendered] is the
    [isOnline] the component was rendered with. *)
Definition ReportForm_handleSubmit (user : option AuthUser)
    (isOnline_rendered : bool) (st : ReportFormState) (w : World E)
  : ReportFormState * World E * list ui_event :=
  if string_falsy (form_hazard_type (formData st))
     || string_falsy (form_severity (formData st))
     || string_falsy (form_description (formData st))
  then (st, w, [validation_toast])
  else
    match loc_latitude (location st), loc_longitude (location st) with
    | Some lat, Some lon =>
        if number_falsy lat || number_falsy lon
        then (st, w, [location_toast])
        else
          let '(w1, out) := run P (addPendingReport (submitted_data st lat lon)) w in
          match out with
          | Returned _ =>
              ({| formData := reset_form user;
                  location := location st;
                  mediaFiles := [];
                  submitting := false |},
               w1,
               [submitted_toast isOnline_rendered; Navigate "/"])
          | Thrown error =>
              ({| formData := formData st;
                  location := location st;
                  mediaFiles := mediaFiles st;
                  submitting := false |},
               log (EvConsoleError "Error submitting report:" error) w1,
               [submission_error_toast])
          end
    | _, _ => (st, w, [location_toast])
    end.

(** [handleSync] of [QueuePage]. *)
Definition QueuePage_handleSync (isOnline_rendered : bool) (w : World E)
  : World E * list ui_event :=
  if negb isOnline_rendered
  then (w, [Toast "No Connection"
              "Cannot sync while offline. Please check your internet connection."
              (Some "destructive")])
  else
    let '(w1, out) := run P syncPendingReports w in
    match out with
    | Returned _ =>
        (w1, [Toast "Sync Complete"
                "All pending reports have been synchronized." None])
    | Thrown _ => (w1, [])
    end.

(** [handleClearSynced] of [QueuePage]. *)
Definition QueuePage_handleClearSynced (w : World E)
  : World E * list ui_event :=
  let '(w1, out) := run P clearSyncedReports w in
  match out with
  | Returned _ =>
      (w1, [Toast "Queue Cleaned"
              "Successfully synced reports have been removed from the queue."
              None])
  | Thrown _ => (w1, [])
  end.

End Pages.

(** ** The auth store, [src/stores/authStore.ts] *)

(** What is read of a Supabase [Session]: its user. *)
Record Session := {
  session_user : AuthUser;
  access_token : string }.

(** The data fields of [interface AuthState]. *)
Record AuthState := {
  auth_user : option AuthUser;
  auth_session : option Session;
  auth_loading : bool;
  auth_initialized : bool }.

(** The auth store with what [initialize] has set going: the listeners
    registered with [onAuthStateChange] and the [getSession] promises not
    yet resolved. *)
Record AuthSystem := {
  auth : AuthState;
  subscriptions : nat;
  pending_sessions : nat }.

(** The store as [create] builds it. *)
Definition auth_initial : AuthSystem :=
  {| auth := {| auth_user := None; auth_session := None;
                auth_loading := true; auth_initialized := false |};
     subscriptions := 0;
     pending_sessions := 0 |}.

(** The [set] of the [onAuthStateChange] listener. *)
Definition on_auth_state_change (session : option Session) (s : AuthState)
  : AuthState :=
  {| auth_user := session_user <$> session;
     auth_session := session;
     auth_loading := false;
     auth_initialized := auth_initialized s |}.

(** The [set] of [getSession().then(...)]. *)
Definition on_session (session : option Session) (s : AuthState) : AuthState :=
  {| auth_user := session_user <$> session;
     auth_session := session;
     auth_loading := false;
     auth_initialized := true |}.

(** [initialize] *)
Definition initialize (sys : AuthSystem) : AuthSystem :=
  if auth_initialized (auth sys) then sys
  else {| auth := auth sys;
          subscriptions := S (subscriptions sys);
          pending_sessions := S (pending_sessions sys) |}.

(** What can happen to the auth store: a call of [initialize], an auth
    event reaching a registered listener, a [getSession] answer, and the
    cleanup [subscription.unsubscribe()].  [signIn], [signUp] and
    [signOut] never call [set]. *)
Inductive auth_step : AuthSystem -> AuthSystem -> Prop :=
| auth_step_initialize sys : auth_step sys (initialize sys)
| auth_step_event session sys :
    (0 < subscriptions sys)%nat ->
    auth_step sys
      {| auth := on_auth_state_change session (auth sys);
         subscriptions := subscriptions sys;
         pending_sessions := pending_sessions sys |}
| auth_step_session session sys :
    (0 < pending_sessions sys)%nat ->
    auth_step sys
      {| auth := on_session session (auth sys);
         subscriptions := subscriptions sys;
         pending_sessions := pred (pending_sessions sys) |}
| auth_step_unsubscribe sys :
    (0 < subscriptions sys)%nat ->
    auth_step sys
      {| auth := auth sys;
         subscriptions := pred (subscriptions sys);
         pending_sessions := pending_sessions sys |}.

(** ** Vocabulary for what is stored *)

(** Two records agree on every field but [synced]. *)
Definition agree_except_synced (a b : OfflineReport) : Prop :=
  id a = id b /\ latitude a = latitude b /\ longitude a = longitude b /\
  description a = description b /\ severity a = severity b /\
  hazard_type a = hazard_type b /\
  location_description a = location_description b /\
  reporter_name a = reporter_name b /\
  reporter_contact a = reporter_contact b /\
  urgency_level a = urgency_level b /\ media_files a = media_files b /\
  created_at a = created_at b.

(** The effect leaves [isOnline] as it is. *)
Definition keeps_online (X : Type) (o : op X) : Prop :=
  match o with
  | SetState f => forall s, isOnline (f s) = isOnline s
  | _ => True
  end.

(** ** The store as the module wires it to the browser *)

(** The two window events the module listens to. *)
Inductive window_event := EventOnline | EventOffline.

(** [window.addEventListener('online', ...)] and
    [window.addEventListener('offline', ...)]: what each listener calls. *)
Definition window_listener (ev : window_event) : call :=
  match ev with
  | EventOnline => CallSetOnlineStatus true
  | EventOffline => CallSetOnlineStatus false
  end.

(** The event the browser dispatches when [navigator.onLine] becomes [b]. *)
Definition connectivity_event (b : bool) : window_event :=
  if b then EventOnline else EventOffline.

Definition is_status_call (c : call) : bool :=
  match c with CallSetOnlineStatus _ => true | _ => false end.

(** The running module: the browser's [navigator.onLine] and the store
    with its suspended actions. *)
Record Wired (E : Type) := {
  navigator_onLine : bool;
  system : System E }.
Arguments navigator_onLine {E} _.
Arguments system {E} _.
Arguments Build_Wired {E} _ _.

(** The module once loaded: [isOnline: navigator.onLine]. *)
Definition wired_initial {E} (online : bool)
    (stored : gmap string OfflineReport) (e : E) : Wired E :=
  Build_Wired online (initial_system online stored e).

Section Wiring.
Context {E : Type} (P : Platform E).

(** Connectivity changes: [navigator.onLine] flips and the browser
    dispatches the event of the new state to its listener. *)
Definition connectivity_flips (ws : Wired E) : Wired E :=
  let b := negb (navigator_onLine ws) in
  Build_Wired b (invoke P (window_listener (connectivity_event b)) (system ws)).

(** What can happen while the module runs.  [setOnlineStatus] is called
    by the two listeners only; the components call the other four
    actions; timers fire and suspended actions resume. *)
Inductive wired_step : Wired E -> Wired E -> Prop :=
| wired_connectivity ws : wired_step ws (connectivity_flips ws)
| wired_call c ws :
    is_status_call c = false ->
    wired_step ws (Build_Wired (navigator_onLine ws) (invoke P c (system ws)))
| wired_fire i ws sys' :
    fire P i (system ws) = Some sys' ->
    wired_step ws (Build_Wired (navigator_onLine ws) sys')
| wired_resume i ws sys' :
    resume_at P i (system ws) = Some sys' ->
    wired_step ws (Build_Wired (navigator_onLine ws) sys').

End Wiring.

(** A platform on which localforage fails once: at its second
    [iterate].  The clock advances by one millisecond per reading and
    the gateway accepts everything. *)
Definition flaky_platform : Platform (Z * nat) :=
  {| date_now := fun s => ((s.1 + 1, s.2), s.1);
     math_random36 := fun s => (s, "k3j9x2m1q");
     lf_fault := fun s c =>
       match c with
       | LfIterate => ((s.1, S s.2), (s.2 =? 1)%nat)
       | _ => (s, false)
       end;
     sb_upload := fun s _ _ => (s, Fulfilled tt);
     public_url := fun fileName => "https://cdn.example/reports-media/" +:+ fileName;
     sb_getUser := fun s => (s, Fulfilled (Some "user-1"));
     sb_insert := fun s _ => (s, Fulfilled tt) |}.

(** * Properties *)

Section SortFacts.
Context {A : Type} (compareFn : A -> A -> Z).

Lemma sort_insert_perm x l : sort_insert compareFn x l ≡ₚ x :: l.
Proof.
  induction l as [|y l IH]; simpl; [done|].
  destruct (compareFn x y <=? 0); [done|].
  rewrite IH. apply Permutation_swap.
Qed.

Lemma array_sort_perm l : array_sort compareFn l ≡ₚ l.
Proof.
  induction l as [|x l IH]; simpl; [done|].
  unfold array_sort in *; simpl.
  rewrite sort_insert_perm. by rewrite IH.
Qed.

Lemma array_sort_elem x l : x ∈ array_sort compareFn l <-> x ∈ l.
Proof. by rewrite array_sort_perm. Qed.

Hypothesis compare_total :
  forall a b, before compareFn a b \/ before compareFn b a.
Hypothesis compare_trans :
  forall a b c, before compareFn a b -> before compareFn b c -> before compareFn a c.

Lemma sort_insert_sorted x l :
  StronglySorted (before compareFn) l ->
  StronglySorted (before compareFn) (sort_insert compareFn x l).
Proof.
  induction 1 as [|y l Hl IH Hy]; simpl.
  - repeat constructor.
  - destruct (Z.leb_spec (compareFn x y) 0) as [Hle|Hgt].
    + constructor; [by constructor|].
      constructor; [exact Hle|].
      eapply Forall_impl; [exact Hy|]. intros b Hb. by eapply compare_trans.
    + constructor; [exact IH|].
      rewrite sort_insert_perm. constructor; [|exact Hy].
      destruct (compare_total x y) as [H|H]; [unfold before in H; lia|exact H].
Qed.

Lemma array_sort_sorted l : StronglySorted (before compareFn) (array_sort compareFn l).
Proof.
  induction l as [|x l IH]; [constructor|].
  unfold array_sort in *; simpl. by apply sort_insert_sorted.
Qed.

End SortFacts.

Lemma newest_first_before l :
  newest_first l <-> StronglySorted (before newest_first_cmp) l.
Proof.
  unfold newest_first.
  split; induction 1 as [|x l Hl IH Hx]; constructor; try done;
    (eapply Forall_impl; [exact Hx|]);
    unfold before, newest_first_cmp; intros b; simpl; lia.
Qed.

Lemma array_sort_newest_first l : newest_first (array_sort newest_first_cmp l).
Proof.
  apply newest_first_before, array_sort_sorted;
    unfold before, newest_first_cmp; intros; lia.
Qed.

(** ** Running programs *)

Section RunFacts.
Context {E : Type} (P : Platform E).
Implicit Types w : World E.

Lemma run_bind {A B} (p : prog A) (f : A -> prog B) w :
  run P (bind p f) w =
  match (run P p w).2 with
  | Returned a => run P (f a) (run P p w).1
  | Thrown e => ((run P p w).1, Thrown e)
  end.
Proof.
  revert w. induction p as [a|e|X o k IH]; intros w; simpl; [done..|].
  destruct (perform P o w) as [w1 x]. apply IH.
Qed.

Lemma run_try_catch {A} (p : prog A) (h : error -> prog A) w :
  run P (try_catch p h) w =
  match (run P p w).2 with
  | Returned a => ((run P p w).1, Returned a)
  | Thrown e => run P (h e) (run P p w).1
  end.
Proof.
  revert w. induction p as [a|e|X o k IH]; intros w; simpl; [done..|].
  destruct (perform P o w) as [w1 x]. apply IH.
Qed.

Lemma run_try_finally {A} (p : prog A) (fin : prog unit) w :
  run P (try_finally p fin) w =
  match (run P fin (run P p w).1).2 with
  | Returned _ => ((run P fin (run P p w).1).1, (run P p w).2)
  | Thrown e => ((run P fin (run P p w).1).1, Thrown e)
  end.
Proof.
  revert w. induction p as [a|e|X o k IH]; intros w; simpl.
  - rewrite run_bind. by destruct (run P fin w) as [w1 [[]|e]].
  - rewrite run_bind. by destruct (run P fin w) as [w1 [[]|e']].
  - destruct (perform P o w) as [w1 x]. apply IH.
Qed.

(** *** Rules for [wp] *)

Lemma wp_mono {A} (p : prog A) (Q Q' : World E -> outcome A -> Prop) w :
  wp P p Q w -> (forall w' o, Q w' o -> Q' w' o) -> wp P p Q' w.
Proof. unfold wp. auto. Qed.

Lemma wp_ret {A} (a : A) (Q : World E -> outcome A -> Prop) w :
  Q w (Returned a) -> wp P (Ret a) Q w.
Proof. done. Qed.

Lemma wp_throw {A} e (Q : World E -> outcome A -> Prop) w :
  Q w (Thrown e) -> wp P (Throw e) Q w.
Proof. done. Qed.

Lemma wp_op {A X} (o : op X) (k : X -> prog A) Q w :
  wp P (k (perform P o w).2) Q (perform P o w).1 -> wp P (Op o k) Q w.
Proof. unfold wp. simpl. by destruct (perform P o w). Qed.

Lemma wp_perform {X} (o : op X) (Q : World E -> outcome X -> Prop) w :
  Q (perform P o w).1 (Returned (perform P o w).2) -> wp P (perform_op o) Q w.
Proof. intros H. by apply wp_op. Qed.

Lemma wp_bind {A B} (p : prog A) (f : A -> prog B) Q w :
  wp P p (fun w1 o =>
    match o with
    | Returned a => wp P (f a) Q w1
    | Thrown e => Q w1 (Thrown e)
    end) w ->
  wp P (bind p f) Q w.
Proof. unfold wp. rewrite run_bind. by destruct (run P p w) as [w1 [a|e]]. Qed.

Lemma wp_try_catch {A} (p : prog A) h Q w :
  wp P p (fun w1 o =>
    match o with
    | Returned a => Q w1 (Returned a)
    | Thrown e => wp P (h e) Q w1
    end) w ->
  wp P (try_catch p h) Q w.
Proof.
  unfold wp. rewrite run_try_catch. by destruct (run P p w) as [w1 [a|e]].
Qed.

Lemma wp_try_finally {A} (p : prog A) fin Q w :
  wp P p (fun w1 o =>
    wp P fin (fun w2 o2 =>
      match o2 with
      | Returned _ => Q w2 o
      | Thrown e => Q w2 (Thrown e)
      end) w1) w ->
  wp P (try_finally p fin) Q w.
Proof.
  unfold wp. rewrite run_try_finally.
  by destruct (run P fin (run P p w).1) as [w2 [[]|e]].
Qed.

(** A loop with invariant [I], which speaks of the elements already
    visited; a throwing turn leaves the loop at once. *)
Lemma wp_for_of {A S} (l : list A) (body : A -> S -> prog S)
    (I : list A -> S -> World E -> Prop) (Q : World E -> outcome S -> Prop)
    s0 w :
  I [] s0 w ->
  (forall visited x s w1,
      (exists rest, l = visited ++ x :: rest) -> I visited s w1 ->
      wp P (body x s) (fun w2 o =>
        match o with
        | Returned s' => I (visited ++ [x]) s' w2
        | Thrown e => Q w2 (Thrown e)
        end) w1) ->
  (forall s w1, I l s w1 -> Q w1 (Returned s)) ->
  wp P (for_of l s0 body) Q w.
Proof.
  intros Hinit Hbody Hend.
  assert (Hgen : forall todo visited s w1,
    l = visited ++ todo -> I visited s w1 -> wp P (for_of todo s body) Q w1).
  { induction todo as [|x todo IH]; intros visited s w1 Hl HI; simpl.
    - apply wp_ret, Hend. by rewrite Hl, app_nil_r.
    - apply wp_bind. eapply wp_mono; [apply (Hbody visited); eauto|].
      intros w2 [s'|e] H; [|done]. simpl in H.
      apply (IH (visited ++ [x])); [|done]. by rewrite <- app_assoc. }
  by apply (Hgen l []).
Qed.

End RunFacts.

(** ** [loadPendingReports] *)

Section LoadFacts.
Context {E : Type} (P : Platform E).
Implicit Types w : World E.

Lemma collect_unsynced (entries : list (string * OfflineReport)) acc :
  foldl (fun reports kv =>
           if negb (synced kv.2) then reports ++ [kv.2] else reports)
        acc entries
  = acc ++ filter (fun r => synced r = false) entries.*2.
Proof.
  revert acc. induction entries as [|[k r] entries IH]; intros acc; simpl.
  - by rewrite app_nil_r.
  - rewrite IH. rewrite filter_cons. simpl.
    destruct (synced r) eqn:Hr; simpl; [done|].
    by rewrite <- app_assoc.
Qed.

Lemma pending_values_elem m r : r ∈ pending_values m <-> stored_pending m r.
Proof.
  unfold pending_values, stored_pending.
  rewrite list_elem_of_filter, list_elem_of_fmap. split.
  - intros [Hs [[k r'] [-> Hin]]]. exists k.
    by apply elem_of_map_to_list in Hin.
  - intros [k [Hk Hs]]. split; [done|]. exists (k, r).
    split; [done|]. by apply elem_of_map_to_list.
Qed.

(** The iteration succeeds: the projection becomes the sorted list of the
    unsynced stored values. *)
Lemma run_load_ok w :
  (lf_fault P (ext w) LfIterate).2 = false ->
  run P loadPendingReports w =
  (set_store
     (set_pendingReports (array_sort newest_first_cmp (pending_values (db w)))
        (store w))
     (log (EvStorage LfIterate true) (set_ext (lf_fault P (ext w) LfIterate).1 w)),
   Returned tt).
Proof.
  intros Hok. unfold loadPendingReports, localforage_iterate. simpl.
  unfold storage_call. destruct (lf_fault P (ext w) LfIterate) as [e failed].
  simpl in Hok. subst failed. simpl.
  by rewrite collect_unsynced.
Qed.

(** The iteration throws: the error is logged and nothing else happens. *)
Lemma run_load_failed w :
  (lf_fault P (ext w) LfIterate).2 = true ->
  run P loadPendingReports w =
  (log (EvConsoleError "Error loading pending reports:" (StorageError LfIterate))
     (log (EvStorage LfIterate false)
        (set_ext (lf_fault P (ext w) LfIterate).1 w)),
   Returned tt).
Proof.
  intros Hko. unfold loadPendingReports, localforage_iterate. simpl.
  unfold storage_call. destruct (lf_fault P (ext w) LfIterate) as [e failed].
  simpl in Hko. by subst failed.
Qed.

Lemma run_load_returns w : (run P loadPendingReports w).2 = Returned tt.
Proof.
  destruct ((lf_fault P (ext w) LfIterate).2) eqn:H.
  - by rewrite run_load_failed.
  - by rewrite run_load_ok.
Qed.

Lemma wp_load (Q : World E -> outcome unit -> Prop) w :
  (forall w', loaded P w w' -> Q w' (Returned tt)) ->
  wp P loadPendingReports Q w.
Proof.
  intros HQ. unfold wp.
  destruct ((lf_fault P (ext w) LfIterate).2) eqn:H.
  - rewrite run_load_failed by done. apply HQ. unfold loaded. simpl.
    rewrite <- app_assoc. tauto.
  - rewrite run_load_ok by done. apply HQ. unfold loaded. simpl. tauto.
Qed.

Lemma wp_await_load (Q : World E -> outcome unit -> Prop) w :
  (forall w', loaded P w w' -> Q w' (Returned tt)) ->
  wp P await_loadPendingReports Q w.
Proof.
  intros HQ. unfold await_loadPendingReports.
  apply wp_bind, wp_load. intros w' Hw'. apply wp_perform. by apply HQ.
Qed.

End LoadFacts.

(** C10. Atomicity of load on a storage error: when the database
    iteration inside [loadPendingReports] throws, the call returns
    normally (no exception escapes) and the whole zustand state, the
    projection in particular, is exactly what it was before the call;
    the database and the timers are untouched as well. *)
Theorem load_failure_keeps_projection {E} (P : Platform E) (w : World E) :
  (lf_fault P (ext w) LfIterate).2 = true ->
  (run P loadPendingReports w).2 = Returned tt /\
  pendingReports (store (run P loadPendingReports w).1) = pendingReports (store w) /\
  store (run P loadPendingReports w).1 = store w /\
  db (run P loadPendingReports w).1 = db w /\
  timers (run P loadPendingReports w).1 = timers w.
Proof. intros Hko. by rewrite run_load_failed. Qed.

Lemma load_failure_keeps_projection_witness :
  let w := demo_world false false [demo_report "a" "spill" None 10 false] [] 0 in
  (lf_fault (demo_platform true) (ext w) LfIterate).2 = true /\
  (run (demo_platform true) loadPendingReports w).2 = Returned tt /\
  pendingReports (store (run (demo_platform true) loadPendingReports w).1)
  = [demo_report "a" "spill" None 10 false].
Proof.
  intros w.
  assert (Hko : (lf_fault (demo_platform true) (ext w) LfIterate).2 = true)
    by reflexivity.
  split; [exact Hko|].
  destruct (load_failure_keeps_projection (demo_platform true) w Hko)
    as (Hret & Hproj & _).
  split; [exact Hret|]. rewrite Hproj. reflexivity.
Defined.

(** C3. Load correctness and durability: whatever the database holds,
    a [loadPendingReports] whose iteration succeeds sets the projection to
    exactly the stored records with [synced = false] (the very records
    that were written, each as often as it is stored), newest first by
    [created_at]; synced records are left out; the database is not
    touched; and a second load over the same database gives the same
    projection. *)
Theorem load_projection_correct {E} (P : Platform E) (w : World E) :
  (lf_fault P (ext w) LfIterate).2 = false ->
  (run P loadPendingReports w).2 = Returned tt /\
  (forall r, r ∈ pendingReports (store (run P loadPendingReports w).1)
             <-> stored_pending (db w) r) /\
  pendingReports (store (run P loadPendingReports w).1) ≡ₚ pending_values (db w) /\
  (forall r, r ∈ pendingReports (store (run P loadPendingReports w).1) ->
             synced r = false) /\
  newest_first (pendingReports (store (run P loadPendingReports w).1)) /\
  db (run P loadPendingReports w).1 = db w /\
  ((lf_fault P (ext (run P loadPendingReports w).1) LfIterate).2 = false ->
   pendingReports
     (store (run P loadPendingReports (run P loadPendingReports w).1).1)
   = pendingReports (store (run P loadPendingReports w).1)).
Proof.
  intros Hok. rewrite (run_load_ok P w Hok).
  cbn [fst snd store db set_store log set_ext pendingReports set_pendingReports].
  split; [done|]. split; [|split; [|split; [|split; [|split]]]].
  - intros r. by rewrite array_sort_elem, pending_values_elem.
  - apply array_sort_perm.
  - intros r. rewrite array_sort_elem, pending_values_elem. by intros [k [_ ?]].
  - apply array_sort_newest_first.
  - done.
  - intros Hok2. by rewrite (run_load_ok P _ Hok2).
Qed.

Lemma load_projection_correct_witness :
  let first := demo_data "spill" None in
  let second := demo_data "waves" (Some [photo "x.jpg"]) in
  let stored := [demo_report "z" "erosion" None 5 true] in
  let w0 := initial_world false (db_of stored) 1000 in
  let w1 := (run (demo_platform false) (addPendingReport first) w0).1 in
  let w2 := (run (demo_platform false) (addPendingReport second) w1).1 in
  let w := restart true w2 in
  (lf_fault (demo_platform false) (ext w) LfIterate).2 = false /\
  map payload (pendingReports (store (run (demo_platform false) loadPendingReports w).1))
  = [second; first] /\
  newest_first (pendingReports (store (run (demo_platform false) loadPendingReports w).1)).
Proof.
  intros first second stored w0 w1 w2 w.
  assert (Hok : (lf_fault (demo_platform false) (ext w) LfIterate).2 = false)
    by reflexivity.
  split; [exact Hok|]. split; [vm_compute; reflexivity|].
  exact (proj1 (proj2 (proj2 (proj2 (proj2
           (load_projection_correct (demo_platform false) w Hok)))))).
Defined.

(** ** [clearSyncedReports] *)

Section ClearFacts.
Context {E : Type} (P : Platform E).
Implicit Types w : World E.

Lemma collect_synced_keys (entries : list (string * OfflineReport)) acc :
  foldl (fun keysToRemove kv =>
           if synced kv.2 then keysToRemove ++ [kv.1] else keysToRemove)
        acc entries
  = acc ++ (filter (fun kv : string * OfflineReport => synced kv.2 = true) entries).*1.
Proof.
  revert acc. induction entries as [|[k r] entries IH]; intros acc; simpl.
  - by rewrite app_nil_r.
  - rewrite IH. rewrite filter_cons. simpl.
    destruct (synced r) eqn:Hr; simpl; [|done].
    by rewrite <- app_assoc.
Qed.

Lemma synced_keys_elem m key :
  key ∈ synced_keys m <-> exists r, m !! key = Some r /\ synced r = true.
Proof.
  unfold synced_keys. rewrite list_elem_of_fmap. split.
  - intros [[k r] [-> Hin]]. apply list_elem_of_filter in Hin as [Hs Hin].
    exists r. by apply elem_of_map_to_list in Hin.
  - intros [r [Hk Hs]]. exists (key, r). split; [done|].
    apply list_elem_of_filter. split; [done|]. by apply elem_of_map_to_list.
Qed.

(** The removal loop deletes a prefix of its keys: all of them when it
    returns, and it returns when localforage does not fail. *)
Lemma wp_remove_loop keys w :
  wp P (for_of keys tt (fun key _ => localforage_removeItem key))
    (fun w' out =>
       exists removed rest,
         keys = removed ++ rest /\
         (forall key, db w' !! key
                      = if decide (key ∈ removed) then None else db w !! key) /\
         store w' = store w /\ timers w' = timers w /\
         (out = Returned tt /\ rest = [] \/
          (exists c, out = Thrown (StorageError c)) /\ ~ reliable_storage P)) w.
Proof.
  revert w. induction keys as [|k keys IH]; intros w.
  - apply wp_ret. exists [], []. split; [done|]. split; [|auto].
    intros key. by rewrite decide_False by apply not_elem_of_nil.
  - cbn [for_of]. apply wp_bind. unfold localforage_removeItem.
    apply wp_bind, wp_perform. cbn [perform]. unfold storage_call.
    destruct (lf_fault P (ext w) (LfRemoveItem k)) as [e failed] eqn:Hf.
    destruct failed; cbn [fst snd].
    + apply wp_throw. exists [], (k :: keys). split; [done|].
      split; [intros key; by rewrite decide_False by apply not_elem_of_nil|].
      split; [done|]. split; [done|].
      right. split; [eauto|]. intros Hrel.
      specialize (Hrel (ext w) (LfRemoveItem k)). by rewrite Hf in Hrel.
    + apply wp_ret. eapply wp_mono; [apply IH|].
      intros w' out (removed & rest & -> & Hdb & Hst & Htm & Hout).
      cbn [db store timers set_db log set_ext] in *.
      exists (k :: removed), rest. split; [done|]. split; [|auto].
      intros key. rewrite Hdb.
      destruct (decide (key ∈ k :: removed)) as [Hin|Hnin];
        destruct (decide (key ∈ removed)) as [Hin'|Hnin']; try done.
      * apply elem_of_cons in Hin as [->|?]; [|done]. apply lookup_delete_eq.
      * exfalso. apply Hnin. by right.
      * apply lookup_delete_ne. intros ->. apply Hnin. by left.
Qed.

Lemma synced_keys_none m :
  (forall key r, m !! key = Some r -> synced r = false) -> synced_keys m = [].
Proof.
  intros Hm. destruct (synced_keys m) as [|k l] eqn:Hk; [done|].
  assert (Hin : k ∈ synced_keys m) by (rewrite Hk; left).
  apply synced_keys_elem in Hin as (r & Hr & Hs).
  apply Hm in Hr. congruence.
Qed.

(** What [clearSyncedReports] does, whatever fails on the way. *)
Lemma wp_clear w :
  wp P clearSyncedReports
    (fun w' out =>
       out = Returned tt /\ timers w' = timers w /\
       isOnline (store w') = isOnline (store w) /\
       syncInProgress (store w') = syncInProgress (store w) /\
       exists removed,
         removed ⊆ synced_keys (db w) /\
         (forall key, db w' !! key
                      = if decide (key ∈ removed) then None else db w !! key) /\
         (pendingReports (store w') = pendingReports (store w) \/
          pendingReports (store w')
          = array_sort newest_first_cmp (pending_values (db w'))) /\
         (reliable_storage P ->
          removed = synced_keys (db w) /\
          pendingReports (store w')
          = array_sort newest_first_cmp (pending_values (db w')))) w.
Proof.
  unfold clearSyncedReports. apply wp_try_catch, wp_bind.
  unfold localforage_iterate. apply wp_bind, wp_perform.
  cbn [perform]. unfold storage_call.
  destruct (lf_fault P (ext w) LfIterate) as [e failed] eqn:Hf.
  destruct failed; cbn [fst snd].
  - apply wp_throw, wp_perform. cbn. repeat (split; [done|]).
    exists []. split; [apply list_subseteq_nil|]. split; [|split; [by left|]].
    + intros key. by rewrite decide_False by apply not_elem_of_nil.
    + intros Hrel. specialize (Hrel (ext w) LfIterate). by rewrite Hf in Hrel.
  - apply wp_ret. rewrite collect_synced_keys, app_nil_l.
    apply wp_bind. eapply wp_mono; [apply wp_remove_loop|].
    cbn [db store timers log set_ext].
    intros w1 out (removed & rest & Hkeys & Hdb & Hst & Htm & Hout).
    fold (synced_keys (db w)) in Hkeys.
    assert (Hsub : removed ⊆ synced_keys (db w)).
    { intros key Hkey. rewrite Hkeys. apply elem_of_app. by left. }
    destruct Hout as [[-> ->]|[[c ->] Hunrel]].
    + rewrite app_nil_r in Hkeys. subst removed.
      apply wp_await_load. intros w' (Hdb' & Htm' & Hon & Hbusy & Hproj).
      split; [done|]. rewrite Htm', Hon, Hbusy, Hst, Htm.
      repeat (split; [done|]).
      exists (synced_keys (db w)). split; [done|].
      split; [intros key; by rewrite Hdb', Hdb|].
      rewrite Hdb'.
      destruct Hproj as [(_ & Hp & _)|(Hko & Hp & _)].
      * split; [by right|]. done.
      * split; [left; by rewrite Hp, Hst|].
        intros Hrel. by rewrite Hrel in Hko.
    + apply wp_perform. cbn. rewrite Hst, Htm. repeat (split; [done|]).
      exists removed. split; [done|]. split; [done|]. split; [by left|].
      intros Hrel. done.
Qed.

(** With nothing synced in the database, a clear is an iteration
    followed by a reload. *)
Lemma run_clear_nothing w :
  (lf_fault P (ext w) LfIterate).2 = false ->
  synced_keys (db w) = [] ->
  run P clearSyncedReports w =
  ((run P loadPendingReports
      (log (EvStorage LfIterate true)
         (set_ext (lf_fault P (ext w) LfIterate).1 w))).1,
   Returned tt).
Proof.
  intros Hok Hkeys. unfold clearSyncedReports, localforage_iterate.
  cbn [bind try_catch perform_op run perform]. unfold storage_call.
  destruct (lf_fault P (ext w) LfIterate) as [e failed].
  cbn [snd] in Hok. subst failed. cbn [negb fst snd].
  rewrite collect_synced_keys, app_nil_l.
  change (filter _ (map_to_list (db (log (EvStorage LfIterate true) (set_ext e w))))).*1
    with (synced_keys (db w)).
  rewrite Hkeys. cbn [for_of bind].
  rewrite run_try_catch. unfold await_loadPendingReports. rewrite run_bind.
  rewrite run_load_returns. cbn. done.
Qed.

End ClearFacts.

(** C7. Cleanup correctness and idempotence.  Whatever fails on the way,
    [clearSyncedReports] returns normally, keeps every record whose
    [synced] flag is false (however old) and adds or alters nothing.
    When localforage does not fail it removes exactly the records whose
    flag is true, and the projection is reloaded from what remains
    (exactly the stored pending records, newest first); a second call
    right after leaves the database as it is, issues no [removeItem] at
    all and reloads the same projection. *)
Theorem clear_removes_exactly_synced {E} (P : Platform E) (w : World E) :
  wp P clearSyncedReports
    (fun w1 out1 =>
       out1 = Returned tt /\
       (forall key r, db w !! key = Some r -> synced r = false ->
                      db w1 !! key = Some r) /\
       (forall key r, db w1 !! key = Some r -> db w !! key = Some r) /\
       (reliable_storage P ->
        db w1 = filter (fun kr => synced kr.2 = false) (db w) /\
        (forall r, r ∈ pendingReports (store w1) <-> stored_pending (db w1) r) /\
        newest_first (pendingReports (store w1)) /\
        wp P clearSyncedReports
          (fun w2 out2 =>
             out2 = Returned tt /\
             db w2 = db w1 /\
             filter (fun ev => is_remove_event ev = true) (trace w2)
             = filter (fun ev => is_remove_event ev = true) (trace w1) /\
             pendingReports (store w2) = pendingReports (store w1)) w1)) w.
Proof.
  eapply wp_mono; [apply wp_clear|].
  intros w1 out1 (-> & Htm & Hon & Hbusy & removed & Hsub & Hdb & Hproj & Hrel).
  split; [done|].
  assert (Hkeep : forall key r, db w !! key = Some r -> synced r = false ->
                                db w1 !! key = Some r).
  { intros key r Hr Hs. rewrite Hdb.
    destruct (decide (key ∈ removed)) as [Hin|]; [|done].
    apply Hsub, synced_keys_elem in Hin as (r' & Hr' & Hs'). congruence. }
  assert (Hold : forall key r, db w1 !! key = Some r -> db w !! key = Some r).
  { intros key r. rewrite Hdb. by destruct (decide (key ∈ removed)). }
  split; [done|]. split; [done|].
  intros Hr. destruct (Hrel Hr) as [-> Hp].
  assert (Hpending : forall key r, db w1 !! key = Some r -> synced r = false).
  { intros key r. rewrite Hdb.
    destruct (decide (key ∈ synced_keys (db w))) as [|Hnin]; [done|].
    intros Hk. destruct (synced r) eqn:Hs; [|done].
    exfalso. apply Hnin, synced_keys_elem. eauto. }
  split; [|split; [|split]].
  - apply map_eq. intros key. apply option_eq. intros r.
    rewrite map_lookup_filter_Some. simpl. split.
    + intros Hk. split; [by apply Hold|by eapply Hpending].
    + intros [Hk Hs]. by apply Hkeep.
  - intros r. by rewrite Hp, array_sort_elem, pending_values_elem.
  - rewrite Hp. apply array_sort_newest_first.
  - unfold wp. rewrite run_clear_nothing; [|apply Hr|by eapply synced_keys_none].
    rewrite run_load_ok by apply Hr.
    cbn [fst snd db store trace set_store set_ext log pendingReports set_pendingReports].
    split; [done|]. split; [done|]. split; [|done].
    by rewrite !filter_app, !app_nil_r.
Qed.

Lemma clear_removes_exactly_synced_witness :
  let stored := [demo_report "a" "spill" None 10 false;
                 demo_report "b" "waves" None 30 true;
                 demo_report "c" "erosion" None 20 true] in
  let w := initial_world true (db_of stored) 0 in
  reliable_storage (demo_platform false) /\
  db (run (demo_platform false) clearSyncedReports w).1
  = filter (fun kr => synced kr.2 = false) (db w) /\
  map_to_list (db (run (demo_platform false) clearSyncedReports w).1)
  = [("a", demo_report "a" "spill" None 10 false)].
Proof.
  intros stored w.
  assert (Hrel : reliable_storage (demo_platform false)) by (intros e c; reflexivity).
  split; [exact Hrel|].
  split; [|vm_compute; reflexivity].
  exact (proj1 (proj2 (proj2 (proj2
           (clear_removes_exactly_synced (demo_platform false) w))) Hrel)).
Defined.

(** ** Storage failures inside load and clear *)

Section FailureFacts.
Context {E : Type} (P : Platform E).
Implicit Types w : World E.

Lemma failures_logged_removed (keys : list string) evs :
  failures_logged evs ->
  failures_logged (map (fun key => EvStorage (LfRemoveItem key) true) keys ++ evs).
Proof. intros H. induction keys; simpl; done. Qed.

Lemma wp_remove_loop_trace keys w :
  wp P (for_of keys tt (fun key _ => localforage_removeItem key))
    (fun w' out =>
       exists removed,
         out = Returned tt /\
         trace w' = trace w
           ++ map (fun key => EvStorage (LfRemoveItem key) true) removed
         \/
         exists c, out = Thrown (StorageError c) /\
         trace w' = trace w
           ++ map (fun key => EvStorage (LfRemoveItem key) true) removed
           ++ [EvStorage c false]) w.
Proof.
  revert w. induction keys as [|k keys IH]; intros w.
  - apply wp_ret. exists []. left. by rewrite app_nil_r.
  - cbn [for_of]. apply wp_bind. unfold localforage_removeItem.
    apply wp_bind, wp_perform. cbn [perform]. unfold storage_call.
    destruct (lf_fault P (ext w) (LfRemoveItem k)) as [e failed].
    destruct failed; cbn [fst snd].
    + apply wp_throw. exists []. right. eauto.
    + apply wp_ret. eapply wp_mono; [apply IH|].
      cbn [trace set_db log set_ext].
      intros w' out [removed [[-> Htr]|(c & -> & Htr)]];
        exists (k :: removed); [left|right; exists c];
        (split; [done|]); rewrite Htr, <- app_assoc; done.
Qed.

Lemma wp_clear_trace w :
  wp P clearSyncedReports
    (fun w' out =>
       exists evs, trace w' = trace w ++ evs /\ failures_logged evs /\
         ((lf_fault P (ext w) LfIterate).2 = true ->
          evs = [EvStorage LfIterate false;
                 EvConsoleError "Error clearing synced reports:"
                   (StorageError LfIterate)])) w.
Proof.
  unfold clearSyncedReports. apply wp_try_catch, wp_bind.
  unfold localforage_iterate. apply wp_bind, wp_perform.
  cbn [perform]. unfold storage_call.
  destruct (lf_fault P (ext w) LfIterate) as [e failed].
  destruct failed; cbn [fst snd].
  - apply wp_throw, wp_perform. cbn. eexists. rewrite <- app_assoc.
    split; [done|]. split; [|done]. simpl. eauto.
  - apply wp_ret, wp_bind. eapply wp_mono; [apply wp_remove_loop_trace|].
    cbn [trace log set_ext].
    intros w1 out [removed [[-> Htr]|(c & -> & Htr)]].
    + apply wp_await_load. intros w' (_ & _ & _ & _ & Hload).
      destruct Hload as [(_ & _ & Htr')|(_ & _ & Htr')];
        rewrite Htr', Htr, <- !app_assoc; eexists;
        (split; [done|]); (split; [|done]); simpl;
        apply failures_logged_removed; simpl; eauto.
    + apply wp_perform. cbn. rewrite Htr, <- !app_assoc. eexists.
      split; [done|]. split; [|done]. simpl.
      apply failures_logged_removed. simpl. eauto.
Qed.

Lemma run_clear_returns w : (run P clearSyncedReports w).2 = Returned tt.
Proof. by destruct (wp_clear P w) as [? _]. Qed.

End FailureFacts.

(** C8, as the code has it.  A storage failure raised during
    [loadPendingReports] or [clearSyncedReports] does not reach the
    caller: each action catches it, reports it with [console.error]
    right after the failed call, and returns normally.  When the
    iteration itself fails, the failed call and its report are all that
    happens. *)
Theorem load_and_clear_swallow_storage_errors {E} (P : Platform E) (w : World E) :
  wp P loadPendingReports
    (fun w' out =>
       out = Returned tt /\
       exists evs, trace w' = trace w ++ evs /\ failures_logged evs /\
         ((lf_fault P (ext w) LfIterate).2 = true ->
          evs = [EvStorage LfIterate false;
                 EvConsoleError "Error loading pending reports:"
                   (StorageError LfIterate)])) w /\
  wp P clearSyncedReports
    (fun w' out =>
       out = Returned tt /\
       exists evs, trace w' = trace w ++ evs /\ failures_logged evs /\
         ((lf_fault P (ext w) LfIterate).2 = true ->
          evs = [EvStorage LfIterate false;
                 EvConsoleError "Error clearing synced reports:"
                   (StorageError LfIterate)])) w.
Proof.
  split.
  - apply wp_load. intros w' (_ & _ & _ & _ & Hload). split; [done|].
    destruct Hload as [(Hok & _ & Htr)|(Hko & _ & Htr)]; eexists;
      (split; [exact Htr|]); simpl.
    + split; [done|]. congruence.
    + split; [eauto|done].
  - unfold wp. split; [apply run_clear_returns|]. apply wp_clear_trace.
Qed.

(** The claim as the specification words it fails: here localforage is
    down, the iteration of either action throws, and both actions return
    normally all the same. *)
Lemma storage_failure_not_propagated :
  let w := initial_world true (db_of [demo_report "b" "waves" None 30 true]) 0 in
  (lf_fault (demo_platform true) (ext w) LfIterate).2 = true /\
  ~ propagates_storage_failure (demo_platform true) loadPendingReports w /\
  ~ propagates_storage_failure (demo_platform true) clearSyncedReports w.
Proof.
  intros w. split; [reflexivity|].
  split; intros [c Hc]; vm_compute in Hc; discriminate Hc.
Qed.

(** ** [syncPendingReports] *)

Section SyncFacts.
Context {E : Type} (P : Platform E).
Implicit Types w : World E.

(** The inner loop uploads the files in order and stops at the first
    refusal. *)
Lemma wp_upload_loop files mediaUrls w :
  wp P (for_of files mediaUrls upload_file)
    (fun w' out =>
       store w' = store w /\ db w' = db w /\ timers w' = timers w /\
       exists names,
         (length names = length files /\
          out = Returned (mediaUrls ++ map (public_url P) names) /\
          trace w' = trace w ++ uploaded names files /\
          (forall file, file ∈ files ->
             exists e fileName, fulfilled (sb_upload P e fileName file).2 = true))
         \/
         (exists sent file rest fileName err,
            files = sent ++ file :: rest /\ length names = length sent /\
            out = Thrown (UploadError err) /\
            trace w' = trace w ++ uploaded names sent ++ [EvUpload fileName file false] /\
            exists e, fulfilled (sb_upload P e fileName file).2 = false)) w.
Proof.
  revert mediaUrls w. induction files as [|file files IH]; intros mediaUrls w.
  - apply wp_ret. repeat (split; [done|]). exists []. left.
    rewrite !app_nil_r. repeat (split; [done|]). by intros file ?%elem_of_nil.
  - cbn [for_of]. apply wp_bind. unfold upload_file.
    apply wp_bind, wp_perform. cbn [perform].
    destruct (date_now P (ext w)) as [e1 now]. cbn [fst snd].
    apply wp_bind, wp_perform. cbn [perform ext set_ext].
    destruct (sb_upload P e1 (pretty now +:+ "_" +:+ file_name file) file)
      as [e2 r] eqn:Hup.
    assert (Hr : fulfilled (sb_upload P e1 (pretty now +:+ "_" +:+ file_name file) file).2
                 = fulfilled r) by (by rewrite Hup).
    cbn [fst snd].
    destruct r as [[]|err|err]; cbn [fulfilled] in *.
    + apply wp_bind, wp_perform. cbn [perform fst snd]. apply wp_ret.
      eapply wp_mono; [apply IH|].
      cbn [store db timers trace log set_ext].
      intros w' out (Hst & Hdb & Htm & names & Hcase).
      repeat (split; [done|]).
      destruct Hcase as [(Hlen & -> & Htr & Hall)
                        |(sent & f & rest & n & err & -> & Hlen & -> & Htr & Hbad)].
      * exists ((pretty now +:+ "_" +:+ file_name file) :: names). left.
        split; [by rewrite !length_cons, Hlen|].
        split; [by rewrite <- app_assoc|].
        split; [by rewrite Htr, <- app_assoc|].
        intros f [->|Hf]%elem_of_cons; [eauto|by apply Hall].
      * exists ((pretty now +:+ "_" +:+ file_name file) :: names). right.
        exists (file :: sent), f, rest, n, err.
        split; [done|]. split; [by rewrite !length_cons, Hlen|].
        split; [done|]. split; [by rewrite Htr, <- app_assoc|]. done.
    + apply wp_throw. cbn [store db timers trace log set_ext].
      repeat (split; [done|]). exists []. right.
      exists [], file, files, (pretty now +:+ "_" +:+ file_name file), err.
      repeat (split; [done|]). eauto.
    + apply wp_throw. cbn [store db timers trace log set_ext].
      repeat (split; [done|]). exists []. right.
      exists [], file, files, (pretty now +:+ "_" +:+ file_name file), err.
      repeat (split; [done|]). eauto.
Qed.

(** The uploads of one attempt, over [report.media_files] as the guard
    [report.media_files && report.media_files.length > 0] reads it. *)
Lemma wp_upload_attachments report w :
  wp P (match media_files report with
        | Some files =>
            if (0 <? length files)%nat then for_of files [] upload_file
            else Ret []
        | None => Ret []
        end)
    (fun w' out =>
       store w' = store w /\ db w' = db w /\ timers w' = timers w /\
       exists names,
         (length names = length (attachments report) /\
          out = Returned (map (public_url P) names) /\
          trace w' = trace w ++ uploaded names (attachments report) /\
          (forall file, file ∈ attachments report ->
             exists e fileName, fulfilled (sb_upload P e fileName file).2 = true))
         \/
         (exists sent file rest fileName err,
            attachments report = sent ++ file :: rest /\ length names = length sent /\
            out = Thrown (UploadError err) /\
            trace w' = trace w ++ uploaded names sent ++ [EvUpload fileName file false] /\
            exists e, fulfilled (sb_upload P e fileName file).2 = false)) w.
Proof.
  unfold attachments.
  destruct (media_files report) as [files|]; cbn [default].
  - destruct files as [|file files]; cbn [length Nat.ltb Nat.leb].
    + apply wp_ret. repeat (split; [done|]). exists []. left.
      rewrite app_nil_r. repeat (split; [done|]). by intros file ?%elem_of_nil.
    + apply (wp_upload_loop (file :: files) []).
  - apply wp_ret. repeat (split; [done|]). exists []. left.
    rewrite app_nil_r. repeat (split; [done|]). by intros file ?%elem_of_nil.
Qed.

(** The insert of one attempt and the write that marks the record. *)
Lemma wp_insert_and_mark report mediaUrls user_id w :
  wp P (r <- perform_op (GatewayInsert (insert_row report mediaUrls user_id));
        do match r with
           | Rejected err => Throw (InsertError err)
           | WithError err => Throw (InsertError err)
           | Fulfilled _ => Ret tt
           end;
        localforage_setItem (id report) (with_synced true report))%prog
    (fun w' out =>
       store w' = store w /\ timers w' = timers w /\
       ((out = Returned tt /\
         trace w' = trace w ++
           [EvInsert (insert_row report mediaUrls user_id) true;
            EvStorage (LfSetItem (id report)) true] /\
         db w' = <[id report := with_synced true report]> (db w) /\
         exists e, fulfilled (sb_insert P e
                     (insert_row report mediaUrls user_id)).2 = true)
        \/
        (out = Thrown (StorageError (LfSetItem (id report))) /\
         trace w' = trace w ++
           [EvInsert (insert_row report mediaUrls user_id) true;
            EvStorage (LfSetItem (id report)) false] /\
         db w' = db w /\ ~ reliable_storage P)
        \/
        (exists err, out = Thrown (InsertError err) /\
         trace w' = trace w ++
           [EvInsert (insert_row report mediaUrls user_id) false] /\
         db w' = db w /\
         exists e, fulfilled (sb_insert P e
                     (insert_row report mediaUrls user_id)).2 = false))) w.
Proof.
  apply wp_bind, wp_perform. cbn [perform].
  destruct (sb_insert P (ext w) (insert_row report mediaUrls user_id))
    as [e1 r] eqn:Hins.
  assert (Hr : fulfilled (sb_insert P (ext w)
                 (insert_row report mediaUrls user_id)).2 = fulfilled r)
    by (by rewrite Hins).
  cbn [fst snd].
  destruct r as [[]|err|err]; cbn [fulfilled] in *.
  - apply wp_bind, wp_ret. unfold localforage_setItem.
    apply wp_bind, wp_perform. cbn [perform]. unfold storage_call.
    cbn [ext log set_ext].
    destruct (lf_fault P e1 (LfSetItem (id report))) as [e2 failed] eqn:Hf.
    destruct failed; cbn [fst snd negb].
    + apply wp_throw. cbn. repeat (split; [done|]). right. left.
      split; [done|]. split; [by rewrite <- app_assoc|]. split; [done|].
      intros Hrel. specialize (Hrel e1 (LfSetItem (id report))).
      by rewrite Hf in Hrel.
    + apply wp_ret. cbn. repeat (split; [done|]). left.
      split; [done|]. split; [by rewrite <- app_assoc|]. eauto.
  - apply wp_bind, wp_throw. cbn. repeat (split; [done|]). right. right.
    exists err. eauto.
  - apply wp_bind, wp_throw. cbn. repeat (split; [done|]). right. right.
    exists err. eauto.
Qed.

(** One turn of the drain loop over an unsynced record: it always
    returns, touches neither the zustand state nor the timers, and goes
    one of the ways of [attempt]. *)
Lemma wp_sync_report report w :
  synced report = false ->
  wp P (sync_report report)
    (fun w' out =>
       out = Returned tt /\ store w' = store w /\ timers w' = timers w /\
       exists evs, trace w' = trace w ++ evs /\
                   attempt P report (db w) (db w') evs) w.
Proof.
  intros Hs. unfold sync_report. rewrite Hs.
  apply wp_try_catch. unfold sync_attempt. apply wp_bind.
  eapply wp_mono; [apply wp_upload_attachments|].
  intros w1 out1 (Hst1 & Hdb1 & Htm1 & names & Hup).
  destruct Hup as [(Hlen & -> & Htr1 & Hall)
                  |(sent & file & rest & n & err & Hfiles & Hlen & -> & Htr1 & Hbad)].
  - apply wp_bind, wp_perform. cbn [perform].
    destruct (sb_getUser P (ext w1)) as [e2 user] eqn:Huser.
    cbn [fst snd].
    assert (Hgo : forall user_id,
      wp P (r <- perform_op (GatewayInsert
                   (insert_row report (map (public_url P) names) user_id));
            do match r with
               | Rejected err => Throw (InsertError err)
               | WithError err => Throw (InsertError err)
               | Fulfilled _ => Ret tt
               end;
            localforage_setItem (id report) (with_synced true report))%prog
        (fun w' out =>
           match out with
           | Returned a =>
               Returned a = Returned tt /\ store w' = store w /\
               timers w' = timers w /\
               exists evs, trace w' = trace w ++ evs /\
                           attempt P report (db w) (db w') evs
           | Thrown e =>
               wp P (perform_op (ConsoleError
                        ("Failed to sync report " +:+ id report +:+ ":") e))
                 (fun w'' out' =>
                    out' = Returned tt /\ store w'' = store w /\
                    timers w'' = timers w /\
                    exists evs, trace w'' = trace w ++ evs /\
                                attempt P report (db w) (db w'') evs) w'
           end) (log EvGetUser (set_ext e2 w1))).
    { intros user_id. eapply wp_mono; [apply wp_insert_and_mark|].
      cbn [store timers trace db log set_ext].
      intros w' out (Hst & Htm & Hcase).
      destruct Hcase as [(-> & Htr & Hdb & Hok)
                        |[(-> & Htr & Hdb & Hunrel)
                         |(err & -> & Htr & Hdb & Hko)]].
      - split; [done|]. split; [congruence|]. split; [congruence|].
        eexists. split.
        { rewrite Htr, Htr1, <- !app_assoc. reflexivity. }
        rewrite Hdb, Hdb1. by apply attempt_synced.
      - apply wp_perform. cbn. split; [done|].
        split; [congruence|]. split; [congruence|].
        eexists. split.
        { rewrite Htr, Htr1, <- !app_assoc. reflexivity. }
        rewrite Hdb, Hdb1. by apply attempt_store_failed.
      - apply wp_perform. cbn. split; [done|].
        split; [congruence|]. split; [congruence|].
        eexists. split.
        { rewrite Htr, Htr1, <- !app_assoc. reflexivity. }
        rewrite Hdb, Hdb1. by apply attempt_insert_failed. }
    destruct user as [user_id|err|err].
    + apply wp_bind, wp_ret, Hgo.
    + apply wp_bind, wp_ret, Hgo.
    + apply wp_bind, wp_throw, wp_perform. cbn. split; [done|].
      split; [done|]. split; [done|]. eexists. split.
      { rewrite Htr1, <- !app_assoc. reflexivity. }
      rewrite Hdb1. apply attempt_auth_failed; [done|done| |done].
      exists (ext w1). by rewrite Huser.
  - apply wp_perform. cbn. split; [done|]. split; [done|]. split; [done|].
    eexists. split.
    { rewrite Htr1, <- !app_assoc. reflexivity. }
    rewrite Hdb1. by eapply attempt_upload_failed.
Qed.

End SyncFacts.

(** ** What the shape of an attempt tells *)

Section AttemptFacts.
Context {E : Type} (P : Platform E).

Lemma uploaded_elem ev names files :
  ev ∈ uploaded names files -> exists fileName file, ev = EvUpload fileName file true.
Proof.
  unfold uploaded. intros (n & f & -> & _ & _)%elem_of_zip_with. eauto.
Qed.

Lemma uploaded_no_insert names files row ok :
  EvInsert row ok ∉ uploaded names files.
Proof. by intros (n & f & ?)%uploaded_elem. Qed.

Lemma uploaded_no_failure names files fileName file :
  EvUpload fileName file false ∉ uploaded names files.
Proof. by intros (n & f & ?)%uploaded_elem. Qed.

(** Nothing fails: the record is marked. *)
Lemma attempt_accepted report m m' evs :
  attempt P report m m' evs ->
  reliable_storage P -> auth_answers P -> gateway_accepts P report ->
  m' = <[id report := with_synced true report]> m.
Proof.
  intros Hat Hrel Hauth [Hup Hins].
  destruct Hat as [| |names uid msg err _ _ [e He] _
                  |names msg err _ _ [e He] _
                  |names sent file rest n msg err Hfiles _ [e He] _];
    [done|done|..].
  - by rewrite Hins in He.
  - by apply Hauth in He.
  - rewrite Hup in He; [done|]. rewrite Hfiles. apply elem_of_app. right. by left.
Qed.

(** The gateway fails for the record: the database stays as it was. *)
Lemma attempt_refused report m m' evs :
  attempt P report m m' evs -> gateway_refuses P report -> m' = m.
Proof.
  intros Hat Href.
  destruct Hat as [names uid _ Hall [e He] _| | | |]; [|done..].
  destruct Href as [(file & Hfile & Hno)|Hno].
  - destruct (Hall file Hfile) as (e' & n & Hyes). by rewrite Hno in Hyes.
  - by rewrite Hno in He.
Qed.

(** An insert in the events of an attempt comes after the upload of every
    attachment and the user lookup; no gateway call comes after it. *)
Lemma attempt_insert_last report m m' evs row ok :
  attempt P report m m' evs ->
  EvInsert row ok ∈ evs ->
  exists names tail,
    length names = length (attachments report) /\
    evs = uploaded names (attachments report) ++ [EvGetUser; EvInsert row ok] ++ tail /\
    forall ev, ev ∈ tail -> is_gateway_event ev = false.
Proof.
  intros Hat Hin.
  destruct Hat as [names uid Hlen _ _ _|names uid msg Hlen _ _ _
                  |names uid msg err Hlen _ _ _|names msg err Hlen _ _ _
                  |names sent file rest n msg err _ _ _ _];
    apply elem_of_app in Hin as [Hin|Hin];
    try (by apply uploaded_no_insert in Hin);
    repeat (apply elem_of_cons in Hin as [Hin|Hin]; try discriminate Hin);
    try (by apply elem_of_nil in Hin);
    injection Hin as -> ->; exists names; eexists;
    (split; [exact Hlen|]); (split; [reflexivity|]);
    intros ev Hev;
    repeat (apply elem_of_cons in Hev as [->|Hev]; [done|]);
    by apply elem_of_nil in Hev.
Qed.

(** A failed upload in the events of an attempt: no insert, and the
    database is as before. *)
Lemma attempt_upload_failure report m m' evs fileName file :
  attempt P report m m' evs ->
  EvUpload fileName file false ∈ evs ->
  (forall row ok, EvInsert row ok ∉ evs) /\ m' = m.
Proof.
  intros Hat Hin.
  destruct Hat as [names uid Hlen _ _ _|names uid msg Hlen _ _ _
                  |names uid msg err Hlen _ _ _|names msg err Hlen _ _ _
                  |names sent f rest n msg err _ _ _ Hm];
    apply elem_of_app in Hin as [Hin|Hin];
    try (by apply uploaded_no_failure in Hin);
    repeat (apply elem_of_cons in Hin as [Hin|Hin]; try discriminate Hin);
    try (by apply elem_of_nil in Hin).
  split; [|done]. intros row ok Hrow.
  apply elem_of_app in Hrow as [Hrow|Hrow];
    [by apply uploaded_no_insert in Hrow|].
  repeat (apply elem_of_cons in Hrow as [Hrow|Hrow]; try discriminate Hrow).
  by apply elem_of_nil in Hrow.
Qed.

End AttemptFacts.

(** C6. Upload before insert, within the drain's turn for one record.
    The turn always returns.  If an insert is attempted, the events of
    the turn begin with the successful upload of every attachment, in
    order, then the user lookup, then that insert, and no gateway call
    follows.  If an upload fails, whether seen in the log or because the
    gateway refuses one of the attachments in every state, no insert is
    attempted in the turn and the database, hence the record's [synced]
    flag, is as before. *)
Theorem upload_before_insert {E} (P : Platform E) (report : OfflineReport)
    (w : World E) :
  wp P (sync_report report)
    (fun w' out =>
       out = Returned tt /\
       exists evs,
         trace w' = trace w ++ evs /\
         (forall row ok, EvInsert row ok ∈ evs ->
            exists names tail,
              length names = length (attachments report) /\
              evs = uploaded names (attachments report)
                      ++ [EvGetUser; EvInsert row ok] ++ tail /\
              forall ev, ev ∈ tail -> is_gateway_event ev = false) /\
         (forall fileName file, EvUpload fileName file false ∈ evs ->
            (forall row ok, EvInsert row ok ∉ evs) /\ db w' = db w) /\
         ((exists file, file ∈ attachments report /\ upload_refuses P file) ->
            (forall row ok, EvInsert row ok ∉ evs) /\ db w' = db w)) w.
Proof.
  destruct (synced report) eqn:Hs.
  - unfold sync_report. rewrite Hs. apply wp_ret. split; [done|].
    exists []. rewrite app_nil_r. split; [done|].
    split; [by intros row ok ?%elem_of_nil|].
    split; [by intros n f ?%elem_of_nil|].
    intros _. split; [by intros row ok ?%elem_of_nil|done].
  - eapply wp_mono; [by apply wp_sync_report|].
    intros w' out (-> & _ & _ & evs & Htr & Hat). split; [done|].
    exists evs. split; [done|].
    split; [intros row ok; by apply (attempt_insert_last P report _ _ _ _ _ Hat)|].
    split; [intros n f; by apply (attempt_upload_failure P report _ _ _ _ _ Hat)|].
    intros (file & Hfile & Hno).
    destruct Hat as [names uid _ Hall _ _|names uid msg _ Hall _ _
                    |names uid msg err _ Hall _ _|names msg err _ Hall _ _
                    |names sent f rest n msg err Hfiles Hlen Hbad Hm];
      try (destruct (Hall file Hfile) as (e' & n' & Hyes);
           by rewrite Hno in Hyes).
    eapply (attempt_upload_failure P report (db w) (db w') _ n f).
    + by eapply attempt_upload_failed.
    + apply elem_of_app. right. by left.
Qed.

Lemma upload_before_insert_witness :
  let report :=
    demo_report "c" "oil" (Some [photo "x.jpg"; photo "corrupt.jpg"]) 10 false in
  let w := demo_world true true [report] [report] 1000 in
  upload_refuses (demo_platform false) (photo "corrupt.jpg") /\
  db (run (demo_platform false) (sync_report report) w).1 = db w /\
  filter (fun ev => is_insert_event ev = true)
    (trace (run (demo_platform false) (sync_report report) w).1) = [].
Proof.
  intros report w.
  assert (Hno : upload_refuses (demo_platform false) (photo "corrupt.jpg"))
    by (intros e n; reflexivity).
  split; [exact Hno|].
  destruct (upload_before_insert (demo_platform false) report w)
    as (_ & evs & _ & _ & _ & Hrefused).
  destruct Hrefused as [_ Hdb].
  { exists (photo "corrupt.jpg"). split; [|exact Hno]. right. left. }
  split; [exact Hdb|]. vm_compute. reflexivity.
Defined.

Section DrainFacts.
Context {E : Type} (P : Platform E).
Implicit Types w : World E.

Lemma attempt_cases report m m' evs :
  attempt P report m m' evs ->
  (m' = <[id report := with_synced true report]> m /\ ~ gateway_refuses P report)
  \/
  (m' = m /\
   ~ (reliable_storage P /\ auth_answers P /\ gateway_accepts P report)).
Proof.
  intros Hat.
  destruct Hat as [names uid _ Hall [e He] ->
                  |names uid msg _ _ Hunrel ->
                  |names uid msg err _ _ [e He] ->
                  |names msg err _ _ [e He] ->
                  |names sent file rest n msg err Hfiles _ [e He] ->].
  - left. split; [done|].
    intros [(file & Hfile & Hno)|Hno].
    + destruct (Hall file Hfile) as (e' & n & Hyes). by rewrite Hno in Hyes.
    + by rewrite Hno in He.
  - right. split; [done|]. by intros (Hrel & _).
  - right. split; [done|]. intros (_ & _ & _ & Hins). by rewrite Hins in He.
  - right. split; [done|]. intros (_ & Hauth & _). by apply Hauth in He.
  - right. split; [done|]. intros (_ & _ & Hup & _).
    rewrite Hup in He; [done|]. rewrite Hfiles. apply elem_of_app. right. by left.
Qed.

Lemma mark_synced_all_snoc marked report m :
  mark_synced_all (marked ++ [report]) m
  = <[id report := with_synced true report]> (mark_synced_all marked m).
Proof. unfold mark_synced_all. by rewrite foldl_app. Qed.

(** The drain loop.  It returns whatever the gateway and localforage do,
    and leaves the zustand state and the timers alone.  The records it
    marks are unsynced records of the batch, taken in order, none of
    which the gateway refuses; when nothing else fails, every unsynced
    record the gateway accepts is among them. *)
Lemma wp_drain_loop batch w :
  wp P (for_of batch tt (fun report _ => sync_report report))
    (fun w' out =>
       out = Returned tt /\ store w' = store w /\ timers w' = timers w /\
       exists marked,
         sublist marked batch /\
         (forall r, r ∈ marked -> synced r = false /\ ~ gateway_refuses P r) /\
         db w' = mark_synced_all marked (db w) /\
         (reliable_storage P -> auth_answers P ->
          forall r, r ∈ batch -> synced r = false -> gateway_accepts P r ->
                    r ∈ marked)) w.
Proof.
  apply (wp_for_of P batch _
    (fun visited _ w1 =>
       store w1 = store w /\ timers w1 = timers w /\
       exists marked,
         sublist marked visited /\
         (forall r, r ∈ marked -> synced r = false /\ ~ gateway_refuses P r) /\
         db w1 = mark_synced_all marked (db w) /\
         (reliable_storage P -> auth_answers P ->
          forall r, r ∈ visited -> synced r = false -> gateway_accepts P r ->
                    r ∈ marked))).
  - repeat (split; [done|]). exists []. split; [done|].
    split; [by intros r ?%elem_of_nil|]. split; [done|].
    by intros _ _ r ?%elem_of_nil.
  - intros visited x [] w1 _ (Hst & Htm & marked & Hsub & Hmarked & Hdb & Hall).
    destruct (synced x) eqn:Hx.
    + unfold sync_report. rewrite Hx. apply wp_ret.
      repeat (split; [done|]). exists marked.
      split; [by apply sublist_inserts_r|]. split; [done|]. split; [done|].
      intros Hrel Hauth r [Hr|Hr]%elem_of_app Hs Hacc; [by apply Hall|].
      apply list_elem_of_singleton in Hr as ->. congruence.
    + eapply wp_mono; [by apply wp_sync_report|].
      intros w2 [[]|e] (Hout & Hst2 & Htm2 & evs & _ & Hat); [|done].
      split; [congruence|]. split; [congruence|].
      destruct (attempt_cases _ _ _ _ Hat) as [[Hm Hnref]|[Hm Hnacc]].
      * exists (marked ++ [x]).
        split; [by apply sublist_app|].
        split; [|split].
        -- intros r [Hr|Hr]%elem_of_app; [by apply Hmarked|].
           by apply list_elem_of_singleton in Hr as ->.
        -- by rewrite mark_synced_all_snoc, Hm, Hdb.
        -- intros Hrel Hauth r [Hr|Hr]%elem_of_app Hs Hacc.
           ++ apply elem_of_app. left. by apply Hall.
           ++ apply elem_of_app. by right.
      * exists marked.
        split; [by apply sublist_inserts_r|]. split; [done|].
        split; [by rewrite Hm|].
        intros Hrel Hauth r [Hr|Hr]%elem_of_app Hs Hacc; [by apply Hall|].
        apply list_elem_of_singleton in Hr as ->. by destruct Hnacc.
  - intros [] w1 (Hst & Htm & Hrest). done.
Qed.

(** A full drain pass, once past the guard. *)
Lemma wp_sync w :
  isOnline (store w) = true -> syncInProgress (store w) = false ->
  pendingReports (store w) <> [] ->
  wp P syncPendingReports
    (fun w' out =>
       out = Returned tt /\ timers w' = timers w /\
       isOnline (store w') = isOnline (store w) /\
       syncInProgress (store w') = false /\
       exists marked,
         sublist marked (pendingReports (store w)) /\
         (forall r, r ∈ marked -> synced r = false /\ ~ gateway_refuses P r) /\
         db w' = mark_synced_all marked (db w) /\
         (reliable_storage P -> auth_answers P ->
          forall r, r ∈ pendingReports (store w) -> synced r = false ->
                    gateway_accepts P r -> r ∈ marked) /\
         (pendingReports (store w') = pendingReports (store w) \/
          pendingReports (store w')
          = array_sort newest_first_cmp (pending_values (db w'))) /\
         (reliable_storage P ->
          pendingReports (store w')
          = array_sort newest_first_cmp (pending_values (db w')))) w.
Proof.
  intros Hon Hbusy Hne. unfold syncPendingReports.
  apply wp_bind, wp_perform. cbn [perform fst snd].
  rewrite Hon, Hbusy. cbn [negb orb].
  destruct (pendingReports (store w)) as [|r0 batch] eqn:Hbatch; [done|].
  cbn [length Nat.eqb].
  apply wp_bind, wp_perform. cbn [perform fst snd].
  apply wp_try_finally, wp_try_catch, wp_bind.
  eapply wp_mono; [apply wp_drain_loop|].
  cbn [store timers db set_store].
  intros w1 out1 (-> & Hst1 & Htm1 & marked & Hsub & Hmarked & Hdb1 & Hall).
  apply wp_await_load.
  intros w2 (Hdb2 & Htm2 & Hon2 & Hbusy2 & Hproj).
  apply wp_perform. cbn.
  split; [done|]. split; [congruence|].
  split; [by rewrite Hon2, Hst1|]. split; [done|].
  exists marked. split; [done|]. split; [done|].
  split; [congruence|]. split; [done|].
  rewrite Hdb2.
  destruct Hproj as [(_ & Hp & _)|(Hko & Hp & _)].
  - split; [by right|done].
  - split; [left; by rewrite Hp, Hst1|].
    intros Hrel. by rewrite Hrel in Hko.
Qed.

End DrainFacts.

(** ** The database after a drain *)

Lemma NoDup_fmap_eq {A B} (f : A -> B) (l : list A) x y :
  NoDup (map f l) -> x ∈ l -> y ∈ l -> f x = f y -> x = y.
Proof.
  induction l as [|a l IH]; intros Hnd Hx Hy Hf; [by apply elem_of_nil in Hx|].
  simpl in Hnd. apply NoDup_cons in Hnd as [Ha Hnd].
  apply elem_of_cons in Hx as [->|Hx]; apply elem_of_cons in Hy as [->|Hy].
  - done.
  - exfalso. apply Ha. rewrite Hf. apply list_elem_of_fmap. eauto.
  - exfalso. apply Ha. rewrite <- Hf. apply list_elem_of_fmap. eauto.
  - by apply IH.
Qed.

Lemma mark_synced_all_other marked m key :
  key ∉ map id marked -> mark_synced_all marked m !! key = m !! key.
Proof.
  induction marked as [|r marked IH] using rev_ind; intros Hkey; [done|].
  rewrite mark_synced_all_snoc. rewrite map_app in Hkey.
  rewrite lookup_insert_ne.
  - apply IH. intros Hin. apply Hkey, elem_of_app. by left.
  - intros Heq. apply Hkey, elem_of_app. right. rewrite <- Heq. by left.
Qed.

Lemma mark_synced_all_marked marked m r :
  NoDup (map id marked) -> r ∈ marked ->
  mark_synced_all marked m !! id r = Some (with_synced true r).
Proof.
  induction marked as [|r' marked IH] using rev_ind; intros Hnd Hr;
    [by apply elem_of_nil in Hr|].
  rewrite mark_synced_all_snoc.
  rewrite map_app in Hnd. apply NoDup_app in Hnd as (Hnd & Hdisj & _).
  apply elem_of_app in Hr as [Hr|Hr].
  - rewrite lookup_insert_ne; [by apply IH|].
    intros Heq. apply (Hdisj (id r)).
    + apply list_elem_of_fmap. eauto.
    + rewrite <- Heq. by left.
  - apply list_elem_of_singleton in Hr as ->. apply lookup_insert_eq.
Qed.

(** Whatever was marked, a stored record is still there, with all its
    fields and at worst its flag raised, as long as the marked records
    agree with what is stored under their ids. *)
Lemma mark_synced_all_keeps marked m key r :
  (forall x s, x ∈ marked -> m !! id x = Some s ->
               with_synced false s = with_synced false x) ->
  m !! key = Some r ->
  exists r', mark_synced_all marked m !! key = Some r' /\
             with_synced false r' = with_synced false r /\
             (synced r = true -> synced r' = true).
Proof.
  induction marked as [|x marked IH] using rev_ind; intros Hagree Hkey.
  - exists r. done.
  - rewrite mark_synced_all_snoc.
    destruct IH as (r' & Hr' & Hsame & Hup); [|done|].
    { intros y s Hy. apply Hagree, elem_of_app. by left. }
    destruct (decide (id x = key)) as [<-|Hne].
    + rewrite lookup_insert_eq. eexists. split; [done|].
      split; [|done].
      change (with_synced false x = with_synced false r).
      symmetry. apply Hagree; [|done]. apply elem_of_app. right. by left.
    + rewrite lookup_insert_ne by done. eauto.
Qed.

(** C1. Partial-failure isolation of the drain.  Take a batch of pending
    records in the projection, each stored as it is under its own id,
    with the store online and no drain running.  Let the gateway fail
    for the record [k] in every state (on one of its attachments or on
    its insert) and let it, for each record of the batch, either fail in
    every state or accept in every state (so: accept every record other
    than [k], when [k] is the only one that fails), with localforage and
    the user lookup answering.  Then one [syncPendingReports] pass
    returns normally; every accepted record of the batch is stored with
    [synced = true] and every other field as it was; [k], like every
    refused record, is stored exactly as before, with [synced = false],
    and is still in the projection; nothing else in the database moves;
    the in-progress flag is down again. *)
Theorem drain_isolates_failure {E} (P : Platform E) (w : World E)
    (k : OfflineReport) :
  isOnline (store w) = true ->
  syncInProgress (store w) = false ->
  k ∈ pendingReports (store w) ->
  NoDup (map id (pendingReports (store w))) ->
  (forall r, r ∈ pendingReports (store w) ->
             synced r = false /\ db w !! id r = Some r) ->
  reliable_storage P -> auth_answers P ->
  gateway_refuses P k ->
  (forall r, r ∈ pendingReports (store w) ->
             gateway_refuses P r \/ gateway_accepts P r) ->
  wp P syncPendingReports
    (fun w' out =>
       out = Returned tt /\
       (forall r, r ∈ pendingReports (store w) -> gateway_accepts P r ->
          exists r', db w' !! id r = Some r' /\ synced r' = true /\
                     agree_except_synced r' r) /\
       (forall r, r ∈ pendingReports (store w) -> gateway_refuses P r ->
          exists r', db w' !! id r = Some r' /\ synced r' = false /\ r' = r) /\
       (exists k', db w' !! id k = Some k' /\ synced k' = false /\ k' = k) /\
       (forall key, key ∉ map id (pendingReports (store w)) ->
                    db w' !! key = db w !! key) /\
       syncInProgress (store w') = false /\
       k ∈ pendingReports (store w')) w.
Proof.
  intros Hon Hbusy Hk Hnd Hbatch Hrel Hauth Hrefuse Heach.
  eapply wp_mono; [apply wp_sync; [done|done|]|].
  { intros Hnil. rewrite Hnil in Hk. by apply elem_of_nil in Hk. }
  intros w' out (-> & _ & _ & Hflag & marked & Hsub & Hmarked & Hdb & Hall
                 & _ & Hproj).
  assert (Hnd' : NoDup (map id marked)).
  { eapply sublist_NoDup; [exact Hnd|]. by apply (fmap_sublist id). }
  assert (Hin : forall r, r ∈ marked -> r ∈ pendingReports (store w)).
  { intros r Hr. by eapply elem_of_sublist. }
  assert (Hkept : forall r, r ∈ pendingReports (store w) ->
                    gateway_refuses P r -> db w' !! id r = Some r).
  { intros r Hr Href. rewrite Hdb, mark_synced_all_other; [by apply Hbatch|].
    intros (r0 & Hid & Hr0)%list_elem_of_fmap.
    assert (r0 = r) as ->.
    { apply (NoDup_fmap_eq id (pendingReports (store w))); auto. }
    by destruct (Hmarked r Hr0). }
  split; [done|]. split; [|split; [|split; [|split; [|split; [done|]]]]].
  - intros r Hr Hacc. exists (with_synced true r). split.
    + rewrite Hdb. apply mark_synced_all_marked; [done|].
      apply Hall; try done. by apply Hbatch.
    + split; [done|]. by repeat split.
  - intros r Hr Href. exists r. split; [by apply Hkept|].
    split; [by apply Hbatch|done].
  - exists k. split; [by apply Hkept|]. split; [by apply Hbatch|done].
  - intros key Hkey. rewrite Hdb. apply mark_synced_all_other.
    intros (r & -> & Hr)%list_elem_of_fmap. apply Hkey.
    apply list_elem_of_fmap. eauto.
  - rewrite (Hproj Hrel). apply array_sort_elem, pending_values_elem.
    exists (id k). split; [by apply Hkept|]. by apply Hbatch.
Qed.

Lemma drain_isolates_failure_witness :
  let r1 := demo_report "a" "spill" None 10 false in
  let k := demo_report "b" "oil" (Some [photo "x.jpg"; photo "corrupt.jpg"]) 20 false in
  let r3 := demo_report "c" "waves" (Some [photo "x.jpg"; photo "y.jpg"]) 30 false in
  let w := demo_world true false [r3; k; r1] [r1; k; r3] 1000 in
  wp (demo_platform false) syncPendingReports
    (fun w' out =>
       out = Returned tt /\
       (exists r1', db w' !! "a" = Some r1' /\ synced r1' = true /\
                    agree_except_synced r1' r1) /\
       (exists r3', db w' !! "c" = Some r3' /\ synced r3' = true /\
                    agree_except_synced r3' r3) /\
       (exists k', db w' !! "b" = Some k' /\ synced k' = false /\ k' = k) /\
       syncInProgress (store w') = false /\
       k ∈ pendingReports (store w')) w.
Proof.
  intros r1 k r3 w.
  assert (Haccepts : forall r, r = r1 \/ r = r3 ->
                       gateway_accepts (demo_platform false) r).
  { intros r [-> | ->]; (split; [|intros e urls uid; reflexivity]);
      intros file Hf;
      repeat (apply elem_of_cons in Hf as [->|Hf];
              [intros e n; reflexivity|]);
      by apply elem_of_nil in Hf. }
  eapply wp_mono.
  - apply (drain_isolates_failure (demo_platform false) w k).
    + reflexivity.
    + reflexivity.
    + right. left.
    + simpl. repeat constructor; intros H;
        repeat (apply elem_of_cons in H as [H|H]; [discriminate H|]);
        by apply elem_of_nil in H.
    + intros r Hr.
      repeat (apply elem_of_cons in Hr as [->|Hr]; [split; reflexivity|]).
      by apply elem_of_nil in Hr.
    + intros e c. reflexivity.
    + intros e err. discriminate.
    + left. exists (photo "corrupt.jpg"). split; [right; left|].
      intros e n. reflexivity.
    + intros r Hr.
      apply elem_of_cons in Hr as [->|Hr]; [right; apply Haccepts; by right|].
      apply elem_of_cons in Hr as [->|Hr].
      { left. left. exists (photo "corrupt.jpg"). split; [right; left|].
        intros e n. reflexivity. }
      apply elem_of_cons in Hr as [->|Hr]; [right; apply Haccepts; by left|].
      by apply elem_of_nil in Hr.
  - intros w' out (Hout & Hacc & _ & Hk & _ & Hflag & Hin).
    split; [exact Hout|].
    split; [apply (Hacc r1); [right; right; left|apply Haccepts; by left]|].
    split; [apply (Hacc r3); [left|apply Haccepts; by right]|].
    split; [exact Hk|]. split; [exact Hflag|exact Hin].
Defined.

(** ** [setOnlineStatus] and [addPendingReport] *)

Section EnqueueFacts.
Context {E : Type} (P : Platform E).
Implicit Types w : World E.

Lemma run_setOnlineStatus status w :
  run P (setOnlineStatus status) w =
  (set_timers
     (timers w ++ (if status then [(1000, TaskSyncPendingReports)] else []))
     (set_store (set_isOnline status (store w)) w),
   Returned tt).
Proof.
  destruct status; cbn; [done|].
  destruct w as [s m t tr e]. cbn. by rewrite app_nil_r.
Qed.

(** What [addPendingReport] does: nothing but a failed write when
    [setItem] throws; otherwise the record is written under its id,
    appended to the projection, and a drain is armed if the store is
    online. *)
Lemma wp_add reportData w :
  wp P (addPendingReport reportData)
    (fun w' out =>
       let report := enqueued_report P reportData w in
       if enqueue_write_fails P reportData w then
         out = Thrown (StorageError (LfSetItem (id report))) /\
         store w' = store w /\ db w' = db w /\ timers w' = timers w
       else
         out = Returned tt /\
         db w' = <[id report := report]> (db w) /\
         store w' = set_pendingReports (pendingReports (store w) ++ [report]) (store w) /\
         timers w' = timers w ++
           (if isOnline (store w) then [(500, TaskSyncPendingReports)] else [])) w.
Proof.
  unfold wp, addPendingReport, enqueued_report, enqueue_write_fails.
  cbn [bind perform_op run perform].
  destruct (date_now P (ext w)) as [e1 now]. cbn [ext set_ext].
  destruct (math_random36 P e1) as [e2 suffix]. cbn [ext set_ext].
  destruct (date_now P e2) as [e3 created]. cbn [ext set_ext].
  unfold localforage_setItem. cbn [bind perform_op run perform].
  unfold storage_call. cbn [ext set_ext new_report id].
  destruct (lf_fault P e3 (LfSetItem (offline_id now suffix))) as [e4 failed].
  destruct failed; cbn; [done|].
  destruct (isOnline (store w)); cbn; [done|].
  by rewrite app_nil_r.
Qed.

End EnqueueFacts.

Lemma payload_new_report reportData rid created :
  payload (new_report reportData rid created) = reportData.
Proof. by destruct reportData. Qed.

Lemma newest_first_snoc l x :
  newest_first (l ++ [x]) <->
  newest_first l /\ forall r, r ∈ l -> created_at x <= created_at r.
Proof.
  unfold newest_first. induction l as [|a l IH]; simpl.
  - split; [|repeat constructor].
    intros _. split; [constructor|]. by intros r ?%elem_of_nil.
  - split.
    + intros H. apply StronglySorted_inv in H as [Hl Ha].
      apply IH in Hl as [Hl Hx]. apply Forall_app in Ha as [Ha Hax].
      split; [by constructor|].
      intros r [->|Hr]%elem_of_cons; [|by apply Hx].
      by apply (Forall_singleton (fun b => created_at b <= created_at a)) in Hax.
    + intros [H Hx]. apply StronglySorted_inv in H as [Hl Ha].
      constructor.
      * apply IH. split; [done|]. intros r Hr. apply Hx. by right.
      * apply Forall_app. split; [done|].
        apply (Forall_singleton (fun b => created_at b <= created_at a)), Hx.
        by left.
Qed.



(** C5. The projection after an enqueue is not newest first.  With one
    record created at 10 in a projection that is newest first, an enqueue
    at clock 1000 succeeds and leaves the projection with the new record
    last: the [created_at] values read [10; 1001], so the newer record
    stands behind the older one.  A [loadPendingReports] from that state
    puts it first. *)
Lemma enqueue_breaks_newest_first :
  let old := demo_report "a" "spill" None 10 false in
  let w := demo_world false false [old] [old] 1000 in
  let w' := (run (demo_platform false) (addPendingReport (demo_data "waves" None)) w).1 in
  let reloaded := (run (demo_platform false) loadPendingReports w').1 in
  newest_first (pendingReports (store w)) /\
  (run (demo_platform false) (addPendingReport (demo_data "waves" None)) w).2
  = Returned tt /\
  map created_at (pendingReports (store w')) = [10; 1001] /\
  ~ newest_first (pendingReports (store w')) /\
  map created_at (pendingReports (store reloaded)) = [1001; 10].
Proof.
  intros old w w' reloaded.
  split; [repeat constructor|]. split; [reflexivity|]. split; [reflexivity|].
  split; [|by vm_compute].
  intros H. apply StronglySorted_inv in H as [_ H].
  apply Forall_cons in H as [H _]. vm_compute in H. by apply H.
Qed.

(** ** Stored records are never rewritten *)

Section ImmutabilityFacts.
Context {E : Type} (P : Platform E).
Implicit Types w : World E.

Lemma record_kept_refl m key r : m !! key = Some r -> record_kept m key r.
Proof. intros H. exists r. done. Qed.

Lemma consistent_same w w' :
  db w' = db w -> pendingReports (store w') = pendingReports (store w) ->
  consistent w -> consistent w'.
Proof.
  intros Hdb Hp [H1 H2 H3]. split; rewrite ?Hdb, ?Hp; done.
Qed.

(** A projection freshly read from a database with proper keys. *)
Lemma consistent_loaded w w' :
  db w' = db w ->
  pendingReports (store w')
  = array_sort newest_first_cmp (pending_values (db w)) ->
  (forall key r, db w !! key = Some r -> id r = key) ->
  consistent w'.
Proof.
  intros Hdb Hp Hkeys.
  assert (Hin : forall x, x ∈ pendingReports (store w') -> db w !! id x = Some x).
  { intros x. rewrite Hp, array_sort_elem, pending_values_elem.
    intros (key & Hkey & _). by rewrite (Hkeys _ _ Hkey). }
  split; rewrite ?Hdb.
  - done.
  - intros x y Hx%Hin Hy%Hin Hid. rewrite Hid in Hx. congruence.
  - intros x s Hx%Hin Hs. congruence.
Qed.

Lemma run_sync_guarded w :
  isOnline (store w) = false \/ syncInProgress (store w) = true \/
  pendingReports (store w) = [] ->
  run P syncPendingReports w = (w, Returned tt).
Proof.
  intros Hguard. unfold syncPendingReports. cbn [bind perform_op run perform].
  destruct Hguard as [-> | [-> | ->]]; cbn [negb orb length Nat.eqb].
  - done.
  - by rewrite orb_true_r.
  - by rewrite orb_true_r.
Qed.

Lemma mark_synced_all_lookup marked m key r' :
  mark_synced_all marked m !! key = Some r' ->
  m !! key = Some r' \/
  exists x, x ∈ marked /\ key = id x /\ r' = with_synced true x.
Proof.
  induction marked as [|x marked IH] using rev_ind; [by left|].
  rewrite mark_synced_all_snoc.
  destruct (decide (id x = key)) as [<-|Hne].
  - rewrite lookup_insert_eq. intros [= <-]. right. exists x.
    split; [|done]. apply elem_of_app. right. by left.
  - rewrite lookup_insert_ne by done. intros [H|(y & Hy & H)]%IH; [by left|].
    right. exists y. split; [|done]. apply elem_of_app. by left.
Qed.

(** After a drain that marked [marked], a sublist of the projection. *)
Lemma consistent_marked w w' marked :
  consistent w ->
  sublist marked (pendingReports (store w)) ->
  db w' = mark_synced_all marked (db w) ->
  (pendingReports (store w') = pendingReports (store w) \/
   pendingReports (store w')
   = array_sort newest_first_cmp (pending_values (db w'))) ->
  consistent w' /\
  forall key r, db w !! key = Some r -> record_kept (db w') key r.
Proof.
  intros [Hkeys Hpair Hstored] Hsub Hdb Hproj.
  assert (Hin : forall x, x ∈ marked -> x ∈ pendingReports (store w)).
  { intros x Hx. by eapply elem_of_sublist. }
  assert (Hkeys' : forall key r, db w' !! key = Some r -> id r = key).
  { intros key r. rewrite Hdb.
    intros [H|(x & _ & -> & ->)]%mark_synced_all_lookup; [by eapply Hkeys|done]. }
  split.
  - destruct Hproj as [Hp|Hp].
    + split; rewrite ?Hp; [done|done|].
      intros x s Hx. rewrite Hdb.
      intros [H|(y & Hy & Hid & ->)]%mark_synced_all_lookup; [by eapply Hstored|].
      change (same_fields y x). apply Hpair; auto.
    + by eapply (consistent_loaded w').
  - intros key r Hr. rewrite Hdb. apply mark_synced_all_keeps; [|done].
    intros x s Hx Hs. by eapply Hstored; [apply Hin|].
Qed.

(** The drain passes over records whose flag is up without any effect. *)
Lemma run_sync_report_synced report w :
  synced report = true -> run P (sync_report report) w = (w, Returned tt).
Proof. intros Hs. unfold sync_report. by rewrite Hs. Qed.

Lemma run_drain_loop_synced batch w :
  (forall r, r ∈ batch -> synced r = true) ->
  run P (for_of batch tt (fun report _ => sync_report report)) w
  = (w, Returned tt).
Proof.
  induction batch as [|r batch IH]; intros Hall; [done|].
  cbn [for_of]. rewrite run_bind, run_sync_report_synced by (apply Hall; by left).
  cbn [fst snd]. apply IH. intros r' Hr'. apply Hall. by right.
Qed.

Lemma wp_sync_all_synced w :
  (forall r, r ∈ pendingReports (store w) -> synced r = true) ->
  wp P syncPendingReports
    (fun w' out =>
       out = Returned tt /\ db w' = db w /\
       filter (fun ev => is_gateway_event ev = true) (trace w')
       = filter (fun ev => is_gateway_event ev = true) (trace w)) w.
Proof.
  intros Hall.
  destruct (isOnline (store w)) eqn:Hon;
    [|unfold wp; rewrite run_sync_guarded by auto; done].
  destruct (syncInProgress (store w)) eqn:Hbusy;
    [unfold wp; rewrite run_sync_guarded by auto; done|].
  destruct (pendingReports (store w)) as [|r0 batch] eqn:Hbatch;
    [unfold wp; rewrite run_sync_guarded by auto; done|].
  unfold syncPendingReports.
  apply wp_bind, wp_perform. cbn [perform fst snd].
  rewrite Hon, Hbusy, Hbatch. cbn [negb orb length Nat.eqb].
  apply wp_bind, wp_perform. cbn [perform fst snd].
  apply wp_try_finally, wp_try_catch, wp_bind.
  unfold wp at 1. rewrite run_drain_loop_synced by done. cbn [fst snd].
  apply wp_await_load. cbn [db trace set_store].
  intros w2 (Hdb2 & _ & _ & _ & Hproj).
  apply wp_perform. cbn. split; [done|]. split; [done|].
  destruct Hproj as [(_ & _ & ->)|(_ & _ & ->)]; by rewrite filter_app, app_nil_r.
Qed.

End ImmutabilityFacts.

Lemma db_of_keys l key r : db_of l !! key = Some r -> id r = key.
Proof.
  unfold db_of. intros H%elem_of_list_to_map_2.
  apply list_elem_of_fmap in H as (x & [= -> ->] & _). done.
Qed.

Lemma same_fields_agree (a b : OfflineReport) :
  same_fields a b -> agree_except_synced a b.
Proof.
  unfold same_fields, with_synced. intros [= ? ? ? ? ? ? ? ? ? ? ? ?].
  by repeat split.
Qed.

Lemma stored_records_kept {E} (P : Platform E) (c : call) (w : World E) :
  consistent w ->
  (forall reportData, c = CallAddPendingReport reportData ->
                      fresh_id w (id (enqueued_report P reportData w))) ->
  wp P (action c)
    (fun w' _ =>
       consistent w' /\
       forall key r, db w !! key = Some r ->
         record_kept (db w') key r \/
         (c = CallClearSyncedReports /\ synced r = true /\
          db w' !! key = None)) w.
Proof.
  revert c w.
  intros c w Hw Hfresh. destruct c as [status|reportData| | |]; cbn [action].
  - unfold wp. rewrite run_setOnlineStatus. cbn [fst snd].
    split; [by apply (consistent_same w)|].
    intros key r Hr. left. by apply record_kept_refl.
  - eapply wp_mono; [apply wp_add|]. intros w' out. cbn zeta.
    destruct (Hfresh reportData eq_refl) as [Hnew Hproj].
    destruct (enqueue_write_fails P reportData w).
    + intros (_ & Hst & Hdb & _).
      split; [apply (consistent_same w); [done|by rewrite Hst|done]|].
      intros key r Hr. left. rewrite Hdb. by apply record_kept_refl.
    + intros (_ & Hdb & Hst & _).
      destruct Hw as [Hkeys Hpair Hstored].
      assert (Hid : id (enqueued_report P reportData w)
                    = id (enqueued_report P reportData w)) by done.
      split; [split|]; rewrite ?Hdb, ?Hst;
        cbn [pendingReports set_pendingReports].
      * intros key r.
        destruct (decide (id (enqueued_report P reportData w) = key)) as [<-|Hne].
        -- rewrite lookup_insert_eq. by intros [= <-].
        -- rewrite lookup_insert_ne by done. apply Hkeys.
      * intros x y [Hx|Hx]%elem_of_app [Hy|Hy]%elem_of_app Hxy.
        -- by apply Hpair.
        -- apply list_elem_of_singleton in Hy as ->. by destruct (Hproj x Hx).
        -- apply list_elem_of_singleton in Hx as ->. by destruct (Hproj y Hy).
        -- apply list_elem_of_singleton in Hx as ->.
           by apply list_elem_of_singleton in Hy as ->.
      * intros x s [Hx|Hx]%elem_of_app.
        -- rewrite lookup_insert_ne by (intros Heq; by destruct (Hproj x Hx)).
           by apply Hstored.
        -- apply list_elem_of_singleton in Hx as ->.
           rewrite lookup_insert_eq. by intros [= <-].
      * intros key r Hr. left. apply record_kept_refl.
        rewrite lookup_insert_ne; [done|]. intros Heq. congruence.
  - apply wp_load. intros w' (Hdb & _ & _ & _ & Hproj).
    split.
    + destruct Hproj as [(_ & Hp & _)|(_ & Hp & _)].
      * eapply (consistent_loaded w w'); [done|done|apply Hw].
      * apply (consistent_same w); [done|by rewrite Hp|done].
    + intros key r Hr. left. rewrite Hdb. by apply record_kept_refl.
  - destruct (isOnline (store w)) eqn:Hon; [|].
    2: { unfold wp. rewrite run_sync_guarded by auto. cbn [fst snd].
         split; [done|]. intros key r Hr. left. by apply record_kept_refl. }
    destruct (syncInProgress (store w)) eqn:Hbusy.
    { unfold wp. rewrite run_sync_guarded by auto. cbn [fst snd].
      split; [done|]. intros key r Hr. left. by apply record_kept_refl. }
    destruct (pendingReports (store w)) as [|r0 batch] eqn:Hbatch.
    { unfold wp. rewrite run_sync_guarded by auto. cbn [fst snd].
      split; [done|]. intros key r Hr. left. by apply record_kept_refl. }
    eapply wp_mono; [apply wp_sync; [done|done|by rewrite Hbatch]|].
    intros w' out (_ & _ & _ & _ & marked & Hsub & _ & Hdb & _ & Hproj & _).
    rewrite Hbatch in Hsub, Hproj. rewrite <- Hbatch in Hsub, Hproj.
    destruct (consistent_marked w w' marked Hw Hsub Hdb Hproj) as [Hw' Hkept].
    split; [done|]. intros key r Hr. left. by apply Hkept.
  - eapply wp_mono; [apply wp_clear|].
    intros w' out (_ & _ & _ & _ & removed & Hsub & Hdb & Hproj & _).
    destruct Hw as [Hkeys Hpair Hstored].
    assert (Hold : forall key r, db w' !! key = Some r -> db w !! key = Some r).
    { intros key r. rewrite Hdb. by destruct (decide (key ∈ removed)). }
    split.
    + destruct Hproj as [Hp|Hp].
      * split; rewrite ?Hp; [|done|].
        -- intros key r Hr%Hold. by eapply Hkeys.
        -- intros x s Hx Hs%Hold. by eapply Hstored.
      * apply (consistent_loaded w' w'); [done|done|].
        intros key r Hr%Hold. by eapply Hkeys.
    + intros key r Hr.
      destruct (decide (key ∈ removed)) as [Hin|Hnin].
      * right. split; [done|].
        destruct (proj1 (synced_keys_elem _ _) (Hsub _ Hin)) as (r' & Hr' & Hs').
        split; [congruence|]. rewrite Hdb. by rewrite decide_True.
      * left. apply record_kept_refl. rewrite Hdb. by rewrite decide_False.
Qed.

(** X21. Stored records are never rewritten.  From a state in which
    records are stored under their ids and the projection agrees with
    itself and with the database on every field but [synced], and with
    an enqueue drawing an id that is not in use, every action (online
    report, enqueue, load, drain, clear), whatever fails on its way,
    leaves such a state again, and every stored record is afterwards
    either stored under the same key with every field but [synced]
    unchanged and a raised flag still raised, or removed by
    [clearSyncedReports], and then its flag was up. *)
Theorem stored_records_immutable {E} (P : Platform E) (c : call)
    (w : World E) :
  consistent w ->
  (forall reportData, c = CallAddPendingReport reportData ->
                      fresh_id w (id (enqueued_report P reportData w))) ->
  wp P (action c)
    (fun w' _ =>
       consistent w' /\
       forall key r, db w !! key = Some r ->
         (exists r', db w' !! key = Some r' /\ agree_except_synced r' r /\
                     (synced r = true -> synced r' = true)) \/
         (c = CallClearSyncedReports /\ synced r = true /\
          db w' !! key = None)) w.
Proof.
  intros Hw Hfresh. eapply wp_mono; [by apply stored_records_kept|].
  intros w' out [Hw' Hkept]. split; [done|].
  intros key r Hr. destruct (Hkept key r Hr) as [(r' & Hr' & Hsame & Hup)|H].
  - left. exists r'. split; [done|]. split; [by apply same_fields_agree|done].
  - by right.
Qed.

Lemma stored_records_immutable_witness :
  let old := demo_report "a" "spill" None 10 true in
  let r := demo_report "b" "waves" (Some [photo "x.jpg"]) 20 false in
  let w := demo_world true false [r] [old; r] 1000 in
  consistent w /\
  wp (demo_platform false) syncPendingReports
    (fun w' _ =>
       (exists old', db w' !! "a" = Some old' /\ agree_except_synced old' old /\
                     synced old' = true) /\
       (exists r', db w' !! "b" = Some r' /\ agree_except_synced r' r)) w.
Proof.
  intros old r w.
  assert (Hw : consistent w).
  { split.
    - intros key x. apply db_of_keys.
    - intros x y Hx%list_elem_of_singleton Hy%list_elem_of_singleton _.
      by subst.
    - intros x s Hx%list_elem_of_singleton. subst x.
      intros [= <-]. done. }
  split; [exact Hw|].
  eapply wp_mono.
  - apply (stored_records_immutable (demo_platform false)
             CallSyncPendingReports w Hw).
    intros d Hd. discriminate Hd.
  - intros w' out [_ Hkept]. split.
    + destruct (Hkept "a" old eq_refl) as [(old' & H1 & H2 & H3)|(H & _)];
        [|discriminate H].
      exists old'. split; [exact H1|]. split; [exact H2|]. by apply H3.
    + destruct (Hkept "b" r eq_refl) as [(r' & H1 & H2 & _)|(H & _)];
        [|discriminate H].
      exists r'. split; [exact H1|exact H2].
Defined.

(** C2. A record marked synced in the store is sent again.  Start with
    one pending record [a] stored, the store online, and a localforage
    whose second [iterate] fails.  [loadPendingReports] puts [a] in the
    projection.  The first [syncPendingReports] inserts [a] and marks it
    [synced = true] in the store, but its reload fails, so the
    projection keeps its copy of [a] with [synced = false].  The second
    [syncPendingReports] passes the test [if (report.synced) continue]
    on that copy and inserts the same row once more: two successful
    inserts for a record that was already marked synced before the
    second pass. *)
Lemma synced_record_inserted_again :
  let a := demo_report "a" "spill" None 10 false in
  let row := insert_row a [] (Some "user-1") in
  let w0 := initial_world true (db_of [a]) (0, 0%nat) in
  let w1 := (run flaky_platform loadPendingReports w0).1 in
  let w2 := (run flaky_platform syncPendingReports w1).1 in
  let w3 := (run flaky_platform syncPendingReports w2).1 in
  pendingReports (store w1) = [a] /\
  synced <$> (db w2 !! "a") = Some true /\
  pendingReports (store w2) = [a] /\ synced a = false /\
  filter (fun ev => is_insert_event ev = true) (trace w2)
  = [EvInsert row true] /\
  filter (fun ev => is_insert_event ev = true) (trace w3)
  = [EvInsert row true; EvInsert row true].
Proof. by vm_compute. Qed.

(** ** The in-progress flag under interleaving *)

Section FlagFacts.
Context {E : Type} (P : Platform E).
Implicit Types w : World E.

Lemma storage_call_store c w : store (storage_call P c w).1 = store w.
Proof. unfold storage_call. by destruct (lf_fault P (ext w) c). Qed.

Lemma perform_keeps_flag {X} (o : op X) w :
  keeps_flag o ->
  syncInProgress (store (perform P o w).1) = syncInProgress (store w).
Proof.
  destruct o; cbn; intros Hk; try done;
    try (match goal with
         | |- context [storage_call P ?c w] =>
             pose proof (storage_call_store c w) as Hst;
             destruct (storage_call P c w) as [w1 []]; cbn in *; by rewrite Hst
         end);
    repeat match goal with
           | |- context [let '(_, _) := ?x in _] => destruct x
           end; done.
Qed.

Lemma quiet_bind {A B} (p : prog A) (f : A -> prog B) :
  quiet p -> (forall a, quiet (f a)) -> quiet (bind p f).
Proof. induction 1; intros Hf; cbn; [apply Hf|constructor|constructor; auto]. Qed.

Lemma quiet_try_catch {A} (p : prog A) h :
  quiet p -> (forall e, quiet (h e)) -> quiet (try_catch p h).
Proof. induction 1; intros Hh; cbn; [constructor|apply Hh|constructor; auto]. Qed.

Lemma quiet_perform_op {X} (o : op X) : keeps_flag o -> quiet (perform_op o).
Proof. intros Hk. constructor; [done|]. constructor. Qed.

Lemma quiet_for_of {A S} (l : list A) (s : S) body :
  (forall x s, quiet (body x s)) -> quiet (for_of l s body).
Proof.
  intros Hbody. revert s. induction l as [|x l IH]; intros s; cbn.
  - constructor.
  - by apply quiet_bind.
Qed.

Lemma closing_try_finally {A} (p : prog A) :
  quiet p ->
  closing (try_finally p (perform_op (SetState (set_syncInProgress false)))).
Proof.
  induction 1; cbn.
  - by constructor.
  - by constructor.
  - by apply closing_op.
Qed.

Create HintDb quiet discriminated.

Ltac quiet_step :=
  first
    [ solve [auto with quiet]
    | apply quiet_bind; [|intros ?]
    | apply quiet_try_catch; [|intros ?]
    | apply quiet_for_of; intros ? ?
    | apply quiet_perform_op; cbn; solve [done]
    | apply quiet_ret
    | apply quiet_throw
    | match goal with
      | |- quiet (match ?x with _ => _ end) => destruct x
      end ].

Lemma quiet_setItem key value : quiet (localforage_setItem key value).
Proof. unfold localforage_setItem. repeat quiet_step. Qed.

Lemma quiet_removeItem key : quiet (localforage_removeItem key).
Proof. unfold localforage_removeItem. repeat quiet_step. Qed.

Lemma quiet_iterate {S} (callback : OfflineReport -> string -> S -> S) locals :
  quiet (localforage_iterate callback locals).
Proof. unfold localforage_iterate. repeat quiet_step. Qed.

#[local] Hint Resolve quiet_setItem quiet_removeItem quiet_iterate : quiet.

Lemma quiet_load : quiet loadPendingReports.
Proof. unfold loadPendingReports. repeat quiet_step. Qed.

#[local] Hint Resolve quiet_load : quiet.

Lemma quiet_await_load : quiet await_loadPendingReports.
Proof. unfold await_loadPendingReports. repeat quiet_step. Qed.

Lemma quiet_upload_file file mediaUrls : quiet (upload_file file mediaUrls).
Proof. unfold upload_file. repeat quiet_step. Qed.

#[local] Hint Resolve quiet_await_load quiet_upload_file : quiet.

Lemma quiet_sync_report report : quiet (sync_report report).
Proof. unfold sync_report, sync_attempt. repeat quiet_step. Qed.

#[local] Hint Resolve quiet_sync_report : quiet.

Lemma quiet_action c : is_sync_call c = false -> quiet (action c).
Proof.
  destruct c as [status|reportData| | |]; intros Hc; [..|done|]; cbn [action].
  - unfold setOnlineStatus. repeat quiet_step.
  - unfold addPendingReport. repeat quiet_step.
  - apply quiet_load.
  - unfold clearSyncedReports. repeat quiet_step.
Qed.

(** The body of a drain past its guard. *)
Lemma closing_drain batch :
  closing
    (try_finally
       (try_catch
          (do for_of batch tt (fun report _ => sync_report report);
           await_loadPendingReports)%prog
          (fun error => perform_op (ConsoleError "Error during sync:" error)))
       (perform_op (SetState (set_syncInProgress false)))).
Proof. apply closing_try_finally. repeat quiet_step. Qed.

End FlagFacts.

Section InterleavingFacts.
Context {E : Type} (P : Platform E).
Implicit Types w : World E.

Lemma sync_run_quiet {A} (p : prog A) w :
  quiet p ->
  syncInProgress (store (sync_run P p w).1) = syncInProgress (store w) /\
  quiet (sync_run P p w).2.
Proof.
  intros Hq. revert w. induction Hq as [a|e|X o k Hk Hq IH]; intros w; cbn.
  - split; [done|constructor].
  - split; [done|constructor].
  - destruct (awaited o); cbn; [split; [done|by constructor]|].
    pose proof (perform_keeps_flag P o w Hk) as Hflag.
    destruct (perform P o w) as [w1 x]. cbn in Hflag.
    destruct (IH x w1) as [H1 H2]. split; [congruence|done].
Qed.

Lemma resume_quiet {A} (p : prog A) w :
  quiet p ->
  syncInProgress (store (resume P p w).1) = syncInProgress (store w) /\
  quiet (resume P p w).2.
Proof.
  intros Hq. destruct Hq as [a|e|X o k Hk Hq]; cbn.
  - split; [done|constructor].
  - split; [done|constructor].
  - pose proof (perform_keeps_flag P o w Hk) as Hflag.
    destruct (perform P o w) as [w1 x]. cbn in Hflag.
    destruct (sync_run_quiet (k x) w1 (Hq x)) as [H1 H2].
    split; [congruence|done].
Qed.

(** A drain past its guard either ends, with the flag down, or reaches
    its next [await] with the flag still up. *)
Lemma sync_run_closing {A} (p : prog A) w :
  closing p -> syncInProgress (store w) = true ->
  (finished (sync_run P p w).2 = true /\
   syncInProgress (store (sync_run P p w).1) = false)
  \/
  (finished (sync_run P p w).2 = false /\ closing (sync_run P p w).2 /\
   syncInProgress (store (sync_run P p w).1) = true).
Proof.
  intros Hc. revert w. induction Hc as [k Hk|X o k Hk Hc IH]; intros w Hflag.
  - left. cbn. specialize (Hk tt). by destruct (k tt).
  - cbn. destruct (awaited o); cbn.
    + right. split; [done|]. split; [by apply closing_op|done].
    + pose proof (perform_keeps_flag P o w Hk) as Hkeep.
      destruct (perform P o w) as [w1 x]. cbn in Hkeep.
      apply IH. congruence.
Qed.

Lemma resume_closing {A} (p : prog A) w :
  closing p -> syncInProgress (store w) = true ->
  (finished (resume P p w).2 = true /\
   syncInProgress (store (resume P p w).1) = false)
  \/
  (finished (resume P p w).2 = false /\ closing (resume P p w).2 /\
   syncInProgress (store (resume P p w).1) = true).
Proof.
  intros Hc Hflag. destruct Hc as [k Hk|X o k Hk Hc].
  - left. cbn. specialize (Hk tt). by destruct (k tt).
  - cbn. pose proof (perform_keeps_flag P o w Hk) as Hkeep.
    destruct (perform P o w) as [w1 x]. cbn in Hkeep.
    apply sync_run_closing; [done|congruence].
Qed.

(** The guard stops the call before anything happens. *)
Lemma sync_run_sync_guarded w :
  isOnline (store w) = false \/ syncInProgress (store w) = true \/
  pendingReports (store w) = [] ->
  sync_run P syncPendingReports w = (w, Ret tt).
Proof.
  intros Hguard. unfold syncPendingReports.
  cbn [bind perform_op sync_run awaited perform].
  destruct Hguard as [-> | [-> | ->]]; cbn [negb orb length Nat.eqb].
  - done.
  - by rewrite orb_true_r.
  - by rewrite orb_true_r.
Qed.

(** A call of [syncPendingReports] either ends at once and leaves the
    flag as it found it, or found the flag down and is now a drain in
    flight with the flag up. *)
Lemma sync_run_sync w :
  (finished (sync_run P syncPendingReports w).2 = true /\
   syncInProgress (store (sync_run P syncPendingReports w).1)
   = syncInProgress (store w))
  \/
  (syncInProgress (store w) = false /\
   finished (sync_run P syncPendingReports w).2 = false /\
   closing (sync_run P syncPendingReports w).2 /\
   syncInProgress (store (sync_run P syncPendingReports w).1) = true).
Proof.
  destruct (isOnline (store w)) eqn:Hon;
    [|left; by rewrite sync_run_sync_guarded by auto].
  destruct (syncInProgress (store w)) eqn:Hbusy;
    [left; by rewrite sync_run_sync_guarded by auto|].
  destruct (pendingReports (store w)) as [|r0 batch] eqn:Hbatch;
    [left; by rewrite sync_run_sync_guarded by auto|].
  unfold syncPendingReports.
  cbn [bind perform_op sync_run awaited perform].
  rewrite Hon, Hbusy, Hbatch. cbn [negb orb length Nat.eqb].
  cbn [bind sync_run awaited perform].
  match goal with |- context [sync_run P ?p ?w1] =>
    destruct (sync_run_closing p w1) as [[Hfin Hflag]|(Hfin & Hcl & Hflag)] end.
  - apply (closing_drain (r0 :: batch)).
  - done.
  - left. split; [done|]. by rewrite Hflag.
  - right. done.
Qed.

Lemma count_drains_snoc l c (p : prog unit) :
  count_drains (l ++ [(c, p)])
  = (count_drains l + if is_sync_call c then 1 else 0)%nat.
Proof.
  unfold count_drains. rewrite filter_app, length_app.
  f_equal. rewrite filter_cons, filter_nil. cbn [fst].
  by destruct (is_sync_call c).
Qed.

Lemma count_drains_delete l i c (p : prog unit) :
  l !! i = Some (c, p) ->
  count_drains l
  = (count_drains (delete i l) + if is_sync_call c then 1 else 0)%nat.
Proof.
  intros Hi. unfold count_drains.
  rewrite <- (take_drop_middle l i (c, p) Hi) at 1.
  rewrite delete_take_drop, !filter_app, !length_app, filter_cons. cbn [fst].
  destruct (is_sync_call c); cbn [length]; [|by rewrite Nat.add_0_r].
  destruct (decide (true = true)); [|done]. cbn [length]. lia.
Qed.

Lemma count_drains_park l c (p : prog unit) :
  count_drains (park c p l)
  = (count_drains l
     + if finished p then 0 else if is_sync_call c then 1 else 0)%nat.
Proof.
  unfold park. destruct (finished p); [lia|]. apply count_drains_snoc.
Qed.

Lemma elem_of_park c (p : prog unit) l c0 p0 :
  (c0, p0) ∈ park c p l -> (c0, p0) ∈ l \/ (c0 = c /\ p0 = p /\ finished p = false).
Proof.
  unfold park. destruct (finished p); [by left|].
  intros [H|H]%elem_of_app; [by left|].
  apply list_elem_of_singleton in H as [= -> ->]. by right.
Qed.

Lemma sys_inv_invoke c sys : sys_inv sys -> sys_inv (invoke P c sys).
Proof.
  unfold sys_inv, draining, invoke. intros [Hprogs Hcount].
  destruct (sync_run P (action c) (world sys)) as [w' p'] eqn:Hrun.
  cbn [inflight world]. rewrite count_drains_park, Hcount.
  destruct (is_sync_call c) eqn:Hc.
  - destruct c; try discriminate Hc. cbn [action] in Hrun.
    destruct (sync_run_sync (world sys)) as [[Hfin Hflag]|(Hdown & Hfin & Hcl & Hflag)];
      rewrite Hrun in *; cbn [fst snd] in *.
    + split.
      * intros c0 p0 [H|(_ & -> & Hnf)]%elem_of_park; [by apply Hprogs|congruence].
      * rewrite Hfin, Hflag. lia.
    + split.
      * intros c0 p0 [H|(-> & -> & _)]%elem_of_park; [by apply Hprogs|done].
      * by rewrite Hfin, Hflag, Hdown.
  - destruct (sync_run_quiet (action c) (world sys) (quiet_action c Hc))
      as [Hflag Hq]. rewrite Hrun in *. cbn [fst snd] in *.
    split.
    + intros c0 p0 [H|(-> & -> & _)]%elem_of_park; [by apply Hprogs|].
      by rewrite Hc.
    + rewrite Hflag. destruct (finished p'); lia.
Qed.

Lemma sys_inv_fire i sys sys' :
  fire P i sys = Some sys' -> sys_inv sys -> sys_inv sys'.
Proof.
  unfold fire. destruct (timers (world sys) !! i) as [[ms []]|]; [|done].
  intros [= <-] Hinv. by apply sys_inv_invoke.
Qed.

Lemma sys_inv_resume i sys sys' :
  resume_at P i sys = Some sys' -> sys_inv sys -> sys_inv sys'.
Proof.
  unfold resume_at. destruct (inflight sys !! i) as [[c p]|] eqn:Hi; [|done].
  destruct (resume P p (world sys)) as [w' p'] eqn:Hrun.
  unfold sys_inv, draining. intros [= <-] [Hprogs Hcount].
  cbn [inflight world]. rewrite count_drains_park.
  assert (Hp : (c, p) ∈ inflight sys) by (by eapply list_elem_of_lookup_2).
  assert (Hrest : forall c0 p0, (c0, p0) ∈ delete i (inflight sys) ->
                                (c0, p0) ∈ inflight sys).
  { intros c0 p0 H. eapply elem_of_sublist; [exact H|apply sublist_delete]. }
  pose proof (Hprogs c p Hp) as Hcp.
  rewrite (count_drains_delete _ i c p Hi) in Hcount.
  destruct (is_sync_call c) eqn:Hc.
  - assert (Hflag : syncInProgress (store (world sys)) = true).
    { destruct (syncInProgress (store (world sys))); [done|lia]. }
    rewrite Hflag in Hcount.
    destruct (resume_closing p (world sys) Hcp Hflag)
      as [[Hfin Hdown]|(Hfin & Hcl & Hup)];
      rewrite Hrun in *; cbn [fst snd] in *.
    + split.
      * intros c0 p0 [H|(_ & -> & Hnf)]%elem_of_park; [by apply Hprogs, Hrest|congruence].
      * rewrite Hfin, Hdown. lia.
    + split.
      * intros c0 p0 [H|(-> & -> & _)]%elem_of_park; [by apply Hprogs, Hrest|].
        by rewrite Hc.
      * rewrite Hfin, Hup. lia.
  - destruct (resume_quiet p (world sys) Hcp) as [Hflag Hq].
    rewrite Hrun in *. cbn [fst snd] in *.
    split.
    + intros c0 p0 [H|(-> & -> & _)]%elem_of_park; [by apply Hprogs, Hrest|].
      by rewrite Hc.
    + rewrite Hflag, <- Hcount. destruct (finished p'); lia.
Qed.

Lemma sys_inv_step sys sys' : sys_step P sys sys' -> sys_inv sys -> sys_inv sys'.
Proof.
  destruct 1 as [c sys|i sys sys' Hfire|i sys sys' Hres].
  - apply sys_inv_invoke.
  - by apply (sys_inv_fire i).
  - by apply (sys_inv_resume i).
Qed.

Lemma sys_inv_initial online stored (e : E) :
  sys_inv (initial_system online stored e).
Proof. split; [|done]. by intros c p ?%elem_of_nil. Qed.

Lemma sys_inv_reachable online stored (e : E) sys :
  rtc (sys_step P) (initial_system online stored e) sys -> sys_inv sys.
Proof.
  intros Hsteps. pose proof (sys_inv_initial online stored e) as Hinv.
  induction Hsteps as [|sys0 sys1 sys2 Hstep _ IH]; [done|].
  apply IH. by eapply sys_inv_step.
Qed.

End InterleavingFacts.

(** Suspending at the [await]s and resuming at once is running to
    completion. *)
Lemma run_sync_run {E} (P : Platform E) {A} (p : prog A) (w : World E) :
  run P (sync_run P p w).2 (sync_run P p w).1 = run P p w.
Proof.
  revert w. induction p as [a|e|X o k IH]; intros w; cbn; [done..|].
  destruct (awaited o); [done|].
  destruct (perform P o w) as [w1 x]. apply IH.
Qed.

Lemma run_resume {E} (P : Platform E) {A} (p : prog A) (w : World E) :
  run P (resume P p w).2 (resume P p w).1 = run P p w.
Proof.
  destruct p as [a|e|X o k]; cbn; [done..|].
  destruct (perform P o w) as [w1 x]. apply run_sync_run.
Qed.

(** C4. The drain guard.  A [syncPendingReports] called while offline,
    while a drain is in progress, or with an empty projection returns at
    once and leaves the whole world (state, database, timers, log of
    interactions) exactly as it was; called in the running system it is
    not even suspended.  Past the guard, the pass returns normally with
    the in-progress flag down; the [finally] clause takes the flag down
    whatever its body does, a throwing body included.  In every state
    the running system can reach from start-up, by any interleaving of
    calls, timers and resumptions, at most one drain body is in flight,
    and the flag is up exactly when one is. *)
Theorem drain_guard_and_reentrancy {E} (P : Platform E) :
  (forall w : World E,
     isOnline (store w) = false \/ syncInProgress (store w) = true \/
     pendingReports (store w) = [] ->
     run P syncPendingReports w = (w, Returned tt) /\
     forall suspended,
       invoke P CallSyncPendingReports (Build_System w suspended)
       = Build_System w suspended) /\
  (forall w : World E,
     isOnline (store w) = true -> syncInProgress (store w) = false ->
     pendingReports (store w) <> [] ->
     wp P syncPendingReports
       (fun w' out => out = Returned tt /\ syncInProgress (store w') = false) w) /\
  (forall (body : prog unit) (w : World E),
     wp P (try_finally body (perform_op (SetState (set_syncInProgress false))))
       (fun w' _ => syncInProgress (store w') = false) w) /\
  (forall online stored (e : E) sys,
     rtc (sys_step P) (initial_system online stored e) sys ->
     (draining sys <= 1)%nat /\
     (syncInProgress (store (world sys)) = true <-> draining sys = 1%nat) /\
     (syncInProgress (store (world sys)) = false <-> draining sys = 0%nat)).
Proof.
  split; [|split; [|split]].
  - intros w Hguard. split; [by apply run_sync_guarded|].
    intros suspended. unfold invoke. cbn [world inflight action].
    by rewrite sync_run_sync_guarded.
  - intros w Hon Hbusy Hne. eapply wp_mono; [by apply wp_sync|].
    intros w' out (-> & _ & _ & Hflag & _). done.
  - intros body w. apply wp_try_finally. unfold wp.
    by destruct (run P body w) as [w1 [[]|err]].
  - intros online stored e sys Hreach.
    destruct (sys_inv_reachable P online stored e sys Hreach) as [_ Hcount].
    rewrite Hcount. destruct (syncInProgress (store (world sys))); repeat split; try done; lia.
Qed.

Lemma drain_guard_and_reentrancy_witness :
  let report := demo_report "a" "spill" None 10 false in
  let start := initial_system true (db_of [report]) 0 in
  let loading := invoke (demo_platform false) CallLoadPendingReports start in
  let loaded_sys := default loading (resume_at (demo_platform false) 0 loading) in
  let draining_sys := invoke (demo_platform false) CallSyncPendingReports loaded_sys in
  rtc (sys_step (demo_platform false)) start draining_sys /\
  draining draining_sys = 1%nat /\
  syncInProgress (store (world draining_sys)) = true /\
  invoke (demo_platform false) CallSyncPendingReports draining_sys = draining_sys.
Proof.
  intros report start loading loaded_sys draining_sys.
  assert (Hreach : rtc (sys_step (demo_platform false)) start draining_sys).
  { eapply rtc_l; [apply (step_invoke _ CallLoadPendingReports)|].
    eapply rtc_l; [apply (step_resume _ 0 loading loaded_sys); reflexivity|].
    eapply rtc_l; [apply (step_invoke _ CallSyncPendingReports)|].
    apply rtc_refl. }
  split; [exact Hreach|].
  destruct (drain_guard_and_reentrancy (demo_platform false))
    as (Hguard & _ & _ & Hone).
  destruct (Hone true (db_of [report]) 0 draining_sys Hreach) as (_ & Hup & _).
  assert (Hflag : syncInProgress (store (world draining_sys)) = true)
    by reflexivity.
  split; [exact (proj1 Hup Hflag)|]. split; [exact Hflag|].
  exact (proj2 (Hguard (world draining_sys) (or_intror (or_introl Hflag)))
           (inflight draining_sys)).
Defined.

(** ** Durability of an enqueue *)

(** A record whose enqueue returned is found again by the first load
    after a restart, as it was written. *)
Lemma enqueued_record_survives_restart {E} (P : Platform E)
    (reportData : ReportData) (w : World E) (online : bool) :
  enqueue_write_fails P reportData w = false ->
  (lf_fault P (ext (restart online (run P (addPendingReport reportData) w).1))
     LfIterate).2 = false ->
  enqueued_report P reportData w
  ∈ pendingReports
      (store (run P loadPendingReports
                (restart online (run P (addPendingReport reportData) w).1)).1).
Proof.
  intros Hwrite Hread. rewrite run_load_ok by done.
  cbn [fst store set_store pendingReports set_pendingReports].
  apply array_sort_elem, pending_values_elem.
  pose proof (wp_add P reportData w) as Hadd. unfold wp in Hadd.
  cbn zeta in Hadd. rewrite Hwrite in Hadd. destruct Hadd as (_ & Hdb & _).
  exists (id (enqueued_report P reportData w)). cbn [restart initial_world db].
  rewrite Hdb, lookup_insert_eq. split; [done|].
  unfold enqueued_report.
  destruct (date_now P (ext w)) as [e1 now].
  destruct (math_random36 P e1) as [e2 suffix].
  by destruct (date_now P e2) as [e3 created].
Qed.

(** * More about the store *)

(** ** Programs confined to some effects *)

Section AlwaysFacts.
Context (K : forall X, op X -> Prop).

Lemma always_bind {A B} (p : prog A) (f : A -> prog B) :
  always K p -> (forall a, always K (f a)) -> always K (bind p f).
Proof. induction 1; intros Hf; cbn; [apply Hf|constructor|constructor; auto]. Qed.

Lemma always_try_catch {A} (p : prog A) h :
  always K p -> (forall e, always K (h e)) -> always K (try_catch p h).
Proof. induction 1; intros Hh; cbn; [constructor|apply Hh|constructor; auto]. Qed.

Lemma always_try_finally {A} (p : prog A) fin :
  always K p -> always K fin -> always K (try_finally p fin).
Proof.
  induction 1; intros Hfin; cbn.
  - apply always_bind; [done|]. intros _. constructor.
  - apply always_bind; [done|]. intros _. constructor.
  - constructor; auto.
Qed.

Lemma always_perform_op {X} (o : op X) : K X o -> always K (perform_op o).
Proof. intros Hk. constructor; [done|]. constructor. Qed.

Lemma always_for_of {A S} (l : list A) (s : S) body :
  (forall x s, always K (body x s)) -> always K (for_of l s body).
Proof.
  intros Hbody. revert s. induction l as [|x l IH]; intros s; cbn.
  - constructor.
  - by apply always_bind.
Qed.

End AlwaysFacts.

Ltac always_step :=
  first
    [ apply always_bind; [|intros ?]
    | apply always_try_catch; [|intros ?]
    | apply always_try_finally
    | apply always_for_of; intros ? ?
    | apply always_perform_op; cbn; solve [done]
    | apply always_ret
    | apply always_throw
    | match goal with
      | |- always _ (match ?x with _ => _ end) => destruct x
      end ].

(** ** The drain loop does not look at the database *)

Section BlindFacts.
Context {E : Type} (P : Platform E).
Implicit Types w : World E.

Lemma storage_call_blind c w1 w2 :
  same_but_db w1 w2 ->
  same_but_db (storage_call P c w1).1 (storage_call P c w2).1 /\
  (storage_call P c w1).2 = (storage_call P c w2).2.
Proof.
  intros (Hst & Htm & Htr & Hext). unfold storage_call, same_but_db.
  rewrite Hext. destruct (lf_fault P (ext w2) c) as [e failed]. cbn.
  by rewrite Hst, Htm, Htr.
Qed.

Lemma perform_blind {X} (o : op X) w1 w2 :
  storage_blind X o -> same_but_db w1 w2 ->
  same_but_db (perform P o w1).1 (perform P o w2).1 /\
  (perform P o w1).2 = (perform P o w2).2.
Proof.
  intros Hblind Hw.
  destruct o; cbn; try done;
    try (match goal with
         | |- context [storage_call P ?c w1] =>
             destruct (storage_call_blind c w1 w2 Hw) as [Hw' Hfail];
             destruct (storage_call P c w1) as [w1' f1],
                      (storage_call P c w2) as [w2' f2];
             cbn in Hw', Hfail; subst f2;
             destruct Hw' as (Hst & Htm & Htr & Hext);
             destruct f1; cbn; unfold same_but_db; cbn; done
         end);
    destruct Hw as (Hst & Htm & Htr & Hext); unfold same_but_db;
    rewrite ?Hst, ?Htm, ?Htr, ?Hext;
    repeat match goal with
           | |- context [let '(_, _) := ?x in _] => destruct x
           end; cbn; rewrite ?Hst, ?Htm, ?Htr, ?Hext; done.
Qed.

Lemma run_blind {A} (p : prog A) w1 w2 :
  always storage_blind p -> same_but_db w1 w2 ->
  same_but_db (run P p w1).1 (run P p w2).1 /\
  (run P p w1).2 = (run P p w2).2.
Proof.
  intros Hp. revert w1 w2.
  induction Hp as [a|e|X o k Hk Hp IH]; intros w1 w2 Hw; cbn; [done..|].
  destruct (perform_blind o w1 w2 Hk Hw) as [Hw' Hx].
  destruct (perform P o w1) as [w1' x1], (perform P o w2) as [w2' x2].
  cbn in Hw', Hx. subst x2. by apply IH.
Qed.

Lemma blind_sync_report report : always storage_blind (sync_report report).
Proof.
  unfold sync_report, sync_attempt, upload_file, localforage_setItem.
  repeat always_step.
Qed.

End BlindFacts.

Lemma attempt_accepted_events {E} (P : Platform E) report m m' evs :
  attempt P report m m' evs ->
  reliable_storage P -> auth_answers P -> gateway_accepts P report ->
  exists names user_id,
    evs = uploaded names (attachments report) ++
          [EvGetUser;
           EvInsert (insert_row report (map (public_url P) names) user_id) true;
           EvStorage (LfSetItem (id report)) true].
Proof.
  intros Hat Hrel Hauth [Hup Hins].
  destruct Hat as [names uid _ _ _ _|names uid msg _ _ Hunrel _
                  |names uid msg err _ _ [e He] _
                  |names msg err _ _ [e He] _
                  |names sent file rest n msg err Hfiles _ [e He] _].
  - eauto.
  - done.
  - by rewrite Hins in He.
  - by apply Hauth in He.
  - rewrite Hup in He; [done|]. rewrite Hfiles. apply elem_of_app. right. by left.
Qed.

(** X1. The drain decides what to send from the projection alone.  With
    any other database content the drain loop performs the same
    interactions (uploads, user lookups, inserts, writes, error reports)
    and ends the same way.  So a record of the projection that the
    gateway accepts is uploaded and inserted whatever the database
    already holds under its id, a record stored as synced included. *)
Theorem drain_ignores_database {E} (P : Platform E) :
  (forall (batch : list OfflineReport) (w : World E)
          (stored : gmap string OfflineReport),
     trace (run P (for_of batch tt (fun report _ => sync_report report))
              (set_db stored w)).1
     = trace (run P (for_of batch tt (fun report _ => sync_report report)) w).1 /\
     (run P (for_of batch tt (fun report _ => sync_report report))
        (set_db stored w)).2
     = (run P (for_of batch tt (fun report _ => sync_report report)) w).2) /\
  (forall (report : OfflineReport) (w : World E),
     synced report = false ->
     reliable_storage P -> auth_answers P -> gateway_accepts P report ->
     wp P (sync_report report)
       (fun w' _ =>
          exists names user_id,
            trace w' = trace w ++ uploaded names (attachments report) ++
              [EvGetUser;
               EvInsert (insert_row report (map (public_url P) names) user_id) true;
               EvStorage (LfSetItem (id report)) true]) w).
Proof.
  split.
  - intros batch w stored.
    destruct (run_blind P (for_of batch tt (fun report _ => sync_report report))
                (set_db stored w) w) as [(_ & _ & Htr & _) Hout].
    + apply always_for_of. intros report _. apply blind_sync_report.
    + done.
    + done.
  - intros report w Hs Hrel Hauth Hacc.
    eapply wp_mono; [by apply wp_sync_report|].
    intros w' out (_ & _ & _ & evs & Htr & Hat).
    destruct (attempt_accepted_events P _ _ _ _ Hat Hrel Hauth Hacc)
      as (names & uid & ->).
    eauto.
Qed.

Lemma drain_ignores_database_witness :
  let report := demo_report "a" "spill" None 10 false in
  let w := demo_world true true [report] [with_synced true report] 1000 in
  db w !! "a" = Some (with_synced true report) /\
  wp (demo_platform false) (sync_report report)
    (fun w' _ =>
       exists names user_id,
         trace w' = trace w ++ uploaded names (attachments report) ++
           [EvGetUser;
            EvInsert (insert_row report
                        (map (public_url (demo_platform false)) names) user_id) true;
            EvStorage (LfSetItem (id report)) true]) w.
Proof.
  intros report w. split; [reflexivity|].
  apply (proj2 (drain_ignores_database (demo_platform false)) report w).
  - reflexivity.
  - intros e c. reflexivity.
  - intros e err. discriminate.
  - split.
    + intros file Hfile. by apply elem_of_nil in Hfile.
    + intros e urls uid. reflexivity.
Defined.

(** X2. A failed enqueue leaves nothing behind.  When the [setItem] of
    [addPendingReport] throws, the call rejects with that storage error
    and the zustand state (projection included), the database and the
    timers are exactly as before: nothing is queued and no drain is
    armed. *)
Theorem enqueue_failure_atomic {E} (P : Platform E) (reportData : ReportData)
    (w : World E) :
  enqueue_write_fails P reportData w = true ->
  wp P (addPendingReport reportData)
    (fun w' out =>
       out = Thrown (StorageError
                       (LfSetItem (id (enqueued_report P reportData w)))) /\
       store w' = store w /\ db w' = db w /\ timers w' = timers w) w.
Proof.
  intros Hko. eapply wp_mono; [apply wp_add|].
  intros w' out. cbn zeta. by rewrite Hko.
Qed.

Lemma enqueue_failure_atomic_witness :
  let old := demo_report "a" "spill" None 10 false in
  let w := demo_world true false [old] [old] 1000 in
  enqueue_write_fails (demo_platform true) (demo_data "waves" None) w = true /\
  wp (demo_platform true) (addPendingReport (demo_data "waves" None))
    (fun w' out =>
       out = Thrown (StorageError (LfSetItem "offline_1000_k3j9x2m1q")) /\
       store w' = store w /\ db w' = db w /\ timers w' = timers w) w.
Proof.
  intros old w.
  assert (Hko : enqueue_write_fails (demo_platform true) (demo_data "waves" None) w = true)
    by reflexivity.
  split; [exact Hko|].
  exact (enqueue_failure_atomic (demo_platform true) (demo_data "waves" None) w Hko).
Defined.

(** X3. An enqueue that returned is durable.  After a successful
    [addPendingReport], a restart of the process and a
    [loadPendingReports] whose iteration succeeds, the projection
    contains the enqueued record, with the fields it was enqueued with
    and [synced = false]. *)
Theorem enqueue_durable {E} (P : Platform E) (reportData : ReportData)
    (w : World E) (online : bool) :
  enqueue_write_fails P reportData w = false ->
  (lf_fault P (ext (restart online (run P (addPendingReport reportData) w).1))
     LfIterate).2 = false ->
  exists report,
    report ∈ pendingReports
               (store (run P loadPendingReports
                         (restart online
                            (run P (addPendingReport reportData) w).1)).1) /\
    payload report = reportData /\ synced report = false.
Proof.
  intros Hwrite Hread. exists (enqueued_report P reportData w).
  split; [by apply enqueued_record_survives_restart|].
  unfold enqueued_report.
  destruct (date_now P (ext w)) as [e1 now].
  destruct (math_random36 P e1) as [e2 suffix].
  destruct (date_now P e2) as [e3 created].
  by rewrite payload_new_report.
Qed.

Lemma enqueue_durable_witness :
  let w := initial_world false (db_of []) 1000 in
  let reportData := demo_data "waves" (Some [photo "x.jpg"]) in
  exists report,
    report ∈ pendingReports
               (store (run (demo_platform false) loadPendingReports
                         (restart true
                            (run (demo_platform false)
                               (addPendingReport reportData) w).1)).1) /\
    payload report = reportData /\ synced report = false.
Proof.
  intros w reportData.
  apply (enqueue_durable (demo_platform false) reportData w true); reflexivity.
Defined.

(** X6. No action but [setOnlineStatus] and [addPendingReport] arms a
    timer.  [syncPendingReports], [loadPendingReports] and
    [clearSyncedReports] leave the timers as they are in every world and
    under every failure: a drain that left records pending schedules no
    retry of its own. *)
Theorem no_retry_timer {E} (P : Platform E) (w : World E) :
  timers (run P syncPendingReports w).1 = timers w /\
  timers (run P loadPendingReports w).1 = timers w /\
  timers (run P clearSyncedReports w).1 = timers w.
Proof.
  split; [|split].
  - destruct (isOnline (store w)) eqn:Hon;
      [|by rewrite run_sync_guarded by auto].
    destruct (syncInProgress (store w)) eqn:Hbusy;
      [by rewrite run_sync_guarded by auto|].
    destruct (pendingReports (store w)) as [|r0 batch] eqn:Hbatch;
      [by rewrite run_sync_guarded by auto|].
    assert (Hne : pendingReports (store w) <> []) by (by rewrite Hbatch).
    by destruct (wp_sync P w Hon Hbusy Hne) as (_ & Htm & _).
  - apply (wp_load P (fun w' _ => timers w' = timers w)).
    by intros w' (_ & Htm & _).
  - by destruct (wp_clear P w) as (_ & Htm & _).
Qed.

(** ** A drain with a healthy gateway *)

Lemma mark_synced_all_covered marked m x :
  x ∈ marked ->
  exists y, y ∈ marked /\ id y = id x /\
            mark_synced_all marked m !! id x = Some (with_synced true y).
Proof.
  induction marked as [|z marked IH] using rev_ind; intros Hx;
    [by apply elem_of_nil in Hx|].
  rewrite mark_synced_all_snoc.
  destruct (decide (id z = id x)) as [Heq|Hne].
  - exists z. rewrite Heq, lookup_insert_eq.
    split; [apply elem_of_app; right; by left|done].
  - apply elem_of_app in Hx as [Hx|Hx].
    + destruct (IH Hx) as (y & Hy & Hid & Hlook). exists y.
      rewrite lookup_insert_ne by done.
      split; [apply elem_of_app; by left|done].
    + apply list_elem_of_singleton in Hx as ->. done.
Qed.

Lemma mark_synced_all_stays marked m key :
  is_Some (m !! key) -> is_Some (mark_synced_all marked m !! key).
Proof.
  intros Hkey. induction marked as [|z marked IH] using rev_ind; [done|].
  rewrite mark_synced_all_snoc.
  destruct (decide (id z = key)) as [<-|Hne].
  - rewrite lookup_insert_eq. eauto.
  - by rewrite lookup_insert_ne.
Qed.

(** When every stored pending record was marked, nothing stored is
    pending any more. *)
Lemma mark_synced_all_complete marked (m : gmap string OfflineReport) :
  (forall key r, m !! key = Some r -> id r = key) ->
  (forall r, stored_pending m r -> r ∈ marked) ->
  forall key r, mark_synced_all marked m !! key = Some r -> synced r = true.
Proof.
  intros Hkeys Hcover key r Hr.
  destruct (mark_synced_all_lookup _ _ _ _ Hr) as [Hold|(x & _ & _ & ->)];
    [|done].
  destruct (synced r) eqn:Hs; [done|]. exfalso.
  assert (Hin : r ∈ marked) by (apply Hcover; by exists key).
  destruct (mark_synced_all_covered marked m r Hin) as (y & _ & _ & Hlook).
  rewrite (Hkeys key r Hold) in Hlook. rewrite Hlook in Hr.
  injection Hr as <-. done.
Qed.

(** X4. A drain against a healthy gateway empties the queue.  Let the
    records be stored under their ids, let the projection hold (at
    least) every stored pending record, and let the gateway accept
    every record of the projection, with localforage and the user
    lookup answering.  Then after one [syncPendingReports] every record the
    database held is still stored and every stored record has
    [synced = true]; the reloaded projection is empty; and a further
    [syncPendingReports] is stopped by the guard and does nothing. *)
Theorem healthy_drain_empties_queue {E} (P : Platform E) (w : World E) :
  isOnline (store w) = true ->
  syncInProgress (store w) = false ->
  pendingReports (store w) <> [] ->
  (forall key r, db w !! key = Some r -> id r = key) ->
  (forall r, stored_pending (db w) r -> r ∈ pendingReports (store w)) ->
  reliable_storage P -> auth_answers P ->
  (forall r, r ∈ pendingReports (store w) -> gateway_accepts P r) ->
  wp P syncPendingReports
    (fun w' out =>
       out = Returned tt /\
       (forall key, is_Some (db w !! key) -> is_Some (db w' !! key)) /\
       (forall key r, db w' !! key = Some r -> synced r = true) /\
       pendingReports (store w') = [] /\
       run P syncPendingReports w' = (w', Returned tt)) w.
Proof.
  intros Hon Hbusy Hne Hkeys Hcover Hrel Hauth Hacc.
  eapply wp_mono; [by apply wp_sync|].
  intros w' out (-> & _ & _ & _ & marked & Hsub & _ & Hdb & Hall & _ & Hproj).
  assert (Hsynced : forall key r, db w' !! key = Some r -> synced r = true).
  { rewrite Hdb. apply mark_synced_all_complete; [done|].
    intros r Hr. apply Hall; auto. by destruct Hr as (? & _ & ?). }
  assert (Hempty : pendingReports (store w') = []).
  { rewrite (Hproj Hrel).
    destruct (pending_values (db w')) as [|r l] eqn:Hp; [done|].
    assert (Hr : r ∈ pending_values (db w')) by (rewrite Hp; left).
    apply pending_values_elem in Hr as (key & Hkey & Hs).
    apply Hsynced in Hkey. congruence. }
  split; [done|]. split; [|split; [done|split; [done|]]].
  - intros key Hkey. rewrite Hdb. by apply mark_synced_all_stays.
  - apply run_sync_guarded. auto.
Qed.

Lemma healthy_drain_empties_queue_witness :
  let r1 := demo_report "a" "spill" None 10 false in
  let r2 := demo_report "b" "waves" (Some [photo "x.jpg"]) 20 false in
  let done := demo_report "c" "erosion" None 5 true in
  let w := demo_world true false [r2; r1] [r1; r2; done] 1000 in
  wp (demo_platform false) syncPendingReports
    (fun w' out =>
       out = Returned tt /\
       (forall key, is_Some (db w !! key) -> is_Some (db w' !! key)) /\
       (forall key r, db w' !! key = Some r -> synced r = true) /\
       pendingReports (store w') = [] /\
       run (demo_platform false) syncPendingReports w' = (w', Returned tt)) w.
Proof.
  intros r1 r2 done w.
  apply (healthy_drain_empties_queue (demo_platform false) w).
  - reflexivity.
  - reflexivity.
  - discriminate.
  - intros key r. apply db_of_keys.
  - intros r (key & Hkey & Hs).
    pose proof (db_of_keys _ _ _ Hkey) as Hid.
    apply elem_of_list_to_map_2 in Hkey.
    repeat (apply elem_of_cons in Hkey as [Hkey|Hkey]);
      try (by apply elem_of_nil in Hkey);
      injection Hkey as _ ->; try discriminate Hs.
    + right. left.
    + left.
  - intros e c. reflexivity.
  - intros e err. discriminate.
  - intros r Hr.
    repeat (apply elem_of_cons in Hr as [->|Hr]);
      try (by apply elem_of_nil in Hr);
      (split; [|intros e urls uid; reflexivity]);
      intros file Hf;
      repeat (apply elem_of_cons in Hf as [->|Hf];
              [intros e n; reflexivity|]);
      by apply elem_of_nil in Hf.
Defined.

(** ** State invariants of the running system *)

Section SafetyFacts.
Context {E : Type} (P : Platform E).
Context (K : forall X, op X -> Prop) (I : World E -> Prop).
Hypothesis perform_safe :
  forall X (o : op X) w, K X o -> I w -> I (perform P o w).1.
Hypothesis actions_safe : forall c, always K (action c).
Hypothesis timers_safe : forall w t, I w -> I (set_timers t w).

Lemma sync_run_safe {A} (p : prog A) w :
  always K p -> I w -> I (sync_run P p w).1 /\ always K (sync_run P p w).2.
Proof.
  intros Hp. revert w. induction Hp as [a|e|X o k Hk Hp IH]; intros w Hw; cbn.
  - split; [done|constructor].
  - split; [done|constructor].
  - destruct (awaited o); cbn; [split; [done|by constructor]|].
    pose proof (perform_safe X o w Hk Hw) as Hw'.
    destruct (perform P o w) as [w1 x]. by apply IH.
Qed.

Lemma resume_safe {A} (p : prog A) w :
  always K p -> I w -> I (resume P p w).1 /\ always K (resume P p w).2.
Proof.
  intros Hp Hw. destruct Hp as [a|e|X o k Hk Hp]; cbn.
  - split; [done|constructor].
  - split; [done|constructor].
  - pose proof (perform_safe X o w Hk Hw) as Hw'.
    destruct (perform P o w) as [w1 x]. by apply sync_run_safe.
Qed.

Lemma invoke_safe c sys :
  (forall c0 p0, (c0, p0) ∈ inflight sys -> always K p0) -> I (world sys) ->
  (forall c0 p0, (c0, p0) ∈ inflight (invoke P c sys) -> always K p0) /\
  I (world (invoke P c sys)).
Proof.
  intros Hprogs Hw. unfold invoke.
  destruct (sync_run_safe (action c) (world sys) (actions_safe c) Hw) as [Hw' Hp'].
  destruct (sync_run P (action c) (world sys)) as [w' p']. cbn in *.
  split; [|done].
  intros c0 p0 [H|(_ & -> & _)]%elem_of_park; [by eapply Hprogs|done].
Qed.

Lemma sys_step_safe sys sys' :
  sys_step P sys sys' ->
  (forall c p, (c, p) ∈ inflight sys -> always K p) -> I (world sys) ->
  (forall c p, (c, p) ∈ inflight sys' -> always K p) /\ I (world sys').
Proof.
  intros Hstep Hprogs Hw.
  destruct Hstep as [c sys|i sys sys' Hfire|i sys sys' Hres].
  - by apply invoke_safe.
  - unfold fire in Hfire.
    destruct (timers (world sys) !! i) as [[ms []]|]; [|done].
    injection Hfire as <-. apply invoke_safe; cbn; [done|by apply timers_safe].
  - unfold resume_at in Hres.
    destruct (inflight sys !! i) as [[c p]|] eqn:Hi; [|done].
    assert (Hp : always K p).
    { eapply Hprogs. by eapply list_elem_of_lookup_2. }
    destruct (resume_safe p (world sys) Hp Hw) as [Hw' Hp'].
    destruct (resume P p (world sys)) as [w' p']. injection Hres as <-.
    cbn in *. split; [|done].
    intros c0 p0 [H|(_ & -> & _)]%elem_of_park; [|done].
    eapply Hprogs, elem_of_sublist; [exact H|apply sublist_delete].
Qed.

Lemma reachable_safe sys sys' :
  rtc (sys_step P) sys sys' ->
  (forall c p, (c, p) ∈ inflight sys -> always K p) -> I (world sys) ->
  I (world sys').
Proof.
  induction 1 as [|sys0 sys1 sys2 Hstep _ IH]; intros Hprogs Hw; [done|].
  destruct (sys_step_safe _ _ Hstep Hprogs Hw) as [Hprogs' Hw'].
  by apply IH.
Qed.

End SafetyFacts.

(** ** The projection never shows a synced record *)

Section UnsyncedFacts.
Context {E : Type} (P : Platform E).

Lemma perform_store_kept {X} (o : op X) (w : World E) :
  match o with SetState _ => True | _ => store (perform P o w).1 = store w end.
Proof.
  destruct o; cbn; try done;
    try (match goal with
         | |- context [storage_call P ?c w] =>
             pose proof (storage_call_store P c w) as Hst;
             destruct (storage_call P c w) as [w1 []]; cbn in *; by rewrite Hst
         end);
    repeat match goal with
           | |- context [let '(_, _) := ?x in _] => destruct x
           end; done.
Qed.

Lemma perform_keeps_unsynced {X} (o : op X) (w : World E) :
  keeps_unsynced X o ->
  Forall (fun r => synced r = false) (pendingReports (store w)) ->
  Forall (fun r => synced r = false) (pendingReports (store (perform P o w).1)).
Proof.
  intros Hk Hw. pose proof (perform_store_kept o w) as Hst.
  destruct o; try (by rewrite Hst). cbn. by apply Hk.
Qed.

Lemma unsynced_load : always keeps_unsynced loadPendingReports.
Proof.
  unfold loadPendingReports, localforage_iterate. cbn.
  constructor; [done|]. intros [e|entries]; cbn.
  - repeat always_step.
  - constructor; [|intros; constructor].
    intros s _. cbn. rewrite collect_unsynced, app_nil_l.
    rewrite array_sort_perm. apply Forall_forall.
    by intros r [Hr _]%list_elem_of_filter.
Qed.

End UnsyncedFacts.

Lemma unsynced_action c : always keeps_unsynced (action c).
Proof.
  pose proof unsynced_load as Hload.
  destruct c as [status|reportData| | |]; cbn [action].
  - unfold setOnlineStatus. repeat always_step.
  - unfold addPendingReport, localforage_setItem. repeat always_step.
    apply always_perform_op. intros s Hs. cbn.
    apply Forall_app. split; [done|]. by apply Forall_singleton.
  - done.
  - unfold syncPendingReports, await_loadPendingReports, sync_report,
      sync_attempt, upload_file, localforage_setItem.
    repeat (first [exact Hload | always_step]).
  - unfold clearSyncedReports, await_loadPendingReports,
      localforage_iterate, localforage_removeItem.
    repeat (first [exact Hload | always_step]).
Qed.

Lemma filter_synced_none (l : list OfflineReport) :
  Forall (fun r => synced r = false) l ->
  filter (fun r => synced r = true) l = [] /\
  filter (fun r => negb (synced r) = true) l = l.
Proof.
  induction 1 as [|r l Hr Hl [IH1 IH2]]; [done|].
  rewrite !filter_cons, IH1, IH2, Hr. cbn. done.
Qed.

(** X5. The projection never shows a synced record.  In every state the
    running system can reach from start-up, by any interleaving of
    calls, timers and resumptions and under any failures, every record
    of [pendingReports] has [synced = false].  Hence on the queue page
    the "Synced" counter is 0, "Pending Sync" equals "Total Queued", and
    the "Clean Queue" button, which is enabled only when the projection
    holds a synced record, is disabled. *)
Theorem projection_never_shows_synced {E} (P : Platform E) online stored
    (e : E) (sys : System E) :
  rtc (sys_step P) (initial_system online stored e) sys ->
  Forall (fun r => synced r = false) (pendingReports (store (world sys))) /\
  synced_shown (store (world sys)) = 0%nat /\
  pending_sync (store (world sys)) = total_queued (store (world sys)) /\
  clean_button_disabled (store (world sys)) = true.
Proof.
  intros Hreach.
  assert (Hall : Forall (fun r => synced r = false)
                   (pendingReports (store (world sys)))).
  { apply (reachable_safe P keeps_unsynced
             (fun w => Forall (fun r => synced r = false)
                         (pendingReports (store w)))
             (fun X o w => perform_keeps_unsynced P o w)
             unsynced_action (fun w t H => H) _ _ Hreach).
    - by intros c p ?%elem_of_nil.
    - constructor. }
  destruct (filter_synced_none _ Hall) as [Hsynced Hpending].
  unfold synced_shown, pending_sync, total_queued, clean_button_disabled.
  by rewrite Hsynced, Hpending.
Qed.

Lemma projection_never_shows_synced_witness :
  let report := demo_report "a" "spill" None 10 false in
  let start := initial_system true (db_of [report]) 0 in
  let loading := invoke (demo_platform false) CallLoadPendingReports start in
  let loaded_sys := default loading (resume_at (demo_platform false) 0 loading) in
  let syncing := invoke (demo_platform false) CallSyncPendingReports loaded_sys in
  let synced_sys := default syncing (resume_at (demo_platform false) 0 syncing) in
  rtc (sys_step (demo_platform false)) start synced_sys /\
  clean_button_disabled (store (world synced_sys)) = true.
Proof.
  intros report start loading loaded_sys syncing synced_sys.
  assert (Hreach : rtc (sys_step (demo_platform false)) start synced_sys).
  { eapply rtc_l; [apply (step_invoke _ CallLoadPendingReports)|].
    eapply rtc_l; [apply (step_resume _ 0 loading loaded_sys); reflexivity|].
    eapply rtc_l; [apply (step_invoke _ CallSyncPendingReports)|].
    eapply rtc_l; [apply (step_resume _ 0 syncing synced_sys); reflexivity|].
    apply rtc_refl. }
  split; [exact Hreach|].
  exact (proj2 (proj2 (proj2
    (projection_never_shows_synced (demo_platform false) true
       (db_of [report]) 0 synced_sys Hreach)))).
Defined.

(** ** The queue page *)

Lemma handleSync_shown {E} (P : Platform E) (w : World E) :
  QueuePage_handleSync P true w
  = ((run P syncPendingReports w).1,
     [Toast "Sync Complete" "All pending reports have been synchronized." None]).
Proof.
  unfold QueuePage_handleSync. cbn [negb].
  assert (Hout : (run P syncPendingReports w).2 = Returned tt).
  { destruct (isOnline (store w)) eqn:Hon;
      [|by rewrite run_sync_guarded by auto].
    destruct (syncInProgress (store w)) eqn:Hbusy;
      [by rewrite run_sync_guarded by auto|].
    destruct (pendingReports (store w)) as [|r0 batch] eqn:Hbatch;
      [by rewrite run_sync_guarded by auto|].
    apply (wp_sync P w Hon Hbusy). by rewrite Hbatch. }
  destruct (run P syncPendingReports w) as [w' out]. cbn in Hout. by subst out.
Qed.

(** X7. [handleSync] of the queue page announces success whatever the
    drain did.  Rendered online, it shows "Sync Complete - All pending
    reports have been synchronized." after every call; in particular
    after a call in which the gateway refused the pending record [k],
    which is then still stored exactly as before, unsynced.  Rendered
    offline, it shows "No Connection" and does not call the store. *)
Theorem sync_complete_shown_despite_refusal {E} (P : Platform E)
    (w : World E) (k : OfflineReport) :
  NoDup (map id (pendingReports (store w))) ->
  k ∈ pendingReports (store w) ->
  db w !! id k = Some k ->
  synced k = false ->
  gateway_refuses P k ->
  (QueuePage_handleSync P true w).2
  = [Toast "Sync Complete" "All pending reports have been synchronized." None] /\
  db (QueuePage_handleSync P true w).1 !! id k = Some k /\
  QueuePage_handleSync P false w
  = (w, [Toast "No Connection"
           "Cannot sync while offline. Please check your internet connection."
           (Some "destructive")]).
Proof.
  intros Hnd Hk Hdb Hs Hrefuse. rewrite handleSync_shown. cbn [fst snd].
  split; [done|]. split; [|done].
  destruct (isOnline (store w)) eqn:Hon;
    [|by rewrite run_sync_guarded by auto].
  destruct (syncInProgress (store w)) eqn:Hbusy;
    [by rewrite run_sync_guarded by auto|].
  assert (Hne : pendingReports (store w) <> []).
  { intros Hnil. rewrite Hnil in Hk. by apply elem_of_nil in Hk. }
  destruct (wp_sync P w Hon Hbusy Hne)
    as (_ & _ & _ & _ & marked & Hsub & Hmarked & Hdb' & _).
  rewrite Hdb', mark_synced_all_other; [done|].
  intros (r & Hid & Hr)%list_elem_of_fmap.
  assert (r = k) as ->.
  { apply (NoDup_fmap_eq id (pendingReports (store w))); auto.
    by eapply elem_of_sublist. }
  by destruct (Hmarked k Hr).
Qed.

Lemma sync_complete_shown_despite_refusal_witness :
  let k := demo_report "b" "oil" (Some [photo "corrupt.jpg"]) 20 false in
  let w := demo_world true false [k] [k] 1000 in
  (QueuePage_handleSync (demo_platform false) true w).2
  = [Toast "Sync Complete" "All pending reports have been synchronized." None] /\
  db (QueuePage_handleSync (demo_platform false) true w).1 !! id k = Some k.
Proof.
  intros k w.
  assert (Hnd : NoDup (map id (pendingReports (store w)))).
  { apply NoDup_singleton. }
  assert (Hk : k ∈ pendingReports (store w)) by (left).
  assert (Hrefuse : gateway_refuses (demo_platform false) k).
  { left. exists (photo "corrupt.jpg"). split; [left|]. intros e fileName. reflexivity. }
  destruct (sync_complete_shown_despite_refusal (demo_platform false) w k
              Hnd Hk eq_refl eq_refl Hrefuse) as (Hshown & Hkept & _).
  exact (conj Hshown Hkept).
Defined.

(** X8. [handleClearSynced] of the queue page announces success whatever
    the clean-up did: it shows "Queue Cleaned - Successfully synced
    reports have been removed from the queue." even when localforage
    fails at the iteration, in which case nothing was removed: the
    database and the store are as they were. *)
Theorem queue_cleaned_shown_despite_failure {E} (P : Platform E)
    (w : World E) :
  (lf_fault P (ext w) LfIterate).2 = true ->
  (QueuePage_handleClearSynced P w).2
  = [Toast "Queue Cleaned"
       "Successfully synced reports have been removed from the queue." None] /\
  db (QueuePage_handleClearSynced P w).1 = db w /\
  store (QueuePage_handleClearSynced P w).1 = store w.
Proof.
  intros Hfail. unfold QueuePage_handleClearSynced, clearSyncedReports,
    localforage_iterate.
  cbn [run bind try_catch perform_op perform]. unfold storage_call.
  destruct (lf_fault P (ext w) LfIterate) as [e failed]. cbn in Hfail.
  subst failed. cbn. done.
Qed.

Lemma queue_cleaned_shown_despite_failure_witness :
  let r := demo_report "a" "spill" None 10 true in
  let w := demo_world true false [] [r] 1000 in
  (QueuePage_handleClearSynced (demo_platform true) w).2
  = [Toast "Queue Cleaned"
       "Successfully synced reports have been removed from the queue." None] /\
  db (QueuePage_handleClearSynced (demo_platform true) w).1 !! "a" = Some r.
Proof.
  intros r w.
  destruct (queue_cleaned_shown_despite_failure (demo_platform true) w eq_refl)
    as (Hshown & Hdb & _).
  split; [exact Hshown|]. rewrite Hdb. reflexivity.
Defined.

Section TraceFacts.
Context {E : Type} (P : Platform E).
Implicit Types w : World E.

Lemma perform_trace {X} (o : op X) w :
  exists evs, trace (perform P o w).1 = trace w ++ evs.
Proof.
  assert (Hcall : forall c, exists ok,
            trace (storage_call P c w).1 = trace w ++ [EvStorage c ok]).
  { intros c. unfold storage_call.
    destruct (lf_fault P (ext w) c) as [e failed]. by eexists. }
  destruct o; cbn;
    try (match goal with
         | |- context [storage_call P ?c w] =>
             destruct (Hcall c) as [ok Hok];
             destruct (storage_call P c w) as [w1 failed]; cbn in Hok;
             destruct failed; cbn; rewrite Hok; by eexists
         end);
    repeat match goal with
           | |- context [match ?x with _ => _ end] => destruct x
           end; cbn; try (by exists []; rewrite app_nil_r); by eexists.
Qed.

(** Nothing a program does takes an event back. *)
Lemma run_trace {A} (p : prog A) w :
  exists evs, trace (run P p w).1 = trace w ++ evs.
Proof.
  revert w. induction p as [a|e|X o k IH]; intros w; cbn [run].
  - exists []. by rewrite app_nil_r.
  - exists []. by rewrite app_nil_r.
  - destruct (perform_trace o w) as [evs1 H1].
    destruct (perform P o w) as [w1 x]. cbn in H1.
    destruct (IH x w1) as [evs2 H2]. exists (evs1 ++ evs2).
    by rewrite H2, H1, app_assoc.
Qed.

End TraceFacts.

(** X9. The "Sync All Reports" button is disabled exactly in the states
    in which [syncPendingReports] would do nothing.  When the button is
    disabled (offline, a drain in progress, or an empty projection) the
    call returns at once and leaves the world as it is; when it is
    enabled the call goes past the guard and reads the database at
    least once, for the reload after the loop. *)
Theorem sync_button_matches_guard {E} (P : Platform E) (w : World E) :
  if sync_button_disabled (store w)
  then run P syncPendingReports w = (w, Returned tt)
  else exists evs ok,
         trace (run P syncPendingReports w).1 = trace w ++ evs /\
         EvStorage LfIterate ok ∈ evs.
Proof.
  unfold sync_button_disabled.
  destruct (isOnline (store w)) eqn:Hon;
    [|by rewrite run_sync_guarded by auto].
  destruct (syncInProgress (store w)) eqn:Hbusy;
    [by rewrite run_sync_guarded by auto|].
  destruct (pendingReports (store w)) as [|r0 batch] eqn:Hbatch;
    [by rewrite run_sync_guarded by auto|].
  cbn [negb orb length Nat.eqb].
  change (wp P syncPendingReports
            (fun w' _ => exists evs ok,
               trace w' = trace w ++ evs /\ EvStorage LfIterate ok ∈ evs) w).
  unfold syncPendingReports.
  apply wp_bind, wp_perform. cbn [perform fst snd].
  rewrite Hon, Hbusy, Hbatch. cbn [negb orb length Nat.eqb].
  apply wp_bind, wp_perform. cbn [perform fst snd].
  apply wp_try_finally, wp_try_catch, wp_bind.
  set (w0 := set_store _ w).
  pose proof (wp_drain_loop P (r0 :: batch) w0) as Hloop.
  destruct (run_trace P (for_of (r0 :: batch) tt
                           (fun report _ => sync_report report)) w0)
    as [evs1 Htr1].
  unfold wp in *. destruct Hloop as (Hout & _). rewrite Hout.
  apply wp_await_load. intros w2 (_ & _ & _ & _ & Hload).
  apply wp_perform. cbn.
  destruct Hload as [(_ & _ & Htr2)|(_ & _ & Htr2)];
    rewrite Htr2, Htr1; subst w0; cbn [trace set_store];
    rewrite <- app_assoc; eexists _, _; (split; [done|]);
    apply elem_of_app; right; left.
Qed.

(** ** The report form *)

Lemma enqueued_report_payload {E} (P : Platform E) reportData (w : World E) :
  payload (enqueued_report P reportData w) = reportData /\
  synced (enqueued_report P reportData w) = false.
Proof.
  unfold enqueued_report.
  destruct (date_now P (ext w)) as [e1 now].
  destruct (math_random36 P e1) as [e2 suffix].
  destruct (date_now P e2) as [e3 created].
  split; [apply payload_new_report|done].
Qed.

(** X10. A submission that passes the checks stores what the form
    holds.  With the three required fields filled in, both coordinates
    present and neither 0 nor NaN, and a [setItem] that succeeds,
    [handleSubmit] leaves in the database, under the id the enqueue
    generated, an unsynced record whose latitude and longitude are the
    location's, whose text fields are the form's, field by field, and
    whose [media_files] are the attached files; no other key of the
    database changes, and the record is appended to the projection.
    The form is reset (every text field empty, urgency "medium", name
    and contact those of the signed-in user, or empty), the attachments
    are emptied, the location is kept, [submitting] is false again, and
    the user is shown "Report Submitted", with the text for the
    connectivity the component was rendered with, and sent to "/". *)
Theorem submit_stores_the_form {E} (P : Platform E) (user : option AuthUser)
    (isOnline_rendered : bool) (st : ReportFormState) (w : World E)
    (lat lon : float) :
  string_falsy (form_hazard_type (formData st)) = false ->
  string_falsy (form_severity (formData st)) = false ->
  string_falsy (form_description (formData st)) = false ->
  loc_latitude (location st) = Some lat ->
  loc_longitude (location st) = Some lon ->
  number_falsy lat = false -> number_falsy lon = false ->
  enqueue_write_fails P (submitted_data st lat lon) w = false ->
  let '(st', w', shown) :=
    ReportForm_handleSubmit P user isOnline_rendered st w in
  (exists report,
     db w' !! id report = Some report /\
     (forall key, key <> id report -> db w' !! key = db w !! key) /\
     pendingReports (store w') = pendingReports (store w) ++ [report] /\
     synced report = false /\
     latitude report = lat /\ longitude report = lon /\
     description report = form_description (formData st) /\
     severity report = form_severity (formData st) /\
     hazard_type report = form_hazard_type (formData st) /\
     location_description report = form_location_description (formData st) /\
     reporter_name report = form_reporter_name (formData st) /\
     reporter_contact report = Some (form_reporter_contact (formData st)) /\
     urgency_level report = form_urgency_level (formData st) /\
     media_files report = Some (mediaFiles st)) /\
  formData st'
  = {| form_hazard_type := ""; form_severity := "";
       form_urgency_level := "medium"; form_description := "";
       form_location_description := "";
       form_reporter_name :=
         match user with
         | Some u => default "" (user_full_name u)
         | None => ""
         end;
       form_reporter_contact :=
         match user with
         | Some u => default "" (user_email u)
         | None => ""
         end |} /\
  location st' = location st /\ mediaFiles st' = [] /\
  submitting st' = false /\
  shown
  = [Toast "Report Submitted"
       (if isOnline_rendered
        then "Your report has been submitted and will be reviewed."
        else "Your report has been saved offline and will sync when connection is restored.")
       None;
     Navigate "/"].
Proof.
  intros Hh Hs Hd Hlat Hlon Hlat0 Hlon0 Hok.
  unfold ReportForm_handleSubmit.
  rewrite Hh, Hs, Hd, Hlat, Hlon, Hlat0, Hlon0. cbn [orb].
  pose proof (wp_add P (submitted_data st lat lon) w) as Hadd.
  unfold wp in Hadd. cbn zeta in Hadd. rewrite Hok in Hadd.
  destruct (run P (addPendingReport (submitted_data st lat lon)) w)
    as [w1 out]. cbn [fst snd] in Hadd.
  destruct Hadd as (-> & Hdb & Hst & _).
  destruct (enqueued_report_payload P (submitted_data st lat lon) w)
    as [Hpay Hflag].
  set (report := enqueued_report P (submitted_data st lat lon) w) in *.
  split; [|split; [|done]].
  - exists report. rewrite Hdb, Hst.
    split; [apply lookup_insert_eq|].
    split; [intros key Hne; by apply lookup_insert_ne|].
    split; [done|]. split; [done|].
    assert (Hfield : forall {A} (f : ReportData -> A),
              f (payload report) = f (submitted_data st lat lon))
      by (intros A f; by rewrite Hpay).
    split; [exact (Hfield _ d_latitude)|].
    split; [exact (Hfield _ d_longitude)|].
    split; [exact (Hfield _ d_description)|].
    split; [exact (Hfield _ d_severity)|].
    split; [exact (Hfield _ d_hazard_type)|].
    split; [exact (Hfield _ d_location_description)|].
    split; [exact (Hfield _ d_reporter_name)|].
    split; [exact (Hfield _ d_reporter_contact)|].
    split; [exact (Hfield _ d_urgency_level)|].
    exact (Hfield _ d_media_files).
  - cbn [formData]. unfold reset_form. by destruct user as [u|].
Qed.

Lemma submit_stores_the_form_witness :
  let st := {| formData := {| form_hazard_type := "High Waves";
                              form_severity := "high";
                              form_urgency_level := "high";
                              form_description := "waves over the sea wall";
                              form_location_description := "Marina Beach";
                              form_reporter_name := "Asha";
                              form_reporter_contact := "asha@example.org" |};
               location := {| loc_latitude := Some 13.5%float;
                              loc_longitude := Some 80.25%float;
                              loc_address := "Marina Beach";
                              loc_accuracy := Some 12%float;
                              loc_loading := false;
                              loc_error := None |};
               mediaFiles := [photo "wall.jpg"];
               submitting := false |} in
  let w := demo_world false false [] [] 1000 in
  let result := ReportForm_handleSubmit (demo_platform false) None false st w in
  (exists report,
     pendingReports (store result.1.2) = [report] /\
     description report = "waves over the sea wall" /\
     latitude report = 13.5%float /\
     media_files report = Some [photo "wall.jpg"]) /\
  mediaFiles result.1.1 = [] /\
  result.2
  = [Toast "Report Submitted"
       "Your report has been saved offline and will sync when connection is restored."
       None;
     Navigate "/"].
Proof.
  intros st w result.
  pose proof (submit_stores_the_form (demo_platform false) None false st w
                13.5%float 80.25%float eq_refl eq_refl eq_refl eq_refl eq_refl
                eq_refl eq_refl eq_refl) as H.
  fold result in H. destruct result as [[st' w'] shown].
  destruct H as ((report & _ & _ & Hproj & _ & Hla & _ & Hde & _ & _ & _ & _
                  & _ & _ & Hmf) & _ & _ & Hfiles & _ & Hshown).
  cbn [fst snd]. split; [|split; [exact Hfiles|exact Hshown]].
  exists report. split; [exact Hproj|]. split; [exact Hde|].
  split; [exact Hla|exact Hmf].
Defined.

(** X11. A submission whose write fails loses nothing the user typed.
    With the checks passed and a [setItem] that throws, [handleSubmit]
    keeps the form fields, the attachments and the location as they
    were, sets [submitting] back to false, leaves the database, the
    store and the timers untouched, reports the error on the console
    and shows "Submission Error"; it does not navigate away. *)
Theorem submit_failure_keeps_the_form {E} (P : Platform E)
    (user : option AuthUser) (isOnline_rendered : bool)
    (st : ReportFormState) (w : World E) (lat lon : float) :
  string_falsy (form_hazard_type (formData st)) = false ->
  string_falsy (form_severity (formData st)) = false ->
  string_falsy (form_description (formData st)) = false ->
  loc_latitude (location st) = Some lat ->
  loc_longitude (location st) = Some lon ->
  number_falsy lat = false -> number_falsy lon = false ->
  enqueue_write_fails P (submitted_data st lat lon) w = true ->
  let report := enqueued_report P (submitted_data st lat lon) w in
  let '(st', w', shown) :=
    ReportForm_handleSubmit P user isOnline_rendered st w in
  formData st' = formData st /\ mediaFiles st' = mediaFiles st /\
  location st' = location st /\ submitting st' = false /\
  db w' = db w /\ store w' = store w /\ timers w' = timers w /\
  last (trace w')
  = Some (EvConsoleError "Error submitting report:"
            (StorageError (LfSetItem (id report)))) /\
  shown = [submission_error_toast].
Proof.
  intros Hh Hs Hd Hlat Hlon Hlat0 Hlon0 Hko report.
  unfold ReportForm_handleSubmit.
  rewrite Hh, Hs, Hd, Hlat, Hlon, Hlat0, Hlon0. cbn [orb].
  pose proof (wp_add P (submitted_data st lat lon) w) as Hadd.
  unfold wp in Hadd. cbn zeta in Hadd. rewrite Hko in Hadd.
  destruct (run P (addPendingReport (submitted_data st lat lon)) w)
    as [w1 out]. cbn [fst snd] in Hadd.
  destruct Hadd as (-> & Hst & Hdb & Htm).
  cbn [formData mediaFiles location submitting log db store timers trace].
  repeat (split; [done|]). split; [|done]. by rewrite last_snoc.
Qed.

Lemma submit_failure_keeps_the_form_witness :
  let st := {| formData := {| form_hazard_type := "High Waves";
                              form_severity := "high";
                              form_urgency_level := "high";
                              form_description := "waves over the sea wall";
                              form_location_description := "Marina Beach";
                              form_reporter_name := "Asha";
                              form_reporter_contact := "asha@example.org" |};
               location := {| loc_latitude := Some 13.5%float;
                              loc_longitude := Some 80.25%float;
                              loc_address := "Marina Beach";
                              loc_accuracy := Some 12%float;
                              loc_loading := false;
                              loc_error := None |};
               mediaFiles := [photo "wall.jpg"];
               submitting := false |} in
  let w := demo_world true false [] [] 1000 in
  let result := ReportForm_handleSubmit (demo_platform true) None true st w in
  mediaFiles result.1.1 = [photo "wall.jpg"] /\
  db result.1.2 = db w /\
  result.2 = [submission_error_toast].
Proof.
  intros st w result.
  pose proof (submit_failure_keeps_the_form (demo_platform true) None true st w
                13.5%float 80.25%float eq_refl eq_refl eq_refl eq_refl eq_refl
                eq_refl eq_refl eq_refl) as H.
  cbn zeta in H. fold result in H.
  destruct result as [[st' w'] shown].
  destruct H as (_ & Hfiles & _ & _ & Hdb & _ & _ & _ & Hshown).
  cbn [fst snd]. done.
Defined.

(** X12. What [handleSubmit] turns away, it turns away without a trace.
    If one of hazard type, severity and description is empty, or a
    coordinate is missing, NaN or 0 (so a position on the equator or on
    the prime meridian counts as no position), the handler calls
    nothing: form, store, database, timers and log are as before and
    the only thing shown is one destructive toast, "Validation Error"
    or "Location Required". *)
Theorem submit_gate {E} (P : Platform E) (user : option AuthUser)
    (isOnline_rendered : bool) (st : ReportFormState) (w : World E) :
  string_falsy (form_hazard_type (formData st)) = true \/
  string_falsy (form_severity (formData st)) = true \/
  string_falsy (form_description (formData st)) = true \/
  from_option number_falsy true (loc_latitude (location st)) = true \/
  from_option number_falsy true (loc_longitude (location st)) = true ->
  ReportForm_handleSubmit P user isOnline_rendered st w
  = (st, w, [validation_toast]) \/
  ReportForm_handleSubmit P user isOnline_rendered st w
  = (st, w, [location_toast]).
Proof.
  intros Hbad. unfold ReportForm_handleSubmit.
  destruct (string_falsy (form_hazard_type (formData st))); [by left|].
  destruct (string_falsy (form_severity (formData st))); [by left|].
  destruct (string_falsy (form_description (formData st))); [by left|].
  cbn [orb]. right.
  destruct (loc_latitude (location st)) as [lat|]; [|done].
  destruct (loc_longitude (location st)) as [lon|]; [|done].
  cbn in Hbad.
  destruct (number_falsy lat); [done|].
  destruct (number_falsy lon); [done|].
  destruct Hbad as [? | [? | [? | [? | ?]]]]; discriminate.
Qed.

Lemma submit_gate_witness :
  let st := {| formData := {| form_hazard_type := "Oil Spill";
                              form_severity := "high";
                              form_urgency_level := "high";
                              form_description := "slick off the coast";
                              form_location_description := "Gulf of Guinea";
                              form_reporter_name := "Kofi";
                              form_reporter_contact := "" |};
               location := {| loc_latitude := Some 0%float;
                              loc_longitude := Some 6.5%float;
                              loc_address := "";
                              loc_accuracy := Some 12%float;
                              loc_loading := false;
                              loc_error := None |};
               mediaFiles := [];
               submitting := false |} in
  let w := demo_world true false [] [] 1000 in
  ReportForm_handleSubmit (demo_platform false) None true st w
  = (st, w, [location_toast]).
Proof.
  intros st w.
  destruct (submit_gate (demo_platform false) None true st w) as [H|H].
  - right. right. right. left. reflexivity.
  - discriminate H.
  - exact H.
Defined.

(** ** The attachments of the form *)

Lemma filter_length_all {A} (Q : A -> Prop) `{!forall x, Decision (Q x)}
    (l : list A) :
  length (filter Q l) = length l <-> Forall Q l.
Proof.
  induction l as [|x l IH]; [done|].
  rewrite filter_cons. destruct (decide (Q x)) as [Hx|Hx]; cbn.
  - rewrite Forall_cons. split.
    + intros [= Hlen]. split; [done|]. by apply IH.
    + intros [_ Hl]. f_equal. by apply IH.
  - pose proof (length_filter Q l). split; [lia|].
    by intros [? _]%Forall_cons.
Qed.

(** X13. What [handleFileChange] lets through.  The new list of
    attachments never has more than five files; it is the old list (cut
    to five) followed by picked files only, in the order they were
    picked, and each of those is an image or a video of at most 10 MB.
    The "File Upload Warning" is shown exactly when some picked file
    fails that test: files that are fine but fall to the limit of five
    are dropped without a warning. *)
Theorem media_picker_bounds (file_type : File -> string)
    (file_size : File -> Z) (files prev : list File) :
  let '(next, shown) := handleFileChange file_type file_size files prev in
  (length next <= 5)%nat /\
  (exists added,
     next = take 5 prev ++ added /\ sublist added files /\
     Forall (fun file => file_accepted file_type file_size file = true) added) /\
  (shown = [] <->
   Forall (fun file => file_accepted file_type file_size file = true) files) /\
  (shown = [] \/
   shown = [Toast "File Upload Warning"
              "Some files were skipped. Only images and videos under 10MB are allowed."
              (Some "destructive")]).
Proof.
  unfold handleFileChange.
  set (validFiles :=
         filter (fun file => file_accepted file_type file_size file = true) files).
  split; [rewrite length_take; lia|]. split; [|split].
  - exists (take (5 - length prev) validFiles). split; [apply take_app|].
    split.
    + transitivity validFiles; [apply sublist_take|apply sublist_filter].
    + apply Forall_take, Forall_forall.
      by intros file [Hfile _]%list_elem_of_filter.
  - rewrite <- filter_length_all. fold validFiles.
    destruct (Nat.eqb_spec (length validFiles) (length files)); split; done.
  - destruct (length validFiles =? length files)%nat; auto.
Qed.

Lemma removeFile_from (start : nat) (index : Z) (prev : list File) :
  (filter (fun ix : nat * File => Z.of_nat ix.1 <> index)
     (zip (seq start (length prev)) prev)).*2
  = if decide (Z.of_nat start <= index)
    then delete (Z.to_nat index - start)%nat prev else prev.
Proof.
  revert start. induction prev as [|x l IH]; intros start.
  - by destruct (decide _).
  - cbn [length seq zip zip_with]. rewrite filter_cons. cbn [fst].
    specialize (IH (S start)).
    destruct (decide (Z.of_nat start <> index)) as [Hne|Heq].
    + rewrite fmap_cons, IH. cbn [snd].
      destruct (decide (Z.of_nat (S start) <= index)),
               (decide (Z.of_nat start <= index)); try lia; [|done].
      replace (Z.to_nat index - start)%nat
        with (S (Z.to_nat index - S start)) by lia.
      done.
    + apply dec_stable in Heq. rewrite IH.
      destruct (decide (Z.of_nat (S start) <= index)),
               (decide (Z.of_nat start <= index)); try lia.
      replace (Z.to_nat index - start)%nat with 0%nat by lia. done.
Qed.

(** X14. [removeFile index] takes out exactly the attachment at
    position [index] and keeps the others in their order; for a
    negative index, or one past the end, it leaves the list as it is. *)
Theorem removeFile_deletes_at (index : Z) (prev : list File) :
  removeFile index prev
  = (if decide (0 <= index < Z.of_nat (length prev))
     then take (Z.to_nat index) prev ++ drop (S (Z.to_nat index)) prev
     else prev) /\
  length (removeFile index prev)
  = (if decide (0 <= index < Z.of_nat (length prev))
     then pred (length prev) else length prev).
Proof.
  assert (Heq : removeFile index prev
                = if decide (0 <= index < Z.of_nat (length prev))
                  then take (Z.to_nat index) prev
                       ++ drop (S (Z.to_nat index)) prev
                  else prev).
  { unfold removeFile. rewrite (removeFile_from 0 index prev).
    rewrite Nat.sub_0_r.
    destruct (decide (Z.of_nat 0 <= index)),
             (decide (0 <= index < Z.of_nat (length prev))); try lia.
    - apply delete_take_drop.
    - assert (forall i (l : list File), (length l <= i)%nat -> delete i l = l)
        as Hdel.
      { clear. intros i l. revert i.
        induction l as [|x l IH]; intros [|i] Hi;
          cbn in *; try done; try lia. f_equal. apply IH. lia. }
      apply Hdel. lia.
    - done. }
  split; [done|]. rewrite Heq.
  destruct (decide (0 <= index < Z.of_nat (length prev))); [|done].
  rewrite length_app, length_take, length_drop. lia.
Qed.

(** ** The age shown for a queued report *)

(** X15. [formatTimeAgo] shows whole elapsed units of the elapsed
    time, which is the difference of the two time values as the doubles
    give it: exact up to [2^53] ms, and at most 1 ms off beyond.  A
    report from the future or less than a minute old reads "Just now";
    below an hour it shows the minutes (1 to 59), below a day the hours
    (1 to 23), from then on the days, each the floor of the elapsed
    time in that unit (flooring minutes, then hours, then days loses
    nothing against dividing once).  An invalid date reads
    "NaNd ago". *)
Theorem formatTimeAgo_buckets (now created : Z) :
  let elapsed := round_double (now - created) in
  formatTimeAgo now (Some created)
  = (if elapsed <? 60000 then "Just now"
     else if elapsed <? 3600000
          then pretty (elapsed / 60000) +:+ "m ago"
     else if elapsed <? 86400000
          then pretty (elapsed / 3600000) +:+ "h ago"
     else pretty (elapsed / 86400000) +:+ "d ago") /\
  (Z.abs (now - created) <= 2 ^ 53 -> elapsed = now - created) /\
  Z.abs (elapsed - (now - created)) <= 1 /\
  (60000 <= elapsed < 3600000 -> 1 <= elapsed / 60000 < 60) /\
  (3600000 <= elapsed < 86400000 -> 1 <= elapsed / 3600000 < 24) /\
  (86400000 <= elapsed -> 1 <= elapsed / 86400000) /\
  formatTimeAgo now None = "NaNd ago".
Proof.
  intros elapsed.
  assert (Hround : (Z.abs (now - created) <= 2 ^ 53 ->
                    elapsed = now - created) /\
                   Z.abs (elapsed - (now - created)) <= 1).
  { subst elapsed. unfold round_double.
    destruct (Z.leb_spec (Z.abs (now - created)) (2 ^ 53)); [lia|].
    destruct (Z.even (now - created)); [lia|].
    destruct ((now - created + 1) mod 4 =? 0); lia. }
  destruct Hround as [Hexact Hnear].
  split; [|split; [exact Hexact|split; [exact Hnear|]]].
  - unfold formatTimeAgo. cbn zeta. fold elapsed.
    generalize elapsed as d. intros d.
    assert (Hh : d / 60000 / 60 = d / 3600000).
    { rewrite Z.div_div by lia. done. }
    assert (Hd : d / 60000 / 60 / 24 = d / 86400000).
    { rewrite !Z.div_div by lia. done. }
    rewrite Hd, Hh.
    assert (H1 : (d / 60000 <? 1) = (d <? 60000)).
    { destruct (Z.ltb_spec (d / 60000) 1), (Z.ltb_spec d 60000);
        try done; Z.div_mod_to_equations; lia. }
    assert (H2 : (d / 60000 <? 60) = (d <? 3600000)).
    { destruct (Z.ltb_spec (d / 60000) 60), (Z.ltb_spec d 3600000);
        try done; Z.div_mod_to_equations; lia. }
    assert (H3 : (d / 3600000 <? 24) = (d <? 86400000)).
    { destruct (Z.ltb_spec (d / 3600000) 24), (Z.ltb_spec d 86400000);
        try done; Z.div_mod_to_equations; lia. }
    by rewrite H1, H2, H3.
  - generalize elapsed as d. intros d.
    split; [|split; [|split; [|done]]]; intros Hd;
      Z.div_mod_to_equations; lia.
Qed.

Lemma formatTimeAgo_buckets_witness :
  formatTimeAgo 1700000000000 (Some 1699999880001) = "1m ago" /\
  formatTimeAgo 1700000000000 (Some 1700000300000) = "Just now" /\
  formatTimeAgo 4503600000000000 (Some (-4503599999999999))
  = "104250000d ago" /\
  round_double (1700000000000 - 1699990000000)
  = 1700000000000 - 1699990000000.
Proof.
  split; [reflexivity|]. split; [reflexivity|]. split; [reflexivity|].
  apply (proj1 (proj2 (formatTimeAgo_buckets 1700000000000 1699990000000))).
  vm_compute. discriminate.
Defined.

(** ** The auth store *)

Lemma auth_rtc_invariant (sys sys' : AuthSystem) :
  rtc auth_step sys sys' ->
  auth_user (auth sys) = session_user <$> auth_session (auth sys) /\
  (auth_loading (auth sys) = true -> auth sys = auth auth_initial) /\
  (auth_initialized (auth sys) = true -> auth_loading (auth sys) = false) ->
  auth_user (auth sys') = session_user <$> auth_session (auth sys') /\
  (auth_loading (auth sys') = true -> auth sys' = auth auth_initial) /\
  (auth_initialized (auth sys') = true -> auth_loading (auth sys') = false).
Proof.
  induction 1 as [|sys1 sys2 sys3 Hstep _ IH]; [done|].
  intros (Huser & Hloading & Hinit). apply IH.
  destruct Hstep; cbn -[auth_initial]; [|by auto..].
  unfold initialize. destruct (auth_initialized (auth sys)) eqn:Hi; cbn -[auth_initial]; intuition congruence.
Qed.

(** X16. What the auth store can be seen in.  In every state reachable
    from the created store by calls of [initialize], auth events,
    [getSession] answers and unsubscriptions: [user] is the user of
    [session] ([null] exactly when there is no session); while
    [loading] is still true nothing has been set ([user] and [session]
    are [null], [initialized] is false); and [initialized] implies that
    [loading] is false. *)
Theorem auth_store_invariant (sys : AuthSystem) :
  rtc auth_step auth_initial sys ->
  auth_user (auth sys) = session_user <$> auth_session (auth sys) /\
  (auth_loading (auth sys) = true -> auth sys = auth auth_initial) /\
  (auth_initialized (auth sys) = true -> auth_loading (auth sys) = false).
Proof.
  intros Hreach. by apply (auth_rtc_invariant _ _ Hreach).
Qed.

Lemma auth_store_invariant_witness :
  let u := {| user_id := "user-1"; user_full_name := Some "Asha";
              user_email := Some "asha@example.org" |} in
  let s := {| session_user := u; access_token := "token" |} in
  let sys := {| auth := on_session (Some s) (auth auth_initial);
                subscriptions := 1; pending_sessions := 0 |} in
  rtc auth_step auth_initial sys /\
  auth_user (auth sys) = session_user <$> auth_session (auth sys).
Proof.
  intros u s sys.
  assert (Hreach : rtc auth_step auth_initial sys).
  { eapply rtc_l; [apply auth_step_initialize|].
    eapply rtc_l; [apply (auth_step_session (Some s)); cbn; lia|].
    apply rtc_refl. }
  split; [exact Hreach|].
  exact (proj1 (auth_store_invariant sys Hreach)).
Defined.

(** X17. Once [initialized] is true it stays true, whatever happens
    next; [loading], once false, stays false; and further calls of
    [initialize] register nothing, so the number of listeners never
    grows again. *)
Theorem auth_initialized_for_good (sys sys' : AuthSystem) :
  rtc auth_step sys sys' ->
  auth_initialized (auth sys) = true ->
  auth_initialized (auth sys') = true /\
  (subscriptions sys' <= subscriptions sys)%nat /\
  (auth_loading (auth sys) = false -> auth_loading (auth sys') = false).
Proof.
  intros Hreach Hinit.
  induction Hreach as [|sys1 sys2 sys3 Hstep _ IH]; [done|].
  assert (Hone : auth_initialized (auth sys2) = true /\
                 (subscriptions sys2 <= subscriptions sys1)%nat /\
                 (auth_loading (auth sys1) = false ->
                  auth_loading (auth sys2) = false)).
  { destruct Hstep; cbn.
    - unfold initialize. by rewrite Hinit.
    - done.
    - done.
    - split; [done|]. split; [lia|done]. }
  destruct Hone as (Hinit2 & Hsubs2 & Hload2).
  destruct (IH Hinit2) as (Hinit3 & Hsubs3 & Hload3).
  split; [done|]. split; [lia|auto].
Qed.

Lemma auth_initialized_for_good_witness :
  let ready := {| auth := on_session None (auth auth_initial);
                  subscriptions := 1; pending_sessions := 0 |} in
  let later := {| auth := on_auth_state_change None (auth (initialize ready));
                  subscriptions := 1; pending_sessions := 0 |} in
  rtc auth_step ready later /\
  auth_initialized (auth later) = true /\
  (subscriptions later <= subscriptions ready)%nat.
Proof.
  intros ready later.
  assert (Hreach : rtc auth_step ready later).
  { eapply rtc_l; [apply auth_step_initialize|].
    eapply rtc_l; [apply (auth_step_event None); cbn; lia|].
    apply rtc_refl. }
  split; [exact Hreach|].
  destruct (auth_initialized_for_good ready later Hreach eq_refl)
    as (Hinit & Hsubs & _).
  exact (conj Hinit Hsubs).
Defined.

(** X18. [initialize] guards on [initialized] only, which the first
    [getSession] answer sets: as long as that answer is outstanding,
    every call of [initialize] registers one more auth listener and
    asks for the session once more, so [n] calls leave [n] listeners
    and [n] requests; the state itself is not touched. *)
Theorem auth_initialize_not_deduplicated (sys : AuthSystem) (n : nat) :
  auth_initialized (auth sys) = false ->
  subscriptions (Nat.iter n initialize sys) = (n + subscriptions sys)%nat /\
  pending_sessions (Nat.iter n initialize sys)
  = (n + pending_sessions sys)%nat /\
  auth (Nat.iter n initialize sys) = auth sys.
Proof.
  intros Hinit. induction n as [|n (IH1 & IH2 & IH3)]; [done|].
  change (Nat.iter (S n) initialize sys)
    with (initialize (Nat.iter n initialize sys)).
  generalize dependent (Nat.iter n initialize sys).
  intros sysn Hsubs Hpend Hauth. unfold initialize.
  rewrite Hauth, Hinit. cbn. by rewrite Hsubs, Hpend.
Qed.

Lemma auth_initialize_not_deduplicated_witness :
  subscriptions (Nat.iter 2 initialize auth_initial) = 2%nat /\
  pending_sessions (Nat.iter 2 initialize auth_initial) = 2%nat.
Proof.
  destruct (auth_initialize_not_deduplicated auth_initial 2 eq_refl)
    as (Hsubs & Hpend & _).
  exact (conj Hsubs Hpend).
Defined.

(** ** At least once, not exactly once *)

Section LogFacts.
Context {E : Type} (P : Platform E).
Implicit Types w : World E.

Lemma perform_storage_logged {X} (o : op X) w :
  exists evs, trace (perform P o w).1 = trace w ++ evs /\
    forall c ok, EvStorage c ok ∈ evs ->
                 exists e, (lf_fault P e c).2 = negb ok.
Proof.
  assert (Hcall : forall c, exists ok,
            trace (storage_call P c w).1 = trace w ++ [EvStorage c ok] /\
            exists e, (lf_fault P e c).2 = negb ok).
  { intros c. unfold storage_call.
    destruct (lf_fault P (ext w) c) as [e failed] eqn:Hf.
    exists (negb failed). split; [done|]. exists (ext w).
    by rewrite Hf, negb_involutive. }
  assert (Hnone : forall ev : event,
            (forall c ok, ev <> EvStorage c ok) ->
            forall c ok, EvStorage c ok ∈ [ev] ->
                         exists e, (lf_fault P e c).2 = negb ok).
  { intros ev Hev c ok Hin%list_elem_of_singleton. by destruct (Hev c ok). }
  destruct o; cbn;
    try (match goal with
         | |- context [storage_call P ?c w] =>
             destruct (Hcall c) as (ok & Hok & Hfault);
             destruct (storage_call P c w) as [w1 failed]; cbn in Hok;
             destruct failed; cbn; rewrite Hok; eexists; (split; [done|]);
             by intros c' ok' [= -> ->]%list_elem_of_singleton
         end);
    repeat match goal with
           | |- context [match ?x with _ => _ end] => destruct x
           end; cbn;
    try (exists []; rewrite app_nil_r; split; [done|];
         by intros c ok ?%elem_of_nil);
    (eexists; split; [done|]; by apply Hnone).
Qed.

(** Every localforage call in the log was answered that way by
    localforage. *)
Lemma run_storage_logged {A} (p : prog A) w :
  exists evs, trace (run P p w).1 = trace w ++ evs /\
    forall c ok, EvStorage c ok ∈ evs ->
                 exists e, (lf_fault P e c).2 = negb ok.
Proof.
  revert w. induction p as [a|e|X o k IH]; intros w; cbn [run].
  - exists []. rewrite app_nil_r. split; [done|]. by intros c ok ?%elem_of_nil.
  - exists []. rewrite app_nil_r. split; [done|]. by intros c ok ?%elem_of_nil.
  - destruct (perform_storage_logged o w) as (evs1 & H1 & Hl1).
    destruct (perform P o w) as [w1 x]. cbn in H1.
    destruct (IH x w1) as (evs2 & H2 & Hl2). exists (evs1 ++ evs2).
    split; [by rewrite H2, H1, app_assoc|].
    intros c ok [Hin|Hin]%elem_of_app; eauto.
Qed.

End LogFacts.

(** X19. The drain delivers at least once, not exactly once.  Let the
    gateway accept an unsynced record, the user lookup answer, and
    localforage refuse the write that would mark the record.  Then the
    drain's turn for the record uploads its attachments and inserts its
    row, successfully, reports the failed write on the console and
    returns; the database and the store are as before, so the record is
    still pending.  This holds in every world: each later pass inserts
    the row again. *)
Theorem insert_repeats_when_mark_fails {E} (P : Platform E)
    (report : OfflineReport) (w : World E) :
  synced report = false ->
  auth_answers P -> gateway_accepts P report ->
  (forall e, (lf_fault P e (LfSetItem (id report))).2 = true) ->
  wp P (sync_report report)
    (fun w' out =>
       out = Returned tt /\ db w' = db w /\ store w' = store w /\
       exists names user_id msg,
         length names = length (attachments report) /\
         trace w' = trace w ++
           uploaded names (attachments report) ++
           [EvGetUser;
            EvInsert (insert_row report (map (public_url P) names) user_id) true;
            EvStorage (LfSetItem (id report)) false;
            EvConsoleError msg (StorageError (LfSetItem (id report)))]) w.
Proof.
  intros Hs Hauth [Hup Hins] Hfull.
  pose proof (wp_sync_report P report w Hs) as Hturn.
  destruct (run_storage_logged P (sync_report report) w) as (evs' & Htr' & Hlog).
  unfold wp in *.
  destruct Hturn as (Hout & Hst & _ & evs & Htr & Hat).
  rewrite Htr in Htr'. apply app_inv_head in Htr'. subst evs'.
  split; [done|]. rewrite Htr.
  destruct Hat as [names uid Hlen _ _ _
                  |names uid msg Hlen _ _ Hdb
                  |names uid msg err _ _ [e He] _
                  |names msg err _ _ [e He] _
                  |names sent file rest n msg err Hfiles _ [e He] _].
  - exfalso. destruct (Hlog (LfSetItem (id report)) true) as [e He].
    { apply elem_of_app. right. do 2 right. left. }
    by rewrite Hfull in He.
  - split; [done|]. split; [done|]. by exists names, uid, msg.
  - by rewrite Hins in He.
  - by apply Hauth in He.
  - rewrite Hup in He; [done|]. rewrite Hfiles. apply elem_of_app. right. by left.
Qed.

Lemma insert_repeats_when_mark_fails_witness :
  let report := demo_report "a" "spill" (Some [photo "x.jpg"]) 10 false in
  let w := demo_world true true [report] [report] 1000 in
  wp (demo_platform true) (sync_report report)
    (fun w' out =>
       out = Returned tt /\ db w' = db w /\ store w' = store w /\
       exists names user_id msg,
         length names = length (attachments report) /\
         trace w' = trace w ++
           uploaded names (attachments report) ++
           [EvGetUser;
            EvInsert (insert_row report
                        (map (public_url (demo_platform true)) names) user_id) true;
            EvStorage (LfSetItem (id report)) false;
            EvConsoleError msg (StorageError (LfSetItem (id report)))]) w.
Proof.
  intros report w.
  apply (insert_repeats_when_mark_fails (demo_platform true) report w).
  - reflexivity.
  - intros e err. cbn. discriminate.
  - split.
    + intros file Hfile%list_elem_of_singleton e fileName. subst file. reflexivity.
    + intros e urls uid. reflexivity.
  - intros e. reflexivity.
Defined.

(** ** Drain, then clean up *)

(** X20. A healthy drain followed by a clean-up leaves nothing behind.
    Under the conditions of a healthy drain (records stored under their
    ids, every stored pending record in the projection, the gateway
    accepting every record of the projection, localforage and the user
    lookup answering), [syncPendingReports] followed by
    [clearSyncedReports] ends with an empty database and an empty
    projection; both calls return normally. *)
Theorem drain_then_clear_empties_database {E} (P : Platform E) (w : World E) :
  isOnline (store w) = true ->
  syncInProgress (store w) = false ->
  pendingReports (store w) <> [] ->
  (forall key r, db w !! key = Some r -> id r = key) ->
  (forall r, stored_pending (db w) r -> r ∈ pendingReports (store w)) ->
  reliable_storage P -> auth_answers P ->
  (forall r, r ∈ pendingReports (store w) -> gateway_accepts P r) ->
  wp P (bind syncPendingReports (fun _ => clearSyncedReports))
    (fun w' out =>
       out = Returned tt /\ db w' = ∅ /\ pendingReports (store w') = []) w.
Proof.
  intros Hon Hbusy Hne Hkeys Hcover Hrel Hauth Hacc.
  apply wp_bind. eapply wp_mono; [by apply wp_sync|].
  intros w1 out (-> & _ & _ & _ & marked & _ & _ & Hdb & Hall & _).
  assert (Hsynced : forall key r, db w1 !! key = Some r -> synced r = true).
  { rewrite Hdb. apply mark_synced_all_complete; [done|].
    intros r Hr. apply Hall; auto. by destruct Hr as (? & _ & ?). }
  eapply wp_mono; [apply wp_clear|].
  intros w2 out2 (-> & _ & _ & _ & removed & _ & Hdb2 & _ & Hexact).
  destruct (Hexact Hrel) as [-> Hproj].
  assert (Hempty : db w2 = ∅).
  { apply map_eq. intros key. rewrite Hdb2, lookup_empty.
    destruct (decide (key ∈ synced_keys (db w1))) as [|Hkey]; [done|].
    destruct (db w1 !! key) as [r|] eqn:Hr; [|done].
    destruct Hkey. apply synced_keys_elem. exists r. split; [done|].
    by apply (Hsynced key). }
  split; [done|]. split; [done|].
  rewrite Hproj, Hempty. unfold pending_values. by rewrite map_to_list_empty.
Qed.

Lemma drain_then_clear_empties_database_witness :
  let r1 := demo_report "a" "spill" None 10 false in
  let r2 := demo_report "b" "waves" (Some [photo "x.jpg"]) 20 false in
  let done := demo_report "c" "erosion" None 5 true in
  let w := demo_world true false [r2; r1] [r1; r2; done] 1000 in
  wp (demo_platform false) (bind syncPendingReports (fun _ => clearSyncedReports))
    (fun w' out =>
       out = Returned tt /\ db w' = ∅ /\ pendingReports (store w') = []) w.
Proof.
  intros r1 r2 done w.
  apply (drain_then_clear_empties_database (demo_platform false) w).
  - reflexivity.
  - reflexivity.
  - discriminate.
  - intros key r. apply db_of_keys.
  - intros r (key & Hkey & Hs).
    pose proof (db_of_keys _ _ _ Hkey) as Hid.
    apply elem_of_list_to_map_2 in Hkey.
    repeat (apply elem_of_cons in Hkey as [Hkey|Hkey]);
      try (by apply elem_of_nil in Hkey);
      injection Hkey as _ ->; try discriminate Hs.
    + right. left.
    + left.
  - intros e c. reflexivity.
  - intros e err. discriminate.
  - intros r Hr.
    repeat (apply elem_of_cons in Hr as [->|Hr]);
      try (by apply elem_of_nil in Hr);
      (split; [|intros e urls uid; reflexivity]);
      intros file Hf;
      repeat (apply elem_of_cons in Hf as [->|Hf];
              [intros e n; reflexivity|]);
      by apply elem_of_nil in Hf.
Defined.

(** ** When a drain is armed *)

Section OnlineFacts.
Context {E : Type} (P : Platform E).
Implicit Types w : World E.

Lemma perform_keeps_online {X} (o : op X) w (b : bool) :
  keeps_online X o -> isOnline (store w) = b ->
  isOnline (store (perform P o w).1) = b.
Proof.
  intros Hk Hw. pose proof (perform_store_kept P o w) as Hst.
  destruct o; try (by rewrite Hst). cbn. by rewrite Hk.
Qed.

(** The listener's call runs to its end at once: the flag is set and,
    for [true], the timer armed; nothing is left in flight. *)
Lemma invoke_setOnlineStatus status (sys : System E) :
  invoke P (CallSetOnlineStatus status) sys
  = Build_System
      (set_timers
         (timers (world sys)
          ++ (if status then [(1000, TaskSyncPendingReports)] else []))
         (set_store (set_isOnline status (store (world sys))) (world sys)))
      (inflight sys).
Proof.
  unfold invoke. destruct status; cbn; [done|].
  destruct sys as [[s m t tr e] l]. cbn. by rewrite app_nil_r.
Qed.

(** The three actions that never arm a timer. *)
Lemma timers_kept w :
  timers (run P loadPendingReports w).1 = timers w /\
  timers (run P syncPendingReports w).1 = timers w /\
  timers (run P clearSyncedReports w).1 = timers w.
Proof.
  split; [|split].
  - apply (wp_load P (fun w' _ => timers w' = timers w)).
    by intros w' (_ & Htm & _).
  - destruct (isOnline (store w)) eqn:Hon;
      [|by rewrite run_sync_guarded by auto].
    destruct (syncInProgress (store w)) eqn:Hbusy;
      [by rewrite run_sync_guarded by auto|].
    destruct (pendingReports (store w)) as [|r0 batch] eqn:Hbatch;
      [by rewrite run_sync_guarded by auto|].
    assert (Hne : pendingReports (store w) <> []) by (by rewrite Hbatch).
    by destruct (wp_sync P w Hon Hbusy Hne) as (_ & Htm & _).
  - by destruct (wp_clear P w) as (_ & Htm & _).
Qed.

End OnlineFacts.

Lemma online_action c :
  is_status_call c = false -> always keeps_online (action c).
Proof.
  destruct c as [status|reportData| | |]; cbn [action is_status_call];
    intros Hc; [done|..].
  - unfold addPendingReport, localforage_setItem. repeat always_step.
  - unfold loadPendingReports, localforage_iterate. repeat always_step.
  - unfold syncPendingReports, await_loadPendingReports, sync_report,
      sync_attempt, upload_file, localforage_setItem, loadPendingReports,
      localforage_iterate.
    repeat always_step.
  - unfold clearSyncedReports, await_loadPendingReports,
      localforage_iterate, localforage_removeItem, loadPendingReports.
    repeat always_step.
Qed.

Section WiredFacts.
Context {E : Type} (P : Platform E).

(** The store's flag is the browser's, and nothing in flight will
    change it. *)
Lemma wired_step_online (ws ws' : Wired E) :
  wired_step P ws ws' ->
  isOnline (store (world (system ws))) = navigator_onLine ws ->
  (forall c p, (c, p) ∈ inflight (system ws) -> always keeps_online p) ->
  isOnline (store (world (system ws'))) = navigator_onLine ws' /\
  (forall c p, (c, p) ∈ inflight (system ws') -> always keeps_online p).
Proof.
  intros Hstep Hw Hprogs.
  pose proof (fun X (o : op X) w (Hk : keeps_online X o)
                (H : isOnline (store w) = navigator_onLine ws) =>
                perform_keeps_online P o w _ Hk H) as Hperform.
  destruct Hstep as [ws|c ws Hc|i ws sys' Hfire|i ws sys' Hres]; cbn.
  - unfold connectivity_flips. cbn.
    destruct (navigator_onLine ws); cbn; done.
  - unfold invoke.
    destruct (sync_run_safe P keeps_online _ Hperform (action c)
                (world (system ws)) (online_action c Hc) Hw) as [Hw' Hp'].
    destruct (sync_run P (action c) (world (system ws))) as [w' p']. cbn in *.
    split; [done|].
    intros c0 p0 [H|(_ & -> & _)]%elem_of_park; [by eapply Hprogs|done].
  - unfold fire in Hfire.
    destruct (timers (world (system ws)) !! i) as [[ms []]|]; [|done].
    injection Hfire as <-. unfold invoke. cbn [world inflight].
    destruct (sync_run_safe P keeps_online _ Hperform
                (action CallSyncPendingReports)
                (set_timers (delete i (timers (world (system ws))))
                   (world (system ws)))
                (online_action CallSyncPendingReports eq_refl) Hw)
      as [Hw' Hp'].
    destruct (sync_run P (action CallSyncPendingReports) _) as [w' p'].
    cbn in *. split; [done|].
    intros c0 p0 [H|(_ & -> & _)]%elem_of_park; [by eapply Hprogs|done].
  - unfold resume_at in Hres.
    destruct (inflight (system ws) !! i) as [[c p]|] eqn:Hi; [|done].
    assert (Hp : always keeps_online p).
    { eapply Hprogs. by eapply list_elem_of_lookup_2. }
    destruct (resume_safe P keeps_online _ Hperform p (world (system ws)) Hp Hw)
      as [Hw' Hp'].
    destruct (resume P p (world (system ws))) as [w' p']. injection Hres as <-.
    cbn in *. split; [done|].
    intros c0 p0 [H|(_ & -> & _)]%elem_of_park; [|done].
    eapply Hprogs, elem_of_sublist; [exact H|apply sublist_delete].
Qed.

Lemma wired_reachable_online (ws ws' : Wired E) :
  rtc (wired_step P) ws ws' ->
  isOnline (store (world (system ws))) = navigator_onLine ws ->
  (forall c p, (c, p) ∈ inflight (system ws) -> always keeps_online p) ->
  isOnline (store (world (system ws'))) = navigator_onLine ws'.
Proof.
  induction 1 as [|ws0 ws1 ws2 Hstep _ IH]; intros Hw Hprogs; [done|].
  destruct (wired_step_online _ _ Hstep Hw Hprogs) as [Hw' Hprogs'].
  by apply IH.
Qed.

End WiredFacts.


